(** * Project tracker: tool handlers, deployment health checker and agent loop

    A shallow embedding of the handler set and of the /chat tool-use loop of
    the tracker server (the extended server variant, which contains the
    handlers of the two smaller variants unchanged), over an explicit model of
    the collaborators the server talks to: the relational store behind the
    query client, the HTTP client, the clock and the completion API. *)

From Stdlib Require Import ZArith Ascii String List Lia.
From Stdlib Require Import Floats.
From stdpp Require Import base option list gmap strings pretty.
From Stdlib Require Import Sorted.

Local Set Warnings "-register-all,-abstract-large-number".
Local Open Scope Z_scope.
Local Open Scope string_scope.

(** ** JavaScript values *)

(** The JSON fragment of JavaScript values: what travels between the model,
    the handlers and the store. [undefined] is [None] of [option json]. *)
Inductive json : Type :=
  | JNull
  | JBool (b : bool)
  | JNum (n : Z)
  | JStr (s : string)
  | JArr (items : list json)
  | JObj (members : list (string * json)).

(** [a === b] on the JSON fragment, by structure. *)
Fixpoint json_eqb (a b : json) {struct a} : bool :=
  match a, b with
  | JNull, JNull => true
  | JBool x, JBool y => Bool.eqb x y
  | JNum x, JNum y => Z.eqb x y
  | JStr x, JStr y => String.eqb x y
  | JArr xs, JArr ys =>
      (fix all2 (xs ys : list json) {struct xs} : bool :=
         match xs, ys with
         | [], [] => true
         | x :: xs', y :: ys' => json_eqb x y && all2 xs' ys'
         | _, _ => false
         end) xs ys
  | JObj xs, JObj ys =>
      (fix all2 (xs ys : list (string * json)) {struct xs} : bool :=
         match xs, ys with
         | [], [] => true
         | (k, x) :: xs', (k', y) :: ys' =>
             String.eqb k k' && json_eqb x y && all2 xs' ys'
         | _, _ => false
         end) xs ys
  | _, _ => false
  end.

(** A store row, and any object built field by field, maps column names to
    values. *)
Abbreviation row := (gmap string json).

Definition of_row (r : row) : json := JObj (map_to_list r).

(** [{ ...base, key: value }] where an [undefined] value leaves the key out
    of the serialized object. *)
Definition with_field (key : string) (value : option json) (base : row) : row :=
  match value with
  | Some v => <[key := v]> base
  | None => base
  end.

Definition str (s : option string) : option json := JStr <$> s.

(** Truthiness of an optional string argument: [undefined] and [''] are
    falsy. *)
Definition truthy (s : option string) : bool :=
  match s with
  | Some s => negb (String.eqb s "")
  | None => false
  end.

(** [String(x)] of an optional string, as template literals and the query
    client's filters render it. *)
Definition String_of (s : option string) : string :=
  match s with
  | Some s => s
  | None => "undefined"
  end.

Definition field_string (key : string) (r : row) : option string :=
  match r !! key with
  | Some (JStr s) => Some s
  | _ => None
  end.

(** ** Strings *)

Definition is_upper (c : ascii) : bool :=
  (65 <=? nat_of_ascii c)%nat && (nat_of_ascii c <=? 90)%nat.

Definition lower_char (c : ascii) : ascii :=
  if is_upper c then ascii_of_nat (nat_of_ascii c + 32) else c.

(** [s.toLowerCase()] on strings of ASCII characters. *)
Fixpoint toLowerCase (s : string) : string :=
  match s with
  | EmptyString => EmptyString
  | String c rest => String (lower_char c) (toLowerCase rest)
  end.

Definition quote : ascii := "034".
Definition newline : ascii := "010".

(** [s.substring(0, n)]. *)
Fixpoint substring0 (n : nat) (s : string) : string :=
  match n, s with
  | S n', String c rest => String c (substring0 n' rest)
  | _, _ => EmptyString
  end.

(** ** Conversations *)

(** The text [JSON.stringify(value)], kept as the value it serializes. *)
Inductive serialized : Type :=
  | JSON_stringify (value : option json).

(** A content block of a model response. The input of a tool call is an
    object; its members are kept. *)
Inductive block : Type :=
  | text_block (text : string)
  | tool_use (id : string) (name : string) (input : list (string * json))
  | other_block (type : string).

(** An entry of the batch answering the tool calls of one turn; [is_error]
    is [false] where the entry has no such member. *)
Record tool_result : Type := ToolResult {
  tool_use_id : string;
  content : serialized;
  is_error : bool
}.

(** One entry of the [messages] array. *)
Inductive turn : Type :=
  | user_text (content : string)
  | assistant (content : list block)
  | user_results (content : list tool_result).

Record model_response : Type := ModelResponse {
  stop_reason : string;
  blocks : list block
}.

(** ** The world outside the process *)

(** What a GET request to a URL meets: a response with its status code, the
    milliseconds it took to arrive and its body, or a network failure. *)
Inductive probe : Type :=
  | Responded (status : Z) (elapsed : Z) (body : string)
  | Unreachable (message : string).

Inductive completion (A : Type) : Type :=
  | Returned (value : A)
  | Thrown (message : string).
Arguments Returned {A} value.
Arguments Thrown {A} message.

(** The state the handlers read and write. [outages] decides, one entry per
    request sent to the store, whether the store answers with an error
    ([Some message]) instead of performing it; past the end of the list the
    store is reliable. [fetched] logs every URL requested and [requested]
    every conversation sent to the completion API, oldest first; [model] is
    what the completion API answers to a conversation. *)
Record world : Type := World {
  tables : gmap string (list row);
  next_id : N;
  outages : list (option string);
  now : string;
  net : string -> probe;
  fetched : list string;
  model : list turn -> completion model_response;
  requested : list (list turn)
}.

Definition set_tables (t : gmap string (list row)) (w : world) : world :=
  World t (next_id w) (outages w) (now w) (net w) (fetched w) (model w) (requested w).
Definition set_next_id (n : N) (w : world) : world :=
  World (tables w) n (outages w) (now w) (net w) (fetched w) (model w) (requested w).
Definition set_outages (o : list (option string)) (w : world) : world :=
  World (tables w) (next_id w) o (now w) (net w) (fetched w) (model w) (requested w).
Definition set_fetched (l : list string) (w : world) : world :=
  World (tables w) (next_id w) (outages w) (now w) (net w) l (model w) (requested w).
Definition set_requested (l : list (list turn)) (w : world) : world :=
  World (tables w) (next_id w) (outages w) (now w) (net w) (fetched w) (model w) l.

(** ** Asynchronous computations that may throw *)

Definition async (A : Type) : Type := world -> completion A * world.

Definition ret {A} (a : A) : async A := fun w => (Returned a, w).
Definition throw {A} (message : string) : async A := fun w => (Thrown message, w).
Definition bind {A B} (m : async A) (k : A -> async B) : async B :=
  fun w =>
    match m w with
    | (Returned a, w') => k a w'
    | (Thrown e, w') => (Thrown e, w')
    end.
(** [try { body } catch (err) { handler(err.message) }]. *)
Definition try_catch {A} (body : async A) (handler : string -> async A) : async A :=
  fun w =>
    match body w with
    | (Returned a, w') => (Returned a, w')
    | (Thrown e, w') => handler e w'
    end.

Notation "'let!' x ':=' m 'in' k" := (bind m (fun x => k))
  (at level 10, x name, m at level 100, k at level 200).
Notation "m ';;' k" := (bind m (fun _ => k))
  (at level 100, k at level 200, right associativity).

(** [new Date().toISOString()]. *)
Definition Date_now : async string := fun w => (Returned (now w), w).

(** ** The relational store behind the query client *)

(** The answer of the query client to one request: [{ data, error }]. *)
Record reply (A : Type) : Type := Reply { data : option A; error : option string }.
Arguments Reply {A} data error.
Arguments data {A} r.
Arguments error {A} r.

Inductive criterion : Type :=
  | Eq (column : string) (value : json)
  | IsNull (column : string)
  | ILike (column : string) (pattern : string).

(** SQL [LIKE] on character lists: [%] matches any run, [_] any one
    character. *)
Fixpoint like (pattern : list ascii) : list ascii -> bool :=
  match pattern with
  | [] => fun s => match s with [] => true | _ => false end
  | p :: pattern' =>
      if Ascii.eqb p "%" then
        fix star (s : list ascii) : bool :=
          like pattern' s || match s with [] => false | _ :: s' => star s' end
      else if Ascii.eqb p "_" then
        fun s => match s with [] => false | _ :: s' => like pattern' s' end
      else
        fun s => match s with
                 | [] => false
                 | c :: s' => Ascii.eqb p c && like pattern' s'
                 end
  end.

Definition ilike (pattern s : string) : bool :=
  like (list_ascii_of_string (toLowerCase pattern))
       (list_ascii_of_string (toLowerCase s)).

Definition matches (r : row) (f : criterion) : bool :=
  match f with
  | Eq column value =>
      match r !! column with
      | None | Some JNull => false
      | Some x => json_eqb x value
      end
  | IsNull column =>
      match r !! column with
      | None | Some JNull => true
      | _ => false
      end
  | ILike column pattern =>
      match r !! column with
      | Some (JStr s) => ilike pattern s
      | _ => false
      end
  end.

Definition selected (filters : list criterion) (r : row) : bool :=
  forallb (matches r) filters.

Definition table (name : string) (db : gmap string (list row)) : list row :=
  default [] (db !! name).

(** *** The schema *)

Definition one_of (allowed : list string) (value : option json) : bool :=
  match value with
  | None | Some JNull => true
  | Some (JStr s) => existsb (String.eqb s) allowed
  | Some _ => false
  end.

Definition not_null (value : option json) : bool :=
  match value with
  | None | Some JNull => false
  | Some _ => true
  end.

(** The CHECK and NOT NULL constraints of schema.sql; the tables it does not
    declare are unconstrained. *)
Definition check_constraints (name : string) (r : row) : bool :=
  if name =? "companies" then
    not_null (r !! "slug") && not_null (r !! "name") &&
    one_of ["discovery"; "active"; "pilot"; "deployed"] (r !! "status")
  else if name =? "contacts" then not_null (r !! "name")
  else if name =? "milestones" then
    not_null (r !! "title") &&
    one_of ["pending"; "in_progress"; "done"; "blocked"] (r !! "status")
  else if name =? "documents" then not_null (r !! "name")
  else if name =? "activity" then
    not_null (r !! "content") &&
    one_of ["note"; "milestone"; "document"; "meeting"; "call"; "email"] (r !! "type")
  else if name =? "requirements" then
    not_null (r !! "item") &&
    one_of ["needed"; "requested"; "received"] (r !! "status")
  else true.

(** The column defaults of schema.sql, the generated [id] apart. *)
Definition column_defaults (name : string) (now : string) : row :=
  if name =? "companies" then
    {[ "status" := JStr "discovery"; "created_at" := JStr now; "updated_at" := JStr now ]}
  else if name =? "contacts" then
    {[ "is_primary" := JBool false; "created_at" := JStr now ]}
  else if name =? "milestones" then
    {[ "status" := JStr "pending"; "order_index" := JNum 0;
       "created_at" := JStr now; "updated_at" := JStr now ]}
  else if name =? "documents" then {[ "uploaded_at" := JStr now ]}
  else if name =? "activity" then
    {[ "type" := JStr "note"; "author" := JStr "Chris"; "created_at" := JStr now ]}
  else if name =? "requirements" then
    {[ "status" := JStr "needed"; "updated_at" := JStr now ]}
  else ∅.

(** [(child, column, parent)]: the [ON DELETE CASCADE] references of
    schema.sql. *)
Definition schema_foreign_keys : list (string * string * string) :=
  [ ("contacts", "company_id", "companies");
    ("milestones", "company_id", "companies");
    ("documents", "company_id", "companies");
    ("activity", "company_id", "companies");
    ("requirements", "company_id", "companies") ].

(** Modelled from the spec: the declaration of the deployments and
    deployment_components tables is not part of the sources; the data model
    states that deleting a Deployment cascades to its components. *)
Definition deployment_foreign_keys : list (string * string * string) :=
  [ ("deployment_components", "deployment_id", "deployments") ].

Definition foreign_keys : list (string * string * string) :=
  (schema_foreign_keys ++ deployment_foreign_keys)%list.

(** The UNIQUE column of schema.sql. *)
Definition schema_unique_columns : list (string * string) :=
  [ ("companies", "slug") ].

(** Modelled from the spec: the declaration of the deployments table is not
    part of the sources; the data model gives a Deployment a unique slug, as
    schema.sql declares it for a Company. *)
Definition deployment_unique_columns : list (string * string) :=
  [ ("deployments", "slug") ].

Definition unique_columns : list (string * string) :=
  (schema_unique_columns ++ deployment_unique_columns)%list.

(** *** Requests *)

Definition project (columns : option (list string)) (r : row) : row :=
  match columns with
  | None => r
  | Some cs => filter (fun kv => existsb (String.eqb kv.1) cs = true) r
  end.

(** Column order of the store: NULL sorts after every value. *)
Definition json_leb (a b : json) : bool :=
  match a, b with
  | _, JNull => true
  | JNull, _ => false
  | JNum x, JNum y => Z.leb x y
  | JStr x, JStr y => String.leb x y
  | JBool x, JBool y => implb x y
  | _, _ => true
  end.

Definition column (key : string) (r : row) : json := default JNull (r !! key).

Fixpoint insert_sorted (le : row -> row -> bool) (r : row) (sorted : list row) : list row :=
  match sorted with
  | [] => [r]
  | x :: rest => if le r x then r :: sorted else x :: insert_sorted le r rest
  end.

(** [.order(key, { ascending })]. *)
Definition order (key : string) (ascending : bool) (rows : list row) : list row :=
  let le a b :=
    if ascending then json_leb (column key a) (column key b)
    else json_leb (column key b) (column key a) in
  foldr (insert_sorted le) [] rows.

Definition limit (n : option nat) (rows : list row) : list row :=
  match n with
  | Some n => take n rows
  | None => rows
  end.

(** One request to the store: answered with an error when the store is out,
    performed otherwise. *)
Definition request {A} (perform : world -> reply A * world) : async (reply A) :=
  fun w =>
    match outages w with
    | Some message :: rest => (Returned (Reply None (Some message)), set_outages rest w)
    | None :: rest => let (r, w') := perform (set_outages rest w) in (Returned r, w')
    | [] => let (r, w') := perform w in (Returned r, w')
    end.

Definition rows_of (name : string) (filters : list criterion) (w : world) : list row :=
  List.filter (selected filters) (table name (tables w)).

(** [.from(name).select(columns)] with its filters; [arrange] stands for the
    [.order(...)] and [.limit(...)] modifiers of the query. *)
Definition select (name : string) (columns : option (list string))
    (filters : list criterion) (arrange : list row -> list row)
    : async (reply (list row)) :=
  request (fun w =>
    (Reply (Some (project columns <$> arrange (rows_of name filters w))) None, w)).

(** [.single()]: exactly one row, or an error. *)
Definition single (r : reply (list row)) : reply row :=
  match error r, data r with
  | Some e, _ => Reply None (Some e)
  | None, Some [x] => Reply (Some x) None
  | None, _ => Reply None (Some "JSON object requested, multiple (or no) rows returned")
  end.

Definition select_single (name : string) (columns : option (list string))
    (filters : list criterion) : async (reply row) :=
  request (fun w => (single (Reply (Some (project columns <$> rows_of name filters w)) None), w)).

(** Row [r] of the table [after] a change is the only one with its value in
    each of the unique columns among [keys]. *)
Definition unique_in (name : string) (keys : list string) (after : list row) (r : row) : bool :=
  forallb (fun '(t, key) =>
             negb ((t =? name) && existsb (String.eqb key) keys) ||
             match r !! key with
             | None | Some JNull => true
             | Some v => (length (List.filter (fun x => matches x (Eq key v)) after) <=? 1)%nat
             end)
          unique_columns.

Definition stamp (name : string) (w : world) (i : nat) (r : row) : row :=
  <["id" := JStr (pretty (next_id w + N.of_nat i)%N)]> (r ∪ column_defaults name (now w)).

Definition insert_rows (name : string) (new : list row) (w : world)
    : reply (list row) * world :=
  let stamped := imap (stamp name w) new in
  let after := (table name (tables w) ++ stamped)%list in
  if forallb (check_constraints name) stamped &&
     forallb (fun r => unique_in name (map_to_list r).*1 after r) stamped then
    (Reply (Some stamped) None,
     set_next_id (next_id w + N.of_nat (length new))%N
       (set_tables (<[name := after]> (tables w)) w))
  else (Reply None (Some ("new row for relation " +:+ name +:+ " violates a constraint")), w).

(** [.from(name).insert(rows).select()]: all rows or none. *)
Definition insert (name : string) (new : list row) : async (reply (list row)) :=
  request (insert_rows name new).

Definition insert_single (name : string) (new : row) : async (reply row) :=
  request (fun w =>
    let (r, w') := insert_rows name [new] w in
    match error (single r) with
    | None => (single r, w')
    | Some _ => (single r, w)
    end).

Definition update_rows (name : string) (patch : row) (filters : list criterion) (w : world)
    : reply (list row) * world :=
  let changed := (fun r => patch ∪ r) <$> rows_of name filters w in
  let after := (fun r => if selected filters r then patch ∪ r else r)
                 <$> table name (tables w) in
  if forallb (check_constraints name) changed &&
     forallb (unique_in name (map_to_list patch).*1 after) changed then
    (Reply (Some changed) None, set_tables (<[name := after]> (tables w)) w)
  else (Reply None (Some ("new row for relation " +:+ name +:+ " violates a constraint")), w).

(** [.from(name).update(patch)] with its filters and [.select()]. *)
Definition update (name : string) (patch : row) (filters : list criterion)
    : async (reply (list row)) :=
  request (update_rows name patch filters).

(** The same with [.single()]: the change is rolled back unless exactly one
    row was updated. *)
Definition update_single (name : string) (patch : row) (filters : list criterion)
    : async (reply row) :=
  request (fun w =>
    let (r, w') := update_rows name patch filters w in
    match error (single r) with
    | None => (single r, w')
    | Some _ => (single r, w)
    end).

Definition refers_to (key : string) (gone : list row) (r : row) : bool :=
  existsb (fun g => matches r (Eq key (column "id" g))) gone.

(** Rows of the other tables that reference a deleted row go with it. *)
Definition cascade (name : string) (gone : list row) (db : gmap string (list row))
    : gmap string (list row) :=
  foldr (fun '(child, key, parent) db =>
           if parent =? name
           then <[child := List.filter (fun r => negb (refers_to key gone r)) (table child db)]> db
           else db)
        db foreign_keys.

(** [.from(name).delete()] with its filters. *)
Definition delete_from (name : string) (filters : list criterion) : async (reply unit) :=
  request (fun w =>
    let gone := rows_of name filters w in
    let kept := List.filter (fun r => negb (selected filters r)) (table name (tables w)) in
    (Reply (Some tt) None, set_tables (cascade name gone (<[name := kept]> (tables w))) w)).

(** ** Tool handlers *)

(** [{ k1: v1, ... }] as a handler returns it: members whose value is
    [undefined] do not reach the serialized result. *)
Definition object (members : list (string * option json)) : json :=
  JObj (omap (fun '(k, v) => pair k <$> v) members).

(** [if (error) throw error]. *)
Definition rethrow {A} (r : reply A) : async unit :=
  match error r with
  | Some e => throw e
  | None => ret tt
  end.

(** [data[0]]. *)
Definition first (d : option (list row)) : async (option json) :=
  match d with
  | Some rows => ret (of_row <$> head rows)
  | None => throw "Cannot read properties of null (reading '0')"
  end.

(** [return data] of a list request. *)
Definition listing (d : option (list row)) : json :=
  match d with
  | Some rows => JArr (of_row <$> rows)
  | None => JNull
  end.

Definition by_slug (slug : option string) : list criterion :=
  [Eq "slug" (JStr (String_of slug))].

(** [select('*, companies(name, slug)')]: the row with its company embedded. *)
Definition with_company (w : world) (r : row) : row :=
  <["companies" :=
      match rows_of "companies" [Eq "id" (column "company_id" r)] w with
      | c :: _ => of_row (project (Some ["name"; "slug"]) c)
      | [] => JNull
      end]> r.

Definition update_company_status (slug status : option string) : async json :=
  let! t := Date_now in
  let! r := update "companies"
              (with_field "status" (str status) {[ "updated_at" := JStr t ]})
              (by_slug slug) in
  rethrow r ;;
  let! company := first (data r) in
  ret (object [("success", Some (JBool true)); ("company", company)]).

Definition list_milestones (slug : option string) : async json :=
  let! c := select_single "companies" (Some ["id"]) (by_slug slug) in
  match data c with
  | None => throw ("Company not found: " +:+ String_of slug)
  | Some company =>
      let! r := select "milestones" None [Eq "company_id" (column "id" company)]
                  (order "order_index" true) in
      rethrow r ;;
      ret (listing (data r))
  end.

Definition update_milestone (milestone_id status notes : option string) : async json :=
  let! t := Date_now in
  let update0 := with_field "status" (str status) {[ "updated_at" := JStr t ]} in
  let! update1 :=
    if bool_decide (status = Some "done")
    then (let! t' := Date_now in ret (<["completed_at" := JStr t']> update0))
    else ret update0 in
  let update2 := if truthy notes then with_field "notes" (str notes) update1 else update1 in
  let! r := update "milestones" update2 [Eq "id" (JStr (String_of milestone_id))] in
  rethrow r ;;
  let! milestone := first (data r) in
  ret (object [("success", Some (JBool true)); ("milestone", milestone)]).

Definition add_milestone (slug title due_date : option string) : async json :=
  let! c := select_single "companies" (Some ["id"]) (by_slug slug) in
  match data c with
  | None => throw ("Company not found: " +:+ String_of slug)
  | Some company =>
      let! existing :=
        select "milestones" (Some ["order_index"]) [Eq "company_id" (column "id" company)]
          (fun rows => limit (Some 1%nat) (order "order_index" false rows)) in
      let order_index :=
        match data existing with
        | Some (top :: _) =>
            match column "order_index" top with
            | JNum n => n + 1
            | _ => 1
            end
        | _ => 0
        end in
      let! r := insert "milestones"
                  [with_field "title" (str title)
                     (with_field "due_date" (str due_date)
                        {[ "company_id" := column "id" company;
                           "order_index" := JNum order_index ]})] in
      rethrow r ;;
      let! milestone := first (data r) in
      ret (object [("success", Some (JBool true)); ("milestone", milestone)])
  end.

Definition add_note (slug content type : option string) : async json :=
  let type := default "note" type in
  let! c := select_single "companies" (Some ["id"]) (by_slug slug) in
  match data c with
  | None => throw ("Company not found: " +:+ String_of slug)
  | Some company =>
      let! r := insert "activity"
                  [with_field "content" (str content)
                     {[ "company_id" := column "id" company; "type" := JStr type ]}] in
      rethrow r ;;
      let! activity := first (data r) in
      ret (object [("success", Some (JBool true)); ("activity", activity)])
  end.

Definition get_recent_activity (slug : option string) (limit_arg : option nat) : async json :=
  let n := default 20%nat limit_arg in
  let! filters :=
    if truthy slug then
      let! c := select_single "companies" (Some ["id"]) (by_slug slug) in
      match data c with
      | Some company => ret [Eq "company_id" (column "id" company)]
      | None => ret []
      end
    else ret [] in
  let! r := request (fun w =>
              (Reply (Some (with_company w <$>
                              limit (Some n) (order "created_at" false
                                                (rows_of "activity" filters w)))) None, w)) in
  rethrow r ;;
  ret (listing (data r)).

Definition update_requirement (slug item status : option string) : async json :=
  let! c := select_single "companies" (Some ["id"]) (by_slug slug) in
  match data c with
  | None => throw ("Company not found: " +:+ String_of slug)
  | Some company =>
      let! t := Date_now in
      let! r := update "requirements"
                  (with_field "status" (str status) {[ "updated_at" := JStr t ]})
                  [Eq "company_id" (column "id" company);
                   ILike "item" ("%" +:+ String_of item +:+ "%")] in
      rethrow r ;;
      let! requirement := first (data r) in
      ret (object [("success", Some (JBool true)); ("requirement", requirement)])
  end.

Definition add_requirement (slug item status : option string) : async json :=
  let status := default "needed" status in
  let! c := select_single "companies" (Some ["id"]) (by_slug slug) in
  match data c with
  | None => throw ("Company not found: " +:+ String_of slug)
  | Some company =>
      let! r := insert "requirements"
                  [with_field "item" (str item)
                     {[ "company_id" := column "id" company; "status" := JStr status ]}] in
      rethrow r ;;
      let! requirement := first (data r) in
      ret (object [("success", Some (JBool true)); ("requirement", requirement)])
  end.

Definition list_documents (slug : option string) : async json :=
  let! c := select_single "companies" (Some ["id"]) (by_slug slug) in
  match data c with
  | None => throw ("Company not found: " +:+ String_of slug)
  | Some company =>
      let! r := select "documents" None [Eq "company_id" (column "id" company)]
                  (order "created_at" false) in
      rethrow r ;;
      ret (listing (data r))
  end.

Definition add_document (slug name type url notes : option string) : async json :=
  let! c := select_single "companies" (Some ["id"]) (by_slug slug) in
  match data c with
  | None => throw ("Company not found: " +:+ String_of slug)
  | Some company =>
      let! r := insert "documents"
                  [with_field "name" (str name)
                     (with_field "type" (str type)
                        (with_field "url" (str url)
                           (with_field "notes" (str notes)
                              {[ "company_id" := column "id" company ]})))] in
      rethrow r ;;
      let! document := first (data r) in
      ret (object [("success", Some (JBool true)); ("document", document)])
  end.

Definition add_contact (slug name role email phone : option string) : async json :=
  let! c := select_single "companies" (Some ["id"]) (by_slug slug) in
  match data c with
  | None => throw ("Company not found: " +:+ String_of slug)
  | Some company =>
      let! r := insert "contacts"
                  [with_field "name" (str name)
                     (with_field "role" (str role)
                        (with_field "email" (str email)
                           (with_field "phone" (str phone)
                              {[ "company_id" := column "id" company ]})))] in
      rethrow r ;;
      let! contact := first (data r) in
      ret (object [("success", Some (JBool true)); ("contact", contact)])
  end.

Definition list_contacts (slug : option string) : async json :=
  let! c := select_single "companies" (Some ["id"]) (by_slug slug) in
  match data c with
  | None => throw ("Company not found: " +:+ String_of slug)
  | Some company =>
      let! r := select "contacts" None [Eq "company_id" (column "id" company)] id in
      rethrow r ;;
      ret (listing (data r))
  end.

(** *** Portfolio summary *)

(** JavaScript numbers are IEEE 754 binary64 values. *)
Definition Number_of_nat (n : nat) : float :=
  PrimFloat.of_uint63 (Uint63.of_Z (Z.of_nat n)).

(** [Math.round(x)]: the integer nearest to [x], ties towards +∞. Its
    argument at the one call site is a finite number; the embedding gives 0
    for NaN and the infinities. *)
Definition Math_round (x : float) : Z :=
  match Prim2SF x with
  | S754_finite negative m e =>
      let v := if negative then Z.neg m else Z.pos m in
      if (0 <=? e)%Z then v * 2 ^ e else (2 * v + 2 ^ (- e)) / 2 ^ (- e + 1)
  | _ => 0
  end.

Definition is_done (m : row) : bool := json_eqb (column "status" m) (JStr "done").

(** [total ? Math.round((done / total) * 100) : 0]. *)
Definition progress_of (milestones : list row) : Z :=
  let total := length milestones in
  let done := length (List.filter is_done milestones) in
  match total with
  | O => 0
  | _ => Math_round (Number_of_nat done / Number_of_nat total * 100)%float
  end.

Definition summarize (c : row) (milestones : list row) : json :=
  let total := length milestones in
  let done := length (List.filter is_done milestones) in
  object [ ("name", c !! "name"); ("slug", c !! "slug"); ("status", c !! "status");
           ("progress", Some (JNum (progress_of milestones)));
           ("milestones", Some (JStr (pretty done +:+ "/" +:+ pretty total))) ].

(** The rows of [select('slug, name, status, milestones(status)')]: every
    company with the milestones that reference it. *)
Definition companies_with_milestones (w : world) : list (row * list row) :=
  (fun c => (c, rows_of "milestones" [Eq "company_id" (column "id" c)] w))
    <$> table "companies" (tables w).

Definition get_portfolio_summary : async json :=
  let! r := request (fun w => (Reply (Some (companies_with_milestones w)) None, w)) in
  rethrow r ;;
  match data r with
  | Some companies => ret (JArr ((fun '(c, ms) => summarize c ms) <$> companies))
  | None => throw "Cannot read properties of null (reading 'map')"
  end.

(** *** Dev tasks *)

Definition update_dev_task (task_id status assigned_to priority : option string) : async json :=
  let! t := Date_now in
  let updates0 : row := {[ "updated_at" := JStr t ]} in
  let! updates1 :=
    if truthy status then
      let with_status := with_field "status" (str status) updates0 in
      if bool_decide (status = Some "done")
      then (let! t' := Date_now in ret (<["completed_at" := JStr t']> with_status))
      else ret with_status
    else ret updates0 in
  let updates2 :=
    if truthy assigned_to then with_field "assigned_to" (str assigned_to) updates1
    else updates1 in
  let updates3 :=
    if truthy priority then with_field "priority" (str priority) updates2 else updates2 in
  let! r := update_single "dev_tasks" updates3 [Eq "id" (JStr (String_of task_id))] in
  rethrow r ;;
  ret (object [("success", Some (JBool true)); ("task", of_row <$> data r)]).

(** *** Documents *)

(** What [fetch] resolves to. *)
Record response : Type := Response { status : Z; elapsed : Z; text : string }.

Definition ok (r : response) : bool :=
  (200 <=? status r)%Z && (status r <=? 299)%Z.

(** [fetch(url)], with [{ signal }] of a controller aborted [abort_after]
    milliseconds later when one is given. *)
Definition fetch (url : string) (abort_after : option Z) : async response :=
  fun w =>
    let w' := set_fetched (fetched w ++ [url])%list w in
    match net w url with
    | Responded status elapsed body =>
        match abort_after with
        | Some t =>
            if (t <=? elapsed)%Z then (Thrown "This operation was aborted", w')
            else (Returned (Response status elapsed body), w')
        | None => (Returned (Response status elapsed body), w')
        end
    | Unreachable message => (Thrown message, w')
    end.

Definition textFormats : list string :=
  ["md"; "txt"; "json"; "csv"; "html"; "xml"; "js"; "ts"; "py"; "sql"].

(** [textFormats.includes(ext)]. *)
Definition includes (formats : list string) (ext : option string) : bool :=
  match ext with
  | Some e => existsb (String.eqb e) formats
  | None => false
  end.

(** A nullable text column inside a template literal. *)
Definition text_of (value : option string) : string :=
  match value with
  | Some s => s
  | None => "null"
  end.

Definition get_document_content (document_id : option string) : async json :=
  let! r := request (fun w =>
              (single (Reply (Some (with_company w <$>
                                      rows_of "documents"
                                        [Eq "id" (JStr (String_of document_id))] w)) None), w)) in
  rethrow r ;;
  match data r with
  | None => throw "Document not found"
  | Some doc =>
      let ext := toLowerCase <$> field_string "file_type" doc in
      if negb (includes textFormats ext) then
        ret (object
               [ ("document", Some (of_row doc)); ("content", Some JNull);
                 ("message",
                  Some (JStr ("Cannot read content of ." +:+ String_of ext +:+
                              " files directly. Use the URL to view: " +:+
                              text_of (field_string "file_url" doc)))) ])
      else
        try_catch
          (let! response := fetch (text_of (field_string "file_url" doc)) None in
           (if ok response then ret tt
            else throw ("Failed to fetch: " +:+ pretty (status response))) ;;
           let content := text response in
           let truncated := (50000 <? String.length content)%nat in
           let content :=
             if truncated
             then substring0 50000 content +:+
                  String newline (String newline "... [truncated]")
             else content in
           ret (object [ ("document", Some (of_row doc)); ("content", Some (JStr content));
                         ("truncated", Some (JBool truncated)) ]))
          (fun message =>
             ret (object [ ("document", Some (of_row doc)); ("content", Some JNull);
                           ("error", Some (JStr message)) ]))
  end.

(** *** Deployments *)

(** [members[key] = value] on an object under construction: a known key
    keeps its place, a new one goes last. *)
Fixpoint assign (key : string) (value : json) (members : list (string * json))
    : list (string * json) :=
  match members with
  | [] => [(key, value)]
  | (k, v) :: rest =>
      if k =? key then (key, value) :: rest else (k, v) :: assign key value rest
  end.

(** [{ ...members, ...more }]. *)
Definition spread (more : json) (members : list (string * json)) : list (string * json) :=
  match more with
  | JObj extra => foldl (fun acc '(k, v) => assign k v acc) members extra
  | _ => members
  end.

(** [String(value)] of a column used as a property key. *)
Definition key_of (value : json) : string :=
  match value with
  | JStr s => s
  | JNull => "null"
  | JBool true => "true"
  | JBool false => "false"
  | JNum n => pretty n
  | JArr _ | JObj _ => "[object Object]"
  end.

Definition get_deployment (slug deployment_id : option string) : async json :=
  let! filters :=
    if truthy deployment_id then ret [Eq "id" (JStr (String_of deployment_id))]
    else if truthy slug then ret (by_slug slug)
    else throw "Must provide slug or deployment_id" in
  let! d := select_single "deployments" None filters in
  rethrow d ;;
  match data d with
  | None => throw "Deployment not found"
  | Some deployment =>
      let! c := select "deployment_components" None
                  [Eq "deployment_id" (column "id" deployment)] id in
      rethrow c ;;
      ret (JObj (foldl (fun result comp =>
                          assign (key_of (column "component_type" comp))
                            (JObj (spread (column "config" comp)
                                     [ ("status", column "status" comp);
                                       ("url", column "url" comp);
                                       ("last_checked", column "last_checked" comp);
                                       ("error_message", column "error_message" comp) ]))
                            result)
                       (map_to_list deployment) (default [] (data c))))
  end.

Definition is_alnum (c : ascii) : bool :=
  let n := nat_of_ascii c in
  ((97 <=? n) && (n <=? 122) || (48 <=? n) && (n <=? 57))%nat.

(** [s.replace(/[^a-z0-9]+/g, '-')]; [in_run] tells that the character
    before belongs to a run already replaced. *)
Fixpoint replace_runs (in_run : bool) (s : string) : string :=
  match s with
  | EmptyString => EmptyString
  | String c rest =>
      if is_alnum c then String c (replace_runs false rest)
      else if in_run then replace_runs true rest
      else String "-" (replace_runs true rest)
  end.

(** [s.replace(/-$/, '')]. *)
Fixpoint drop_last_hyphen (s : string) : string :=
  match s with
  | EmptyString => EmptyString
  | String c EmptyString => if Ascii.eqb c "-" then EmptyString else s
  | String c rest => String c (drop_last_hyphen rest)
  end.

(** [s.replace(/^-|-$/g, '')]: a hyphen at the start, then one at the end of
    what follows it. *)
Definition trim_hyphens (s : string) : string :=
  match s with
  | String c rest => if Ascii.eqb c "-" then drop_last_hyphen rest else drop_last_hyphen s
  | EmptyString => EmptyString
  end.

Definition derive_slug (name : string) : string :=
  trim_hyphens (replace_runs false (toLowerCase name)).

Definition component_status (configured : option string) : json :=
  JStr (if truthy configured then "unknown" else "not_configured").

Definition add_deployment
    (name description github_url frontend_url mcp_server_url
     database_type database_provider : option string) : async json :=
  match name with
  | None => throw "Cannot read properties of undefined (reading 'toLowerCase')"
  | Some name =>
      let slug := derive_slug name in
      let! existing := select_single "deployments" (Some ["id"]) [Eq "slug" (JStr slug)] in
      match data existing with
      | Some _ =>
          throw ("Deployment with slug " +:+ String quote slug +:+
                 String quote " already exists")
      | None =>
          let! d := insert_single "deployments"
                      (with_field "description" (str description)
                         {[ "name" := JStr name; "slug" := JStr slug;
                            "status" := JStr "active" ]}) in
          rethrow d ;;
          match data d with
          | None => throw "Cannot read properties of null (reading 'id')"
          | Some deployment =>
              let components : list row :=
                [ with_field "url" (str github_url)
                    {[ "deployment_id" := column "id" deployment;
                       "component_type" := JStr "github";
                       "status" := component_status github_url;
                       "config" :=
                         if truthy github_url
                         then JObj [ ("repo_url", JStr (String_of github_url));
                                     ("branch", JStr "main") ]
                         else JObj [] ]};
                  with_field "url" (str frontend_url)
                    {[ "deployment_id" := column "id" deployment;
                       "component_type" := JStr "frontend";
                       "status" := component_status frontend_url;
                       "config" := JObj [] ]};
                  with_field "url" (str mcp_server_url)
                    {[ "deployment_id" := column "id" deployment;
                       "component_type" := JStr "mcp_server";
                       "status" := component_status mcp_server_url;
                       "config" := JObj [] ]};
                  {[ "deployment_id" := column "id" deployment;
                     "component_type" := JStr "database";
                     "status" := component_status database_type;
                     "url" := JNull;
                     "config" :=
                       JObj [ ("type", if truthy database_type
                                       then JStr (String_of database_type) else JNull);
                              ("provider", if truthy database_provider
                                           then JStr (String_of database_provider) else JNull) ] ]} ] in
              let! c := insert "deployment_components" components in
              rethrow c ;;
              get_deployment None (field_string "id" deployment)
          end
      end
  end.

Definition update_deployment (deployment_id name description status : option string)
    : async json :=
  let! t := Date_now in
  let updates0 : row := {[ "updated_at" := JStr t ]} in
  let updates1 := if truthy name then with_field "name" (str name) updates0 else updates0 in
  let updates2 := with_field "description" (str description) updates1 in
  let updates3 := if truthy status then with_field "status" (str status) updates2 else updates2 in
  let! r := update_single "deployments" updates3 [Eq "id" (JStr (String_of deployment_id))] in
  rethrow r ;;
  ret (object [("success", Some (JBool true)); ("deployment", of_row <$> data r)]).

Definition update_deployment_component
    (deployment_id component status : option string) (url : option json)
    (config : option (list (string * json))) : async json :=
  let! t := Date_now in
  let updates0 : row := {[ "updated_at" := JStr t ]} in
  let updates1 := if truthy status then with_field "status" (str status) updates0 else updates0 in
  let updates2 := with_field "url" url updates1 in
  let target := [ Eq "deployment_id" (JStr (String_of deployment_id));
                  Eq "component_type" (JStr (String_of component)) ] in
  let! updates3 :=
    match config with
    | Some config =>
        let! existing := select_single "deployment_components" (Some ["config"]) target in
        let before :=
          match data existing with
          | Some e => match column "config" e with JObj ms => ms | _ => [] end
          | None => []
          end in
        ret (<["config" := JObj (spread (JObj config) before)]> updates2)
    | None => ret updates2
    end in
  let! r := update_single "deployment_components" updates3 target in
  rethrow r ;;
  ret (object [("success", Some (JBool true)); ("component", of_row <$> data r)]).

Definition delete_deployment (deployment_id : option string) : async json :=
  let! r := delete_from "deployments" [Eq "id" (JStr (String_of deployment_id))] in
  rethrow r ;;
  ret (object [("success", Some (JBool true)); ("deleted", str deployment_id)]).

(** *** Deployment health checker *)

(** [url.replace(/\/$/, '')]. *)
Fixpoint strip_trailing_slash (s : string) : string :=
  match s with
  | EmptyString => EmptyString
  | String c EmptyString => if Ascii.eqb c "/" then EmptyString else s
  | String c rest => String c (strip_trailing_slash rest)
  end.

(** The body of the loop over the components: one component checked, its
    entry written into [results]. *)
Definition check_component (comp : row) (results : list (string * json))
    : async (list (string * json)) :=
  let component_type := key_of (column "component_type" comp) in
  match field_string "url" comp with
  | None | Some EmptyString =>
      ret (assign component_type
             (JObj [("status", JStr "not_configured"); ("checked", JBool false)]) results)
  | Some url =>
      try_catch
        (let checkUrl :=
           if json_eqb (column "component_type" comp) (JStr "mcp_server")
           then strip_trailing_slash url +:+ "/health" else url in
         let! response := fetch checkUrl (Some 10000) in
         let latency := elapsed response in
         let newStatus :=
           if ok response then (if (5000 <? latency)%Z then "degraded" else "healthy")
           else "degraded" in
         let errorMessage :=
           if ok response then JNull else JStr ("HTTP " +:+ pretty (status response)) in
         let! checked_at := Date_now in
         let! updated_at := Date_now in
         update "deployment_components"
           {[ "status" := JStr newStatus; "last_checked" := JStr checked_at;
              "error_message" := errorMessage; "updated_at" := JStr updated_at ]}
           [Eq "id" (column "id" comp)] ;;
         ret (assign component_type
                (JObj [ ("status", JStr newStatus); ("latency", JNum latency);
                        ("checked", JBool true) ]) results))
        (fun message =>
           let! checked_at := Date_now in
           let! updated_at := Date_now in
           update "deployment_components"
             {[ "status" := JStr "down"; "last_checked" := JStr checked_at;
                "error_message" := JStr message; "updated_at" := JStr updated_at ]}
             [Eq "id" (column "id" comp)] ;;
           ret (assign component_type
                  (JObj [ ("status", JStr "down"); ("error", JStr message);
                          ("checked", JBool true) ]) results))
  end.

(** [for (const comp of components) { ... }]. *)
Fixpoint check_components (components : list row) (results : list (string * json))
    : async (list (string * json)) :=
  match components with
  | [] => ret results
  | comp :: rest =>
      let! results' := check_component comp results in
      check_components rest results'
  end.

Definition check_deployment_health (deployment_id : option string) : async json :=
  let! r := select "deployment_components" None
              [Eq "deployment_id" (JStr (String_of deployment_id))] id in
  rethrow r ;;
  let! results := check_components (default [] (data r)) [] in
  ret (object [ ("deployment_id", str deployment_id); ("health_check", Some (JObj results)) ]).

(** ** The handler table *)

(** A handler is called with the input object of a tool call; [None] is a
    call without an argument. *)
Definition handler : Type := option (list (string * json)) -> async json.

(** The parameter pattern [({ key, ... })] of a handler. *)
Definition destructure (key : string) (input : option (list (string * json)))
    : async (list (string * json)) :=
  match input with
  | Some members => ret members
  | None =>
      throw ("Cannot destructure property '" +:+ key +:+
             "' of 'undefined' as it is undefined.")
  end.

Definition member (key : string) (members : list (string * json)) : option json :=
  snd <$> List.find (fun kv => String.eqb (fst kv) key) members.

(** An argument read at the type its input schema declares. *)
Definition arg (key : string) (members : list (string * json)) : option string :=
  match member key members with
  | Some (JStr s) => Some s
  | _ => None
  end.

Definition arg_nat (key : string) (members : list (string * json)) : option nat :=
  match member key members with
  | Some (JNum n) => Some (Z.to_nat n)
  | _ => None
  end.

Definition arg_object (key : string) (members : list (string * json))
    : option (list (string * json)) :=
  match member key members with
  | Some (JObj ms) => Some ms
  | _ => None
  end.

(** The entries of [const handlers = { ... }] embedded above, under their
    names. *)
Definition handlers : gmap string handler :=
  list_to_map
    [ ("update_company_status", fun input =>
         let! a := destructure "slug" input in
         update_company_status (arg "slug" a) (arg "status" a));
      ("list_milestones", fun input =>
         let! a := destructure "slug" input in list_milestones (arg "slug" a));
      ("update_milestone", fun input =>
         let! a := destructure "milestone_id" input in
         update_milestone (arg "milestone_id" a) (arg "status" a) (arg "notes" a));
      ("add_milestone", fun input =>
         let! a := destructure "slug" input in
         add_milestone (arg "slug" a) (arg "title" a) (arg "due_date" a));
      ("add_note", fun input =>
         let! a := destructure "slug" input in
         add_note (arg "slug" a) (arg "content" a) (arg "type" a));
      ("get_recent_activity", fun input =>
         let! a := destructure "slug" input in
         get_recent_activity (arg "slug" a) (arg_nat "limit" a));
      ("update_requirement", fun input =>
         let! a := destructure "slug" input in
         update_requirement (arg "slug" a) (arg "item" a) (arg "status" a));
      ("add_requirement", fun input =>
         let! a := destructure "slug" input in
         add_requirement (arg "slug" a) (arg "item" a) (arg "status" a));
      ("list_documents", fun input =>
         let! a := destructure "slug" input in list_documents (arg "slug" a));
      ("add_document", fun input =>
         let! a := destructure "slug" input in
         add_document (arg "slug" a) (arg "name" a) (arg "type" a) (arg "url" a)
           (arg "notes" a));
      ("add_contact", fun input =>
         let! a := destructure "slug" input in
         add_contact (arg "slug" a) (arg "name" a) (arg "role" a) (arg "email" a)
           (arg "phone" a));
      ("list_contacts", fun input =>
         let! a := destructure "slug" input in list_contacts (arg "slug" a));
      ("get_portfolio_summary", fun _ => get_portfolio_summary);
      ("update_dev_task", fun input =>
         let! a := destructure "task_id" input in
         update_dev_task (arg "task_id" a) (arg "status" a) (arg "assigned_to" a)
           (arg "priority" a));
      ("get_document_content", fun input =>
         let! a := destructure "document_id" input in
         get_document_content (arg "document_id" a));
      ("get_deployment", fun input =>
         let! a := destructure "slug" input in
         get_deployment (arg "slug" a) (arg "deployment_id" a));
      ("add_deployment", fun input =>
         let! a := destructure "name" input in
         add_deployment (arg "name" a) (arg "description" a) (arg "github_url" a)
           (arg "frontend_url" a) (arg "mcp_server_url" a) (arg "database_type" a)
           (arg "database_provider" a));
      ("update_deployment", fun input =>
         let! a := destructure "deployment_id" input in
         update_deployment (arg "deployment_id" a) (arg "name" a) (arg "description" a)
           (arg "status" a));
      ("update_deployment_component", fun input =>
         let! a := destructure "deployment_id" input in
         update_deployment_component (arg "deployment_id" a) (arg "component" a)
           (arg "status" a) (member "url" a) (arg_object "config" a));
      ("delete_deployment", fun input =>
         let! a := destructure "deployment_id" input in
         delete_deployment (arg "deployment_id" a));
      ("check_deployment_health", fun input =>
         let! a := destructure "deployment_id" input in
         check_deployment_health (arg "deployment_id" a)) ].

(** ** Dispatch by name *)

(** What [table[name]] evaluates to. *)
Inductive property : Type :=
  | Method (call : option (list (string * json)) -> async (option json))
  | NotAFunction
  | Undefined.

(** [ToPropertyKey(input)] of an argument that is a plain object or absent. *)
Definition to_property_key (input : option (list (string * json))) : completion string :=
  match input with
  | None => Returned "undefined"
  | Some members =>
      match member "toString" members with
      | Some _ => Thrown "Cannot convert object to primitive value"
      | None => Returned "[object Object]"
      end
  end.

(** The members every object literal inherits from [Object.prototype], as
    they behave when called on the table. A table of functions serializes
    as the empty object. *)
Definition Object_prototype (table : gmap string handler) (name : string) : property :=
  if name =? "constructor" then
    Method (fun input => ret (Some (JObj (default [] input))))
  else if name =? "toString" then
    Method (fun _ => ret (Some (JStr "[object Object]")))
  else if name =? "toLocaleString" then
    Method (fun _ =>
      match table !! "toString" with
      | Some h => let! v := h None in ret (Some v)
      | None => ret (Some (JStr "[object Object]"))
      end)
  else if name =? "valueOf" then
    Method (fun _ => ret (Some (JObj [])))
  else if (name =? "hasOwnProperty") || (name =? "propertyIsEnumerable") then
    Method (fun input =>
      match to_property_key input with
      | Returned key => ret (Some (JBool (bool_decide (is_Some (table !! key)))))
      | Thrown e => throw e
      end)
  else if name =? "isPrototypeOf" then
    Method (fun _ => ret (Some (JBool false)))
  else if (name =? "__lookupGetter__") || (name =? "__lookupSetter__") then
    Method (fun input =>
      match to_property_key input with
      | Returned _ => ret None
      | Thrown e => throw e
      end)
  else if name =? "__defineGetter__" then
    Method (fun _ => throw "Object.prototype.__defineGetter__: Expecting function")
  else if name =? "__defineSetter__" then
    Method (fun _ => throw "Object.prototype.__defineSetter__: Expecting function")
  else if name =? "__proto__" then NotAFunction
  else Undefined.

(** [table[name]]: an own entry, else an inherited member. *)
Definition lookup_property (table : gmap string handler) (name : string) : property :=
  match table !! name with
  | Some h => Method (fun input => let! v := h input in ret (Some v))
  | None => Object_prototype table name
  end.

(** [await table[name](input)]. *)
Definition call (table : gmap string handler) (name : string)
    (input : option (list (string * json))) : async (option json) :=
  match lookup_property table name with
  | Method f => f input
  | NotAFunction | Undefined => throw "handlers[block.name] is not a function"
  end.

(** ** The agent loop of the /chat endpoint *)

(** [await anthropic.messages.create({ ..., messages })]. *)
Definition messages_create (messages : list turn) : async model_response :=
  fun w => (model w messages, set_requested (requested w ++ [messages])%list w).

(** The body of [for (const block of response.content)]: a tool call is
    answered and its entry pushed, any other block is passed over. *)
Definition run_tool (table : gmap string handler) (b : block)
    (toolResults : list tool_result) : async (list tool_result) :=
  match b with
  | tool_use id name input =>
      try_catch
        (let! result := call table name (Some input) in
         ret (toolResults ++ [ToolResult id (JSON_stringify result) false])%list)
        (fun message =>
           ret (toolResults ++
                [ToolResult id (JSON_stringify (Some (JObj [("error", JStr message)]))) true])%list)
  | _ => ret toolResults
  end.

Fixpoint run_tools (table : gmap string handler) (content : list block)
    (toolResults : list tool_result) : async (list tool_result) :=
  match content with
  | [] => ret toolResults
  | b :: rest =>
      let! toolResults' := run_tool table b toolResults in
      run_tools table rest toolResults'
  end.

(** [while (response.stop_reason === 'tool_use') { ... }], run for at most
    [fuel] iterations; [None] when the loop has not ended by then. *)
Fixpoint tool_use_loop (fuel : nat) (table : gmap string handler)
    (messages : list turn) (response : model_response)
    : async (option (list turn * model_response)) :=
  if stop_reason response =? "tool_use" then
    match fuel with
    | O => ret None
    | S fuel' =>
        let messages := (messages ++ [assistant (blocks response)])%list in
        let! toolResults := run_tools table (blocks response) [] in
        let messages := (messages ++ [user_results toolResults])%list in
        let! response' := messages_create messages in
        tool_use_loop fuel' table messages response'
    end
  else ret (Some (messages, response)).

(** What the endpoint answers. *)
Inductive chat_reply : Type :=
  | bad_request (error : string)
  | answer (response : string) (conversation_history : list turn)
  | server_error (error : string).

(** [response.content.find(b => b.type === 'text')?.text || 'No response']. *)
Definition final_text (content : list block) : string :=
  match List.find (fun b => match b with text_block _ => true | _ => false end) content with
  | Some (text_block t) => if t =? "" then "No response" else t
  | _ => "No response"
  end.

Definition chat (fuel : nat) (table : gmap string handler) (message : option string)
    (conversation_history : list turn) (w : world) : option chat_reply * world :=
  if negb (truthy message) then (Some (bad_request "Message required"), w)
  else
    let messages := (conversation_history ++ [user_text (String_of message)])%list in
    match (let! response := messages_create messages in
           tool_use_loop fuel table messages response) w with
    | (Returned (Some (messages, response)), w') =>
        (Some (answer (final_text (blocks response))
                 (messages ++ [assistant (blocks response)])%list), w')
    | (Returned None, w') => (None, w')
    | (Thrown e, w') => (Some (server_error e), w')
    end.

(** ** Handlers outside the table above *)

(** *** Dev tasks *)

Definition add_dev_task (title description assigned_to priority : option string)
    (steps : option (list json)) (due_date : option string) : async json :=
  let! r := insert_single "dev_tasks"
              (with_field "title" (str title)
                 (with_field "description" (str description)
                    (with_field "assigned_to" (str assigned_to)
                       (with_field "due_date" (str due_date)
                          {[ "priority" := JStr (if truthy priority then String_of priority
                                                 else "medium");
                             "steps" := JArr (default [] steps) ]})))) in
  rethrow r ;;
  ret (object [("success", Some (JBool true)); ("task", of_row <$> data r)]).

Definition delete_dev_task (task_id : option string) : async json :=
  let! r := delete_from "dev_tasks" [Eq "id" (JStr (String_of task_id))] in
  rethrow r ;;
  ret (object [("success", Some (JBool true)); ("deleted", str task_id)]).

(** *** Companies *)

Definition list_companies : async json :=
  let! r := select "companies"
              (Some ["id"; "slug"; "name"; "description"; "status"; "tools"; "created_at"])
              [] id in
  rethrow r ;;
  ret (listing (data r)).

(** *** Listing deployments *)

Definition list_deployments (status : option string) : async json :=
  let filters := if truthy status then [Eq "status" (JStr (String_of status))] else [] in
  let! r := select "deployments" None filters (order "created_at" false) in
  rethrow r ;;
  ret (listing (data r)).

(** *** Stored documents *)

(** [name.split('.').pop()]: what follows the last dot, the whole name when
    it has none; [cur] is the segment being read. *)
Fixpoint last_segment (cur : string) (name : string) : string :=
  match name with
  | EmptyString => cur
  | String c rest =>
      if Ascii.eqb c "." then last_segment EmptyString rest
      else last_segment (cur +:+ String c EmptyString) rest
  end.

(** [filename.split('.').pop().toLowerCase()]. *)
Definition file_extension (filename : string) : string :=
  toLowerCase (last_segment EmptyString filename).

Definition list_all_documents (slug category : option string) : async json :=
  let! scope :=
    if truthy slug then
      if bool_decide (slug = Some "platform") || bool_decide (slug = Some "dev")
      then ret [IsNull "company_id"]
      else
        let! c := select_single "companies" (Some ["id"]) (by_slug slug) in
        match data c with
        | Some company => ret [Eq "company_id" (column "id" company)]
        | None => ret []
        end
    else ret [] in
  let filters :=
    (scope ++ if truthy category then [Eq "category" (JStr (String_of category))] else [])%list in
  let! r := request (fun w =>
              (Reply (Some (with_company w <$>
                              order "created_at" false (rows_of "documents" filters w))) None,
               w)) in
  rethrow r ;;
  ret (listing (data r)).

Section Storage.

(** The file storage behind the query client: [upload(path, buffer,
    { contentType, upsert: true })] answers with its error, if any, and
    [getPublicUrl(path)] with the address of the file. The buffer is kept
    as the base64 text it decodes. *)
Variable storage_upload : string -> string -> option string -> async (option string).
Variable getPublicUrl : string -> string.

Definition upload_document
    (slug filename content_base64 content_type category description : option string)
    : async json :=
  let! company_id :=
    if negb (bool_decide (slug = Some "platform")) && negb (bool_decide (slug = Some "dev"))
    then
      let! c := select_single "companies" (Some ["id"]) (by_slug slug) in
      match data c with
      | None => throw ("Company not found: " +:+ String_of slug)
      | Some company => ret (company !! "id")
      end
    else ret (Some JNull) in
  match content_base64 with
  | None =>
      throw ("The first argument must be of type string or an instance of Buffer, " +:+
             "ArrayBuffer, or Array or an Array-like Object. Received undefined")
  | Some content =>
      let bucket_path := String_of slug +:+ "/" +:+ String_of filename in
      let! uploadError := storage_upload bucket_path content content_type in
      match uploadError with
      | Some e => throw e
      | None =>
          let publicUrl := getPublicUrl bucket_path in
          match filename with
          | None => throw "Cannot read properties of undefined (reading 'split')"
          | Some filename =>
              let category := if truthy category then String_of category else "general" in
              let! doc := insert_single "documents"
                            (with_field "company_id" company_id
                               (with_field "notes" (str description)
                                  {[ "name" := JStr filename;
                                     "type" := JStr category;
                                     "url" := JStr publicUrl;
                                     "file_url" := JStr publicUrl;
                                     "bucket_path" := JStr bucket_path;
                                     "file_type" := JStr (file_extension filename);
                                     "category" := JStr category ]})) in
              rethrow doc ;;
              ret (object [ ("success", Some (JBool true));
                            ("document", of_row <$> data doc);
                            ("url", Some (JStr publicUrl)) ])
          end
      end
  end.

End Storage.

(** *** Calendar events *)

(** [\s] on ASCII characters. *)
Definition is_space (c : ascii) : bool :=
  let n := nat_of_ascii c in
  ((n =? 32) || (9 <=? n) && (n <=? 13))%nat.

(** [[a-z0-9-]] under the [i] flag, on ASCII characters. *)
Definition is_slug_char (c : ascii) : bool :=
  is_alnum (lower_char c) || Ascii.eqb c "-".

(** The longest prefix of slug characters, and what follows it. *)
Fixpoint slug_run (s : string) : string * string :=
  match s with
  | String c rest =>
      if is_slug_char c then let (run, after) := slug_run rest in (String c run, after)
      else (EmptyString, s)
  | EmptyString => (EmptyString, EmptyString)
  end.

Fixpoint skip_spaces (s : string) : string :=
  match s with
  | String c rest => if is_space c then skip_spaces rest else s
  | EmptyString => EmptyString
  end.

(** [summary.match(/^\[([a-z0-9-]+)\]\s*/i)]: the group captured and what
    follows the match. *)
Definition title_match (summary : string) : option (string * string) :=
  match summary with
  | String "[" rest =>
      match slug_run rest with
      | (String c run, String "]" after) => Some (String c run, skip_spaces after)
      | _ => None
      end
  | _ => None
  end.

(** An item of the calendar's event list, with the members the handler
    reads. *)
Record calendar_event : Type := CalendarEvent {
  event_id : option string;
  summary : option string;
  description : option string;
  start_dateTime : option string;
  start_date : option string;
  end_dateTime : option string;
  end_date : option string;
  location : option string;
  hangoutLink : option string;
  entry_point_uri : option string;
  attendees : option (list (option string))
}.

(** [a || b] on strings that may be absent. *)
Definition or_else (a b : option string) : option string :=
  if truthy a then a else b.

Definition titleMatch (event : calendar_event) : option (string * string) :=
  match summary event with
  | Some s => title_match s
  | None => None
  end.

Definition companySlug (event : calendar_event) : option string :=
  match titleMatch event with
  | Some (group, _) => Some (toLowerCase group)
  | None => None
  end.

Definition cleanTitle (event : calendar_event) : option string :=
  match titleMatch event with
  | Some (_, rest) => Some rest
  | None => summary event
  end.

Definition listed_event (event : calendar_event) : json :=
  object
    [ ("id", str (event_id event));
      ("title", str (or_else (summary event) (Some "Untitled")));
      ("cleanTitle", str (cleanTitle event));
      ("description", str (description event));
      ("start", str (or_else (start_dateTime event) (start_date event)));
      ("end", str (or_else (end_dateTime event) (end_date event)));
      ("location", str (location event));
      ("meetLink", str (or_else (hangoutLink event) (entry_point_uri event)));
      ("attendees",
       Some (JArr ((fun email => default JNull (str email)) <$> default [] (attendees event))));
      ("companySlug", Some (default JNull (str (companySlug event)))) ].

(** What list_calendar_events returns once the calendar has answered with
    [items]. *)
Definition calendar_events (items : list calendar_event) (company_slug : option string)
    : list json :=
  let events :=
    if truthy company_slug then
      List.filter (fun event =>
                     bool_decide (companySlug event = Some (toLowerCase (String_of company_slug))))
                  items
    else items in
  listed_event <$> events.

(** ** The tool route *)

Inductive payload : Type :=
  | error_payload (error : string)
  | result_payload (result : option json).

Record http_reply : Type := HttpReply { code : Z; body : payload }.

(** [POST /tools/:name] with the request body [params]. *)
Definition tools_route (table : gmap string handler) (name : string)
    (params : option (list (string * json))) (w : world) : http_reply * world :=
  match lookup_property table name with
  | Undefined => (HttpReply 404 (error_payload ("Tool not found: " +:+ name)), w)
  | NotAFunction => (HttpReply 500 (error_payload "handlers[name] is not a function"), w)
  | Method f =>
      match f params w with
      | (Returned result, w') => (HttpReply 200 (result_payload result), w')
      | (Thrown message, w') => (HttpReply 500 (error_payload message), w')
      end
  end.

(** * Properties *)

(** ** Statements in the words of the specification *)

(** The handler resolves the company first: with no company of that slug it
    fails with the not-found error naming the slug, having sent the store
    the lookup and nothing else. *)
Definition resolves_company_first (h : option string -> async json) : Prop :=
  forall (slug : option string) (w : world),
    rows_of "companies" (by_slug slug) w = [] ->
    h slug w = (Thrown ("Company not found: " +:+ String_of slug),
                set_outages (tail (outages w)) w).

(** The store performs the next request sent to it. *)
Definition answers (w : world) : Prop :=
  match outages w with
  | Some _ :: _ => False
  | _ => True
  end.

Definition completed_at (r : row) : option json := r !! "completed_at".

(** The object both update handlers build before they send it, given the
    clock reading. *)
Definition milestone_update (status notes : option string) (t : string) : row :=
  let update0 := with_field "status" (str status) {[ "updated_at" := JStr t ]} in
  let update1 :=
    if bool_decide (status = Some "done") then <["completed_at" := JStr t]> update0
    else update0 in
  if truthy notes then with_field "notes" (str notes) update1 else update1.

Definition task_update (status assigned_to priority : option string) (t : string) : row :=
  let updates0 : row := {[ "updated_at" := JStr t ]} in
  let updates1 :=
    if truthy status then
      let with_status := with_field "status" (str status) updates0 in
      if bool_decide (status = Some "done") then <["completed_at" := JStr t]> with_status
      else with_status
    else updates0 in
  let updates2 :=
    if truthy assigned_to then with_field "assigned_to" (str assigned_to) updates1
    else updates1 in
  if truthy priority then with_field "priority" (str priority) updates2 else updates2.

(** A small portfolio to run the handlers on. *)
Definition dtiq : row :=
  {[ "id" := JStr "1"; "slug" := JStr "dtiq"; "name" := JStr "DTIQ";
     "status" := JStr "active" ]}.
Definition kickoff : row :=
  {[ "id" := JStr "2"; "company_id" := JStr "1"; "title" := JStr "Kickoff call";
     "status" := JStr "in_progress"; "order_index" := JNum 0 ]}.
Definition handbook : row :=
  {[ "id" := JStr "3"; "title" := JStr "Draft the agent handbook";
     "status" := JStr "todo"; "priority" := JStr "high" ]}.
Definition intro_call : row :=
  {[ "id" := JStr "4"; "company_id" := JStr "1"; "type" := JStr "call";
     "content" := JStr "Intro call" ]}.

Definition sample_world : world :=
  World {[ "companies" := [dtiq]; "milestones" := [kickoff];
           "dev_tasks" := [handbook]; "activity" := [intro_call] ]}
        5 [] "2026-01-15T09:00:00.000Z"
        (fun _ => Unreachable "fetch failed") []
        (fun _ => Thrown "Connection error.") [].

(** [round(100 × done / total)] in exact arithmetic, a tie going up, and 0
    when there is no milestone. *)
Definition rounded_percentage (done total : nat) : Z :=
  match total with
  | O => 0
  | _ => (2 * (100 * Z.of_nat done) + Z.of_nat total) / (2 * Z.of_nat total)
  end.

(** The milestones of a company: [done] of them done, [pending] not. *)
Definition milestones_of (done pending : nat) : list row :=
  (replicate done ({[ "status" := JStr "done" ]} : row) ++
   replicate pending ({[ "status" := JStr "pending" ]} : row))%list.

(** The classification of a probe in the words of the specification: the
    status and the error message to record. *)
Definition classify (p : probe) : string * json :=
  match p with
  | Unreachable message => ("down", JStr message)
  | Responded status elapsed _ =>
      if (10000 <=? elapsed)%Z then ("down", JStr "This operation was aborted")
      else if negb ((200 <=? status)%Z && (status <=? 299)%Z)
      then ("degraded", JStr ("HTTP " +:+ pretty status))
      else if (5000 <? elapsed)%Z then ("degraded", JNull)
      else ("healthy", JNull)
  end.

(** The URL probed for a component. *)
Definition probe_url (comp : row) (url : string) : string :=
  if json_eqb (column "component_type" comp) (JStr "mcp_server")
  then strip_trailing_slash url +:+ "/health"
  else url.

(** The entry reported for a probed component. *)
Definition report (p : probe) : json :=
  match p, classify p with
  | Responded _ elapsed _, (("degraded" | "healthy") as s, _) =>
      JObj [("status", JStr s); ("latency", JNum elapsed); ("checked", JBool true)]
  | _, (s, message) =>
      JObj [("status", JStr s); ("error", message); ("checked", JBool true)]
  end.

(** What is written to the component's row after a probe. *)
Definition health_record (p : probe) (t : string) : row :=
  {[ "status" := JStr (fst (classify p)); "last_checked" := JStr t;
     "error_message" := snd (classify p); "updated_at" := JStr t ]}.

(** The entry of the result map for one component, given what the network
    answers. *)
Definition entry (network : string -> probe) (comp : row) : json :=
  match field_string "url" comp with
  | None | Some EmptyString =>
      JObj [("status", JStr "not_configured"); ("checked", JBool false)]
  | Some url => report (network (probe_url comp url))
  end.

Definition component_key (comp : row) : string := key_of (column "component_type" comp).

(** A deployment with its four components, and a network in which the
    front end answers, the MCP server answers 503 and nothing else is
    reachable. *)
Definition tracker : row :=
  {[ "id" := JStr "10"; "name" := JStr "Tracker"; "slug" := JStr "tracker";
     "status" := JStr "active" ]}.
Definition tracker_github : row :=
  {[ "id" := JStr "11"; "deployment_id" := JStr "10"; "component_type" := JStr "github";
     "status" := JStr "unknown"; "url" := JStr "https://github.example.com/tracker" ]}.
Definition tracker_frontend : row :=
  {[ "id" := JStr "12"; "deployment_id" := JStr "10"; "component_type" := JStr "frontend";
     "status" := JStr "unknown"; "url" := JStr "https://app.example.com" ]}.
Definition tracker_mcp : row :=
  {[ "id" := JStr "13"; "deployment_id" := JStr "10"; "component_type" := JStr "mcp_server";
     "status" := JStr "unknown"; "url" := JStr "https://mcp.example.com/" ]}.
Definition tracker_database : row :=
  {[ "id" := JStr "14"; "deployment_id" := JStr "10"; "component_type" := JStr "database";
     "status" := JStr "not_configured"; "url" := JNull ]}.

Definition sample_network (url : string) : probe :=
  if url =? "https://app.example.com" then Responded 200 200 "<html></html>"
  else if url =? "https://mcp.example.com/health" then Responded 503 120 ""
  else Unreachable "fetch failed".

Definition deployed_world : world :=
  World {[ "deployments" := [tracker];
           "deployment_components" :=
             [tracker_github; tracker_frontend; tracker_mcp; tracker_database] ]}
        15 [] "2026-01-15T09:00:00.000Z" sample_network []
        (fun _ => Thrown "Connection error.") [].

(** Text cut at 50,000 characters, the marker appended. *)
Definition truncate (content : string) : string :=
  if (50000 <? String.length content)%nat
  then substring0 50000 content +:+ String newline (String newline "... [truncated]")
  else content.

(** What the document content handler answers, once it holds the document,
    in the words of the specification. *)
Definition document_answer (doc : row) (network : string -> probe) : json :=
  let ext := toLowerCase <$> field_string "file_type" doc in
  let url := text_of (field_string "file_url" doc) in
  if includes textFormats ext then
    match network url with
    | Responded status _ body =>
        if (200 <=? status)%Z && (status <=? 299)%Z then
          object [ ("document", Some (of_row doc)); ("content", Some (JStr (truncate body)));
                   ("truncated", Some (JBool (50000 <? String.length body)%nat)) ]
        else
          object [ ("document", Some (of_row doc)); ("content", Some JNull);
                   ("error", Some (JStr ("Failed to fetch: " +:+ pretty status))) ]
    | Unreachable message =>
        object [ ("document", Some (of_row doc)); ("content", Some JNull);
                 ("error", Some (JStr message)) ]
    end
  else
    object [ ("document", Some (of_row doc)); ("content", Some JNull);
             ("message",
              Some (JStr ("Cannot read content of ." +:+ String_of ext +:+
                          " files directly. Use the URL to view: " +:+ url))) ].

(** Two stored documents and a network that serves the first. *)
Definition runbook : row :=
  {[ "id" := JStr "20"; "company_id" := JStr "1"; "name" := JStr "runbook.md";
     "file_type" := JStr "md"; "file_url" := JStr "https://files.example.com/dtiq/runbook.md" ]}.
Definition installer : row :=
  {[ "id" := JStr "21"; "company_id" := JStr "1"; "name" := JStr "setup.exe";
     "file_type" := JStr "exe"; "file_url" := JStr "https://files.example.com/dtiq/setup.exe" ]}.

Fixpoint filler (n : nat) : string :=
  match n with
  | O => EmptyString
  | S n' => String "x" (filler n')
  end.

Definition library_world : world :=
  World {[ "companies" := [dtiq]; "documents" := [runbook; installer] ]}
        22 [] "2026-01-15T09:00:00.000Z"
        (fun url => if url =? "https://files.example.com/dtiq/runbook.md"
                    then Responded 200 35 (filler 50001)
                    else Unreachable "fetch failed")
        [] (fun _ => Thrown "Connection error.") [].

(** The maximal runs of characters of [a-z0-9] in a string, in order;
    [cur] is the run being read. *)
Fixpoint runs (cur : string) (s : string) : list string :=
  match s with
  | EmptyString => match cur with EmptyString => [] | _ => [cur] end
  | String c rest =>
      if is_alnum c then runs (cur +:+ String c EmptyString) rest
      else match cur with
           | EmptyString => runs EmptyString rest
           | _ => cur :: runs EmptyString rest
           end
  end.

(** The slug in the words of the specification: the name in lower case,
    every run of other characters standing for one hyphen between the
    alphanumeric runs, none at either end. *)
Definition slug_of_words (name : string) : string :=
  String.concat "-" (runs EmptyString (toLowerCase name)).

Fixpoint all_alnum (s : string) : bool :=
  match s with
  | EmptyString => true
  | String c rest => is_alnum c && all_alnum rest
  end.

(** How the tool calls of one turn are answered: [answered table content w
    results w'] walks the content blocks in order from the world [w]; every
    tool call is dispatched once, in the world the calls before it left, and
    contributes one entry, the serialized result or, when the call throws,
    the serialized [{ error: message }] flagged as an error; other blocks
    contribute nothing. *)
Inductive answered (table : gmap string handler)
    : list block -> world -> list tool_result -> world -> Prop :=
  | answered_nil w : answered table [] w [] w
  | answered_text t content w results w' :
      answered table content w results w' ->
      answered table (text_block t :: content) w results w'
  | answered_other t content w results w' :
      answered table content w results w' ->
      answered table (other_block t :: content) w results w'
  | answered_result id name input content w v w1 results w' :
      call table name (Some input) w = (Returned v, w1) ->
      answered table content w1 results w' ->
      answered table (tool_use id name input :: content) w
        (ToolResult id (JSON_stringify v) false :: results) w'
  | answered_error id name input content w message w1 results w' :
      call table name (Some input) w = (Thrown message, w1) ->
      answered table content w1 results w' ->
      answered table (tool_use id name input :: content) w
        (ToolResult id (JSON_stringify (Some (JObj [("error", JStr message)]))) true
           :: results) w'.

(** The identifiers of the tool calls of a response, in order. *)
Definition tool_calls (content : list block) : list string :=
  omap (fun b => match b with tool_use id _ _ => Some id | _ => None end) content.

(** The names under which an object literal inherits a function. *)
Definition inherited_methods : list string :=
  [ "constructor"; "toString"; "toLocaleString"; "valueOf"; "hasOwnProperty";
    "propertyIsEnumerable"; "isPrototypeOf"; "__lookupGetter__"; "__lookupSetter__";
    "__defineGetter__"; "__defineSetter__" ].

(** A model that asks for the milestones of a known company and for a note
    on an unknown one in its first turn, and answers once it has the
    results. *)
Definition two_calls : model_response :=
  ModelResponse "tool_use"
    [ text_block "Let me check.";
      tool_use "toolu_01" "list_milestones" [("slug", JStr "dtiq")];
      tool_use "toolu_02" "add_note" [("slug", JStr "acme"); ("content", JStr "Called")] ].

Definition closing : model_response :=
  ModelResponse "end_turn" [text_block "DTIQ has one milestone; acme is unknown."].

Definition scripted_model (messages : list turn) : completion model_response :=
  match last messages with
  | Some (user_results _) => Returned closing
  | _ => Returned two_calls
  end.

Definition chat_world : world :=
  World (tables sample_world) 5 [] "2026-01-15T09:00:00.000Z"
        (fun _ => Unreachable "fetch failed") [] scripted_model [].

(** The four component types of a deployment, in the order add_deployment
    creates them. *)
Definition four_types : list json :=
  [JStr "github"; JStr "frontend"; JStr "mcp_server"; JStr "database"].

(** The components that reference a deployment. *)
Definition components_of (d : row) (w : world) : list row :=
  rows_of "deployment_components" [Eq "deployment_id" (column "id" d)] w.

(** Every deployment has its four components, one of each type, or none. *)
Definition four_or_none (w : world) : Prop :=
  forall d, d ∈ table "deployments" (tables w) ->
    column "component_type" <$> components_of d w = four_types \/ components_of d w = [].

(** The identifiers in use were issued by the store. *)
Definition ids_issued (w : world) : Prop :=
  (forall d, d ∈ table "deployments" (tables w) ->
     exists k, d !! "id" = Some (JStr (pretty k)) /\ (k < next_id w)%N) /\
  (forall c, c ∈ table "deployment_components" (tables w) ->
     exists k, c !! "deployment_id" = Some (JStr (pretty k)) /\ (k < next_id w)%N).

Definition consistent (w : world) : Prop := ids_issued w /\ four_or_none w.

(** A step that leaves the deployments and their components alone and takes
    back no identifier the store has issued. *)
Definition frame (w w' : world) : Prop :=
  table "deployments" (tables w') = table "deployments" (tables w) /\
  table "deployment_components" (tables w') = table "deployment_components" (tables w) /\
  (next_id w <= next_id w')%N.

(** The worlds the server can be in. It starts without deployments. A
    handler of the table may be called with any input of the types its
    schema declares. And anything may happen that leaves the deployments and
    their components alone: a change of the environment (outages, network,
    clock, model), the store issuing identifiers, and a call of any handler
    outside the table, since of the entries of [const handlers] only
    add_deployment, update_deployment, update_deployment_component,
    delete_deployment and check_deployment_health write one of the two
    tables. *)
Inductive reachable : world -> Prop :=
  | reachable_start w :
      table "deployments" (tables w) = [] ->
      table "deployment_components" (tables w) = [] ->
      reachable w
  | reachable_call w name h input :
      reachable w -> handlers !! name = Some h -> reachable (snd (h input w))
  | reachable_elsewhere w w' :
      reachable w -> frame w w' -> reachable w'.

Definition framed {A} (m : async A) : Prop := forall w, frame w (snd (m w)).

Definition preserves {A} (m : async A) : Prop :=
  forall w, consistent w -> consistent (snd (m w)).

(** A fresh server, first with a reliable store, then with a store that
    fails the third request it receives. *)
Definition fresh_world : world :=
  World ∅ 0 [] "2026-01-15T09:00:00.000Z" (fun _ => Unreachable "fetch failed") []
        (fun _ => Thrown "Connection error.") [].

Definition failing_world : world :=
  set_outages [None; None; Some "upstream request timeout"] fresh_world.

Definition add_tracker : async json :=
  add_deployment (Some "Tracker") None (Some "https://github.example.com/tracker") None
    None None None.

(** ** Notions of the further properties *)

(** Turns exchanged with the tools: a content of the model that asks for
    tools, followed by one batch of results that answers its tool calls one
    by one and in order, any number of times. *)
Inductive exchanges : list turn -> Prop :=
  | exchanges_nil : exchanges []
  | exchanges_cons said results rest :
      tool_use_id <$> results = tool_calls said ->
      exchanges rest ->
      exchanges (assistant said :: user_results results :: rest).

Definition is_hex (c : ascii) : bool :=
  let n := nat_of_ascii c in
  ((48 <=? n) && (n <=? 57) || (97 <=? n) && (n <=? 102) || (65 <=? n) && (n <=? 70))%nat.

(** The text is a UUID in its canonical form, 8, 4, 4, 4 and 12 hexadecimal
    digits between hyphens: a value the store accepts where schema.sql types
    a column UUID. *)
Definition is_uuid (s : string) : bool :=
  let cs := list_ascii_of_string s in
  (length cs =? 36)%nat &&
  forallb (fun b : bool => b)
    (imap (fun i c => if existsb (Nat.eqb i) [8; 13; 18; 23]%nat
                      then Ascii.eqb c "-" else is_hex c) cs).

(** What get_deployment answers for the deployment [d] in the world [w]:
    the row, with one member per component under its type. *)
Definition deployment_view (d : row) (w : world) : json :=
  JObj (foldl (fun result comp =>
                 assign (key_of (column "component_type" comp))
                   (JObj (spread (column "config" comp)
                            [ ("status", column "status" comp);
                              ("url", column "url" comp);
                              ("last_checked", column "last_checked" comp);
                              ("error_message", column "error_message" comp) ]))
                   result)
              (map_to_list d)
              (rows_of "deployment_components" [Eq "deployment_id" (column "id" d)] w)).

(** The requirement's item contains the text, letter case apart. *)
Definition mentions (text : string) (r : row) : Prop :=
  exists s a b, r !! "item" = Some (JStr s) /\ toLowerCase s = a +:+ toLowerCase text +:+ b.

(** No character of the text has a meaning of its own in the pattern of a
    [LIKE] filter: the wildcards [%] and [_], the asterisk the query client
    reads as [%], and the escape character. *)
Definition plain (text : string) : bool :=
  forallb (fun c => negb (Ascii.eqb c "%" || Ascii.eqb c "_" ||
                          Ascii.eqb c "*" || Ascii.eqb c "\"))
          (list_ascii_of_string text).

(** The text has no dot. *)
Fixpoint dotless (s : string) : bool :=
  match s with
  | EmptyString => true
  | String c rest => negb (Ascii.eqb c ".") && dotless rest
  end.

(** Every character of the text is an ASCII character. *)
Definition ascii_text (s : string) : bool :=
  forallb (fun c => (nat_of_ascii c <? 128)%nat) (list_ascii_of_string s).

(** The configuration a component holds, an empty one when it holds none. *)
Definition stored_config (c : row) : list (string * json) :=
  match column "config" c with
  | JObj members => members
  | _ => []
  end.

(** The index add_milestone gives the next milestone of a company: one
    above the greatest index of its milestones, 0 when it has none. *)
Definition next_order_index (c : row) (w : world) : Z :=
  match head (order "order_index" false
                (rows_of "milestones" [Eq "company_id" (column "id" c)] w)) with
  | Some top =>
      match column "order_index" top with
      | JNum n => n + 1
      | _ => 1
      end
  | None => 0
  end.

(** The handler creates its row under the company it resolved: when it
    returns, one company has the slug and the last row of the table
    references it. *)
Definition creates_under_company (name : string) (h : option string -> async json) : Prop :=
  forall (slug : option string) (w : world) (v : json),
    fst (h slug w) = Returned v ->
    exists c created,
      rows_of "companies" (by_slug slug) w = [c] /\
      table name (tables (snd (h slug w))) = (table name (tables w) ++ [created])%list /\
      created !! "company_id" = Some (column "id" c).

(** A requirement of the sample company, an event of its calendar and a
    file storage that accepts every upload. *)
Definition call_files : row :=
  {[ "id" := JStr "30"; "company_id" := JStr "1"; "item" := JStr "Sample call files";
     "status" := JStr "needed" ]}.

Definition needs_world : world :=
  World {[ "companies" := [dtiq]; "requirements" := [call_files] ]}
        31 [] "2026-01-15T09:00:00.000Z" (fun _ => Unreachable "fetch failed") []
        (fun _ => Thrown "Connection error.") [].

Definition weekly_sync : calendar_event :=
  CalendarEvent (Some "evt_1") (Some "[DTIQ] Weekly sync") None
                (Some "2026-01-20T15:00:00Z") None (Some "2026-01-20T15:30:00Z") None
                None None None None.

Definition accepting_storage (path content : string) (content_type : option string)
    : async (option string) := ret None.

Definition public_url (path : string) : string := "https://files.example.com/" +:+ path.

(** The library with every file out of reach. *)
Definition offline_library : world :=
  World (tables library_world) 22 [] "2026-01-15T09:00:00.000Z"
        (fun _ => Unreachable "fetch failed") [] (fun _ => Thrown "Connection error.") [].

(** ** The store *)

Lemma set_outages_tail_nil (w : world) :
  outages w = [] -> set_outages (tail (outages w)) w = w.
Proof. destruct w; simpl; intros ->; reflexivity. Qed.

Lemma rows_of_set_outages name filters o w :
  rows_of name filters (set_outages o w) = rows_of name filters w.
Proof. reflexivity. Qed.

(** A lookup with [.single()] that matches no row answers without data,
    whether the store is out or not. *)
Lemma select_single_none name columns filters w :
  rows_of name filters w = [] ->
  exists e, select_single name columns filters w
            = (Returned (Reply None (Some e)), set_outages (tail (outages w)) w).
Proof.
  intros Hnone. unfold select_single, request.
  destruct (outages w) as [|[m|] rest] eqn:Ho.
  - rewrite Hnone. eexists. simpl single. f_equal.
    symmetry. rewrite <- Ho. apply set_outages_tail_nil, Ho.
  - eexists. reflexivity.
  - rewrite rows_of_set_outages, Hnone. eexists. reflexivity.
Qed.

Ltac company_missing H :=
  let e := fresh "e" in
  let He := fresh "He" in
  intros slug w H;
  match goal with
  | |- context [select_single ?n ?c ?f] =>
      destruct (select_single_none n c f w H) as [e He]
  end;
  unfold bind; rewrite He; reflexivity.

Lemma list_milestones_resolves : resolves_company_first list_milestones.
Proof. unfold list_milestones. company_missing H. Qed.

Lemma add_milestone_resolves title due_date :
  resolves_company_first (fun slug => add_milestone slug title due_date).
Proof. unfold add_milestone. company_missing H. Qed.

Lemma add_note_resolves content type :
  resolves_company_first (fun slug => add_note slug content type).
Proof. unfold add_note. company_missing H. Qed.

Lemma update_requirement_resolves item status :
  resolves_company_first (fun slug => update_requirement slug item status).
Proof. unfold update_requirement. company_missing H. Qed.

Lemma add_requirement_resolves item status :
  resolves_company_first (fun slug => add_requirement slug item status).
Proof. unfold add_requirement. company_missing H. Qed.

Lemma list_documents_resolves : resolves_company_first list_documents.
Proof. unfold list_documents. company_missing H. Qed.

Lemma add_document_resolves name type url notes :
  resolves_company_first (fun slug => add_document slug name type url notes).
Proof. unfold add_document. company_missing H. Qed.

Lemma add_contact_resolves name role email phone :
  resolves_company_first (fun slug => add_contact slug name role email phone).
Proof. unfold add_contact. company_missing H. Qed.

Lemma list_contacts_resolves : resolves_company_first list_contacts.
Proof. unfold list_contacts. company_missing H. Qed.

(** What one update request does: nothing, with an error (an outage or a
    violated constraint), or the patch laid over every selected row. *)
Lemma update_cases name patch filters w :
  exists r w1, update name patch filters w = (Returned r, w1) /\
    now w1 = now w /\ next_id w1 = next_id w /\
    ((exists e, r = Reply None (Some e) /\ tables w1 = tables w) \/
     (r = Reply (Some ((fun x => patch ∪ x) <$> rows_of name filters w)) None /\
      forallb (check_constraints name) ((fun x => patch ∪ x) <$> rows_of name filters w) = true /\
      tables w1 = <[name := (fun x => if selected filters x then patch ∪ x else x)
                              <$> table name (tables w)]> (tables w))).
Proof.
  unfold update, request, update_rows.
  destruct (outages w) as [|[m|] rest]; simpl.
  - destruct (forallb _ _) eqn:Hc; simpl.
    + destruct (forallb (unique_in _ _ _) _); simpl;
        do 2 eexists; split; try reflexivity; repeat split; eauto.
    + do 2 eexists; split; try reflexivity; repeat split; eauto.
  - do 2 eexists; split; try reflexivity; repeat split; eauto.
  - unfold rows_of; simpl. destruct (forallb _ _) eqn:Hc; simpl.
    + destruct (forallb (unique_in _ _ _) _); simpl;
        do 2 eexists; split; try reflexivity; repeat split; eauto.
    + do 2 eexists; split; try reflexivity; repeat split; eauto.
Qed.

Lemma single_cases (r : reply (list row)) :
  (exists e, single r = Reply None (Some e)) \/
  (exists x, single r = Reply (Some x) None /\ data r = Some [x] /\ error r = None).
Proof.
  unfold single. destruct (error r) as [e|]; [left; eauto|].
  destruct (data r) as [[|x [|y rows]]|]; eauto.
Qed.

(** The same for an update that asks for a single row. *)
Lemma update_single_cases name patch filters w :
  exists r w1, update_single name patch filters w = (Returned r, w1) /\
    now w1 = now w /\ next_id w1 = next_id w /\
    ((exists e, r = Reply None (Some e) /\ tables w1 = tables w) \/
     (exists x, r = Reply (Some (patch ∪ x)) None /\ rows_of name filters w = [x] /\
      tables w1 = <[name := (fun x => if selected filters x then patch ∪ x else x)
                              <$> table name (tables w)]> (tables w))).
Proof.
  assert (Hgen : forall w0, tables w0 = tables w -> now w0 = now w ->
            next_id w0 = next_id w ->
            exists r w1,
              (let (r, w') := update_rows name patch filters w0 in
               match error (single r) with
               | None => (single r, w')
               | Some _ => (single r, w0)
               end) = (r, w1) /\
              now w1 = now w /\ next_id w1 = next_id w /\
              ((exists e, r = Reply None (Some e) /\ tables w1 = tables w) \/
               (exists x, r = Reply (Some (patch ∪ x)) None /\ rows_of name filters w = [x] /\
                tables w1 = <[name := (fun x => if selected filters x then patch ∪ x else x)
                                        <$> table name (tables w)]> (tables w)))).
  { intros w0 Ht Hn Hi. unfold update_rows, rows_of. rewrite Ht.
    destruct (forallb (check_constraints name) _ && _) eqn:Hc.
    - match goal with |- context [single ?r] => destruct (single_cases r) as [[e He]|[x [He [Hd _]]]] end.
      + rewrite He. simpl. do 2 eexists. split; [reflexivity|]. repeat split; eauto.
      + rewrite He. simpl. simpl in Hd.
        destruct (List.filter (selected filters) (table name (tables w))) as [|x0 [|y l]] eqn:Hf;
          simpl in Hd; try discriminate.
        injection Hd as <-. do 2 eexists. split; [reflexivity|].
        simpl. repeat split; eauto.
    - simpl. do 2 eexists. split; [reflexivity|]. repeat split; eauto. }
  unfold update_single, request.
  destruct (outages w) as [|[m|] rest].
  - destruct (Hgen w) as (r & w1 & He & H); try reflexivity.
    destruct (update_rows name patch filters w) as [r0 w0'].
    rewrite He. eauto.
  - do 2 eexists. split; [reflexivity|]. repeat split; eauto.
  - destruct (Hgen (set_outages rest w)) as (r & w1 & He & H); try reflexivity.
    destruct (update_rows name patch filters (set_outages rest w)) as [r0 w0'].
    rewrite He. eauto.
Qed.

Lemma table_insert_eq name rows (db : gmap string (list row)) :
  table name (<[name := rows]> db) = rows.
Proof. unfold table. by rewrite lookup_insert_eq. Qed.

Lemma table_insert_ne name other rows (db : gmap string (list row)) :
  other <> name -> table name (<[other := rows]> db) = table name db.
Proof. intros. unfold table. by rewrite lookup_insert_ne. Qed.

Lemma json_eqb_str a b : json_eqb (JStr a) (JStr b) = String.eqb a b.
Proof. reflexivity. Qed.

(** A patch without the filtered column leaves the selection as it was. *)
Lemma matches_patched patch key value (r : row) :
  patch !! key = None -> matches (patch ∪ r) (Eq key value) = matches r (Eq key value).
Proof. intros H. unfold matches. by rewrite lookup_union_r. Qed.

(** ** Completion timestamps *)

Lemma update_milestone_unfold milestone_id status notes w :
  update_milestone milestone_id status notes w =
  (let! r := update "milestones" (milestone_update status notes (now w))
               [Eq "id" (JStr (String_of milestone_id))] in
   rethrow r ;;
   let! milestone := first (data r) in
   ret (object [("success", Some (JBool true)); ("milestone", milestone)])) w.
Proof.
  unfold update_milestone, milestone_update, bind, Date_now.
  destruct (bool_decide (status = Some "done")); reflexivity.
Qed.

Lemma update_dev_task_unfold task_id status assigned_to priority w :
  update_dev_task task_id status assigned_to priority w =
  (let! r := update_single "dev_tasks" (task_update status assigned_to priority (now w))
               [Eq "id" (JStr (String_of task_id))] in
   rethrow r ;;
   ret (object [("success", Some (JBool true)); ("task", of_row <$> data r)])) w.
Proof.
  unfold update_dev_task, task_update, bind, Date_now.
  destruct (truthy status); [destruct (bool_decide (status = Some "done"))|]; reflexivity.
Qed.

Ltac patch_cases :=
  unfold milestone_update, task_update, with_field, str, truthy;
  repeat match goal with
         | x : option string |- _ => destruct x as [?|]
         end;
  repeat case_bool_decide;
  repeat match goal with
         | |- context [String.eqb ?s ""] => is_var s; destruct (String.eqb s "")
         end;
  try congruence.

Lemma milestone_update_id status notes t : milestone_update status notes t !! "id" = None.
Proof. patch_cases; vm_compute; reflexivity. Qed.

Lemma milestone_update_title status notes t : milestone_update status notes t !! "title" = None.
Proof. patch_cases; vm_compute; reflexivity. Qed.

Lemma milestone_update_done notes t :
  milestone_update (Some "done") notes t !! "completed_at" = Some (JStr t) /\
  milestone_update (Some "done") notes t !! "status" = Some (JStr "done").
Proof. patch_cases; vm_compute; split; reflexivity. Qed.

Lemma milestone_update_other status notes t :
  status <> Some "done" -> milestone_update status notes t !! "completed_at" = None.
Proof. intros H. patch_cases; vm_compute; reflexivity. Qed.

Lemma task_update_id status assigned_to priority t :
  task_update status assigned_to priority t !! "id" = None.
Proof. patch_cases; vm_compute; reflexivity. Qed.

Lemma task_update_done assigned_to priority t :
  task_update (Some "done") assigned_to priority t !! "completed_at" = Some (JStr t).
Proof. patch_cases; vm_compute; reflexivity. Qed.

Lemma task_update_other status assigned_to priority t :
  status <> Some "done" -> task_update status assigned_to priority t !! "completed_at" = None.
Proof. intros H. patch_cases; vm_compute; reflexivity. Qed.

Lemma update_succeeds name patch filters w :
  answers w ->
  forallb (check_constraints name) ((fun x => patch ∪ x) <$> rows_of name filters w) = true ->
  (forall keys after r, unique_in name keys after r = true) ->
  exists w1, update name patch filters w
             = (Returned (Reply (Some ((fun x => patch ∪ x) <$> rows_of name filters w)) None), w1).
Proof.
  unfold answers, update, request, update_rows. intros Ha Hc Hu.
  destruct (outages w) as [|[m|] rest]; [|contradiction|]; simpl.
  - rewrite Hc. rewrite (proj2 (forallb_forall _ _)) by (intros; apply Hu). simpl. eauto.
  - unfold rows_of in *. simpl. rewrite Hc.
    rewrite (proj2 (forallb_forall _ _)) by (intros; apply Hu). simpl. eauto.
Qed.

Lemma update_single_succeeds name patch filters x w :
  answers w ->
  rows_of name filters w = [x] ->
  check_constraints name (patch ∪ x) = true ->
  (forall keys after r, unique_in name keys after r = true) ->
  exists w1, update_single name patch filters w = (Returned (Reply (Some (patch ∪ x)) None), w1).
Proof.
  unfold answers, update_single, request, update_rows. intros Ha Hx Hc Hu.
  destruct (outages w) as [|[m|] rest]; [|contradiction|]; simpl.
  - rewrite Hx. simpl. rewrite Hc, Hu. simpl. eauto.
  - unfold rows_of in *. simpl. rewrite Hx. simpl. rewrite Hc, Hu. simpl. eauto.
Qed.

Lemma lookup_patched (patch r : row) key :
  (patch ∪ r) !! key = match patch !! key with Some v => Some v | None => r !! key end.
Proof.
  destruct (patch !! key) eqn:H.
  - by apply lookup_union_Some_l.
  - by rewrite lookup_union_r.
Qed.

(** The table after an update, column by column. *)
Lemma updated_column (patch : row) filters key (rows : list row) :
  patch !! key = None ->
  (fun r => r !! key) <$> ((fun x => if selected filters x then patch ∪ x else x) <$> rows)
  = (fun r => r !! key) <$> rows.
Proof.
  intros H. rewrite <- list_fmap_compose. apply list_fmap_ext. intros i r _. simpl.
  destruct (selected filters r); [|done]. by rewrite lookup_patched, H.
Qed.

Lemma updated_not_cleared (patch : row) filters (rows : list row) i r :
  (forall v, patch !! "completed_at" = Some v -> not_null (Some v) = true) ->
  rows !! i = Some r -> not_null (completed_at r) = true ->
  exists r', ((fun x => if selected filters x then patch ∪ x else x) <$> rows) !! i = Some r' /\
             not_null (completed_at r') = true.
Proof.
  intros Hp Hr Hn. rewrite list_lookup_fmap, Hr. simpl. eexists. split; [reflexivity|].
  destruct (selected filters r); [|done]. unfold completed_at. rewrite lookup_patched.
  destruct (patch !! "completed_at") eqn:E; [by apply Hp | done].
Qed.

Lemma updated_selected (patch : row) filters key value (rows : list row) r :
  patch !! key = None ->
  r ∈ List.filter (selected [Eq key value])
        ((fun x => if selected filters x then patch ∪ x else x) <$> rows) ->
  filters = [Eq key value] ->
  exists x, r = patch ∪ x.
Proof.
  intros Hp Hin ->. apply list_elem_of_In, filter_In in Hin as [Hin Hsel].
  apply list_elem_of_In, list_elem_of_fmap in Hin as (x & -> & _).
  destruct (selected [Eq key value] x) eqn:Hx; [eauto|].
  rewrite Hx in Hsel. discriminate.
Qed.

Lemma unique_in_milestones keys after r : unique_in "milestones" keys after r = true.
Proof. reflexivity. Qed.

Lemma unique_in_dev_tasks keys after r : unique_in "dev_tasks" keys after r = true.
Proof. reflexivity. Qed.

Section UpdateMilestone.
Variables (w : world) (milestone_id status notes : option string).

Let by_id := [Eq "id" (JStr (String_of milestone_id))].
Let after := update_milestone milestone_id status notes w.

Lemma update_milestone_done v r :
  status = Some "done" -> fst after = Returned v ->
  r ∈ rows_of "milestones" by_id (snd after) ->
  completed_at r = Some (JStr (now w)).
Proof.
  subst after by_id. intros -> Hv Hr. rewrite update_milestone_unfold in Hv, Hr.
  unfold bind in Hv, Hr.
  destruct (update_cases "milestones" (milestone_update (Some "done") notes (now w))
              [Eq "id" (JStr (String_of milestone_id))] w)
    as (r0 & w1 & He & _ & _ & [(e & -> & Ht) | (-> & _ & Ht)]);
    rewrite He in Hv, Hr; [discriminate|].
  cbn in Hr. unfold rows_of in Hr. rewrite Ht, table_insert_eq in Hr.
  eapply updated_selected in Hr as [x ->];
    [|apply milestone_update_id|reflexivity].
  unfold completed_at. rewrite lookup_patched.
  by rewrite (proj1 (milestone_update_done notes (now w))).
Qed.

Lemma update_milestone_returns :
  status = Some "done" -> answers w ->
  Forall (fun r => check_constraints "milestones" r = true) (rows_of "milestones" by_id w) ->
  exists v, fst after = Returned v.
Proof.
  subst after by_id. intros -> Ha Hvalid. rewrite update_milestone_unfold. unfold bind.
  destruct (update_succeeds "milestones" (milestone_update (Some "done") notes (now w))
              [Eq "id" (JStr (String_of milestone_id))] w Ha) as [w1 He].
  - apply forallb_forall. intros r' Hin.
    apply list_elem_of_In, list_elem_of_fmap in Hin as (x & -> & Hx).
    rewrite Forall_forall in Hvalid. specialize (Hvalid x Hx).
    unfold check_constraints in *. cbn [String.eqb Ascii.eqb Bool.eqb] in *.
    rewrite !lookup_patched, milestone_update_title.
    rewrite (proj2 (milestone_update_done notes (now w))).
    apply andb_prop in Hvalid as [-> _]. reflexivity.
  - apply unique_in_milestones.
  - rewrite He. cbn. eauto.
Qed.

Lemma update_milestone_other :
  status <> Some "done" ->
  completed_at <$> table "milestones" (tables (snd after))
  = completed_at <$> table "milestones" (tables w).
Proof.
  subst after by_id. intros Hs. rewrite update_milestone_unfold. unfold bind.
  destruct (update_cases "milestones" (milestone_update status notes (now w))
              [Eq "id" (JStr (String_of milestone_id))] w)
    as (r0 & w1 & He & _ & _ & [(e & -> & Ht) | (-> & _ & Ht)]);
    rewrite He; cbn; rewrite Ht; [done|].
  rewrite table_insert_eq. apply updated_column. by apply milestone_update_other.
Qed.

Lemma update_milestone_keeps i r :
  table "milestones" (tables w) !! i = Some r -> not_null (completed_at r) = true ->
  exists r', table "milestones" (tables (snd after)) !! i = Some r' /\
             not_null (completed_at r') = true.
Proof.
  subst after by_id. intros Hr Hn. rewrite update_milestone_unfold. unfold bind.
  destruct (update_cases "milestones" (milestone_update status notes (now w))
              [Eq "id" (JStr (String_of milestone_id))] w)
    as (r0 & w1 & He & _ & _ & [(e & -> & Ht) | (-> & _ & Ht)]);
    rewrite He; cbn; rewrite Ht; [eauto|].
  rewrite table_insert_eq. eapply updated_not_cleared; [|done..].
  intros v Hv. destruct (decide (status = Some "done")) as [->|Hs].
  - rewrite (proj1 (milestone_update_done notes (now w))) in Hv. by injection Hv as <-.
  - by rewrite milestone_update_other in Hv.
Qed.
End UpdateMilestone.

Section UpdateDevTask.
Variables (w : world) (task_id status assigned_to priority : option string).

Let by_id := [Eq "id" (JStr (String_of task_id))].
Let after := update_dev_task task_id status assigned_to priority w.

Lemma update_dev_task_done v r :
  status = Some "done" -> fst after = Returned v ->
  r ∈ rows_of "dev_tasks" by_id (snd after) ->
  completed_at r = Some (JStr (now w)).
Proof.
  subst after by_id. intros -> Hv Hr. rewrite update_dev_task_unfold in Hv, Hr.
  unfold bind in Hv, Hr.
  destruct (update_single_cases "dev_tasks"
              (task_update (Some "done") assigned_to priority (now w))
              [Eq "id" (JStr (String_of task_id))] w)
    as (r0 & w1 & He & _ & _ & [(e & -> & Ht) | (x0 & -> & _ & Ht)]);
    rewrite He in Hv, Hr; [discriminate|].
  cbn in Hr. unfold rows_of in Hr. rewrite Ht, table_insert_eq in Hr.
  eapply updated_selected in Hr as [x ->];
    [|apply task_update_id|reflexivity].
  unfold completed_at. rewrite lookup_patched.
  by rewrite task_update_done.
Qed.

Lemma update_dev_task_returns task :
  answers w -> rows_of "dev_tasks" by_id w = [task] ->
  exists v, fst after = Returned v.
Proof.
  subst after by_id. intros Ha Hone. rewrite update_dev_task_unfold. unfold bind.
  destruct (update_single_succeeds "dev_tasks"
              (task_update status assigned_to priority (now w))
              [Eq "id" (JStr (String_of task_id))] task w Ha Hone) as [w1 He].
  - reflexivity.
  - apply unique_in_dev_tasks.
  - rewrite He. cbn. eauto.
Qed.

Lemma update_dev_task_other :
  status <> Some "done" ->
  completed_at <$> table "dev_tasks" (tables (snd after))
  = completed_at <$> table "dev_tasks" (tables w).
Proof.
  subst after by_id. intros Hs. rewrite update_dev_task_unfold. unfold bind.
  destruct (update_single_cases "dev_tasks"
              (task_update status assigned_to priority (now w))
              [Eq "id" (JStr (String_of task_id))] w)
    as (r0 & w1 & He & _ & _ & [(e & -> & Ht) | (x0 & -> & _ & Ht)]);
    rewrite He; cbn; rewrite Ht; [done|].
  rewrite table_insert_eq. apply updated_column. by apply task_update_other.
Qed.

Lemma update_dev_task_keeps i r :
  table "dev_tasks" (tables w) !! i = Some r -> not_null (completed_at r) = true ->
  exists r', table "dev_tasks" (tables (snd after)) !! i = Some r' /\
             not_null (completed_at r') = true.
Proof.
  subst after by_id. intros Hr Hn. rewrite update_dev_task_unfold. unfold bind.
  destruct (update_single_cases "dev_tasks"
              (task_update status assigned_to priority (now w))
              [Eq "id" (JStr (String_of task_id))] w)
    as (r0 & w1 & He & _ & _ & [(e & -> & Ht) | (x0 & -> & _ & Ht)]);
    rewrite He; cbn; rewrite Ht; [eauto|].
  rewrite table_insert_eq. eapply updated_not_cleared; [|done..].
  intros v Hv. destruct (decide (status = Some "done")) as [->|Hs].
  - rewrite task_update_done in Hv. by injection Hv as <-.
  - by rewrite task_update_other in Hv.
Qed.
End UpdateDevTask.

Lemma Forall_of_forallb (f : row -> bool) (l : list row) :
  forallb f l = true -> Forall (fun r => f r = true) l.
Proof.
  intros H. apply Forall_forall. intros r Hr.
  apply list_elem_of_In in Hr. exact (proj1 (forallb_forall f l) H r Hr).
Qed.

Lemma hd_of_singleton (d : row) (l : list row) : length l = 1%nat -> hd d l ∈ l.
Proof. destruct l as [|x [|y l]]; try discriminate. intros _. simpl. constructor. Qed.

(** C8. For every update through update_milestone and through update_dev_task:
    setting the status to 'done' sets completed_at to the current timestamp,
    a non-null value, on the rows of that id whenever the call returns, and
    the call does return when the store performs the request on rows that
    satisfy the schema (one task row for update_dev_task, which asks for a
    single row); setting any other status leaves the completed_at column of
    the table as it was; and in every case a row whose completed_at was set
    keeps a set completed_at. *)
Theorem completed_at_append_only
    (w : world) (id status notes assigned_to priority : option string) :
  let by_id := [Eq "id" (JStr (String_of id))] in
  let milestone := update_milestone id status notes w in
  let task := update_dev_task id status assigned_to priority w in
  (status = Some "done" ->
     (forall v r, fst milestone = Returned v ->
        r ∈ rows_of "milestones" by_id (snd milestone) ->
        completed_at r = Some (JStr (now w)) /\ not_null (completed_at r) = true) /\
     (forall v r, fst task = Returned v ->
        r ∈ rows_of "dev_tasks" by_id (snd task) ->
        completed_at r = Some (JStr (now w)) /\ not_null (completed_at r) = true) /\
     (answers w ->
        (Forall (fun r => check_constraints "milestones" r = true)
           (rows_of "milestones" by_id w) ->
         exists v, fst milestone = Returned v) /\
        (forall t, rows_of "dev_tasks" by_id w = [t] -> exists v, fst task = Returned v))) /\
  (status <> Some "done" ->
     completed_at <$> table "milestones" (tables (snd milestone))
     = completed_at <$> table "milestones" (tables w) /\
     completed_at <$> table "dev_tasks" (tables (snd task))
     = completed_at <$> table "dev_tasks" (tables w)) /\
  (forall i r, not_null (completed_at r) = true ->
     (table "milestones" (tables w) !! i = Some r ->
      exists r', table "milestones" (tables (snd milestone)) !! i = Some r' /\
                 not_null (completed_at r') = true) /\
     (table "dev_tasks" (tables w) !! i = Some r ->
      exists r', table "dev_tasks" (tables (snd task)) !! i = Some r' /\
                 not_null (completed_at r') = true)).
Proof.
  cbv zeta. split; [|split].
  - intros Hdone. split; [|split; [|split]].
    + intros v r Hv Hr.
      rewrite (update_milestone_done w id status notes v r Hdone Hv Hr). done.
    + intros v r Hv Hr.
      rewrite (update_dev_task_done w id status assigned_to priority v r Hdone Hv Hr). done.
    + by apply update_milestone_returns.
    + intros t. by apply update_dev_task_returns.
  - intros Hother. split.
    + by apply update_milestone_other.
    + by apply update_dev_task_other.
  - intros i r Hn. split; intros Hr.
    + by eapply update_milestone_keeps.
    + by eapply update_dev_task_keeps.
Qed.

Lemma completed_at_append_only_witness :
  completed_at (hd ∅ (rows_of "milestones" [Eq "id" (JStr "2")]
                        (snd (update_milestone (Some "2") (Some "done") None sample_world))))
  = Some (JStr "2026-01-15T09:00:00.000Z") /\
  completed_at (hd ∅ (rows_of "dev_tasks" [Eq "id" (JStr "3")]
                        (snd (update_dev_task (Some "3") (Some "done") None None sample_world))))
  = Some (JStr "2026-01-15T09:00:00.000Z").
Proof.
  pose proof (completed_at_append_only sample_world (Some "2") (Some "done") None None None)
    as [Hm _].
  pose proof (completed_at_append_only sample_world (Some "3") (Some "done") None None None)
    as [Ht _].
  destruct (Hm eq_refl) as (Hmilestone & _ & Hreturns).
  destruct (Ht eq_refl) as (_ & Htask & Hreturns').
  destruct (Hreturns I) as [Hr _].
  destruct (Hreturns' I) as [_ Hr'].
  destruct Hr as [v Hv].
  { apply Forall_of_forallb. vm_compute. reflexivity. }
  destruct (Hr' handbook) as [v' Hv'].
  { vm_compute. reflexivity. }
  split.
  - eapply Hmilestone; [exact Hv|]. apply hd_of_singleton. vm_compute. reflexivity.
  - eapply Htask; [exact Hv'|]. apply hd_of_singleton. vm_compute. reflexivity.
Defined.

(** ** Handlers that take a company slug *)

(** With a reliable store and no company of the slug, get_recent_activity
    answers with the latest entries of the whole activity log. *)
Lemma get_recent_activity_unfiltered slug limit_arg w :
  outages w = [] ->
  rows_of "companies" (by_slug slug) w = [] ->
  get_recent_activity slug limit_arg w
  = (Returned (JArr (of_row <$>
                       (with_company w <$>
                          take (default 20%nat limit_arg)
                            (order "created_at" false (table "activity" (tables w)))))),
     w).
Proof.
  intros Ho Hc.
  assert (Hall : rows_of "activity" [] w = table "activity" (tables w)).
  { unfold rows_of. induction (table "activity" (tables w)) as [|x l IH]; [done|].
    cbn. by rewrite IH. }
  assert (Hlist : forall A (m : async (list criterion)) (k : list criterion -> async A),
            m w = (Returned [], w) -> bind m k w = k [] w).
  { intros A m k H. unfold bind. by rewrite H. }
  unfold get_recent_activity. rewrite (Hlist _ _ _); cycle 1.
  { destruct (truthy slug); [|reflexivity].
    unfold bind, select_single, request. rewrite Ho, Hc. reflexivity. }
  unfold bind, request. rewrite Ho, Hall. reflexivity.
Qed.

(** C2, as the handlers have it. The handlers list_milestones, add_milestone,
    add_note, update_requirement, add_requirement, list_documents,
    add_document, add_contact and list_contacts resolve the company by slug
    first: when no company has the slug they fail with the error
    'Company not found: <slug>', and the lookup is the only request the store
    has received. get_recent_activity does not: for it the slug is an
    optional filter, and with a reliable store and a slug that no company
    has it answers, as without a slug, with the latest entries of the whole
    activity log, newest first, 20 of them unless a limit is given. *)
Theorem company_handlers_resolve_first :
  resolves_company_first list_milestones /\
  (forall title due_date,
     resolves_company_first (fun slug => add_milestone slug title due_date)) /\
  (forall content type,
     resolves_company_first (fun slug => add_note slug content type)) /\
  (forall item status,
     resolves_company_first (fun slug => update_requirement slug item status)) /\
  (forall item status,
     resolves_company_first (fun slug => add_requirement slug item status)) /\
  resolves_company_first list_documents /\
  (forall name type url notes,
     resolves_company_first (fun slug => add_document slug name type url notes)) /\
  (forall name role email phone,
     resolves_company_first (fun slug => add_contact slug name role email phone)) /\
  resolves_company_first list_contacts /\
  (forall slug limit_arg w,
     outages w = [] ->
     rows_of "companies" (by_slug slug) w = [] ->
     get_recent_activity slug limit_arg w
     = (Returned (JArr (of_row <$>
                          (with_company w <$>
                             take (default 20%nat limit_arg)
                               (order "created_at" false (table "activity" (tables w)))))),
        w)).
Proof.
  repeat apply conj; intros.
  - apply list_milestones_resolves.
  - apply add_milestone_resolves.
  - apply add_note_resolves.
  - apply update_requirement_resolves.
  - apply add_requirement_resolves.
  - apply list_documents_resolves.
  - apply add_document_resolves.
  - apply add_contact_resolves.
  - apply list_contacts_resolves.
  - by apply get_recent_activity_unfiltered.
Qed.

Lemma company_handlers_resolve_first_witness :
  rows_of "companies" (by_slug (Some "acme")) sample_world = [] /\
  add_milestone (Some "acme") (Some "Pilot") None sample_world
  = (Thrown "Company not found: acme", sample_world).
Proof.
  assert (H : rows_of "companies" (by_slug (Some "acme")) sample_world = [])
    by (vm_compute; reflexivity).
  split; [exact H|].
  exact (proj1 (proj2 company_handlers_resolve_first) (Some "Pilot") None (Some "acme")
           sample_world H).
Defined.

(** C2, as stated, fails: no company has the slug 'acme', and yet
    get_recent_activity answers with the activity of every company and
    update_company_status reports success. *)
Lemma unknown_slug_not_rejected :
  rows_of "companies" (by_slug (Some "acme")) sample_world = [] /\
  fst (get_recent_activity (Some "acme") None sample_world)
  = Returned (listing (Some [with_company sample_world intro_call])) /\
  fst (update_company_status (Some "acme") (Some "pilot") sample_world)
  = Returned (JObj [("success", JBool true)]).
Proof. split; [|split]; vm_compute; reflexivity. Qed.

(** ** Portfolio summary *)

Lemma progress_of_counts (milestones : list row) :
  progress_of milestones =
  match length milestones with
  | O => 0
  | _ => Math_round (Number_of_nat (length (List.filter is_done milestones))
                     / Number_of_nat (length milestones) * 100)%float
  end.
Proof. reflexivity. Qed.

(** A company without milestones is reported at 0. *)
Lemma progress_of_no_milestones (c : row) :
  progress_of [] = 0 /\
  member "progress" (match summarize c [] with JObj ms => ms | _ => [] end) = Some (JNum 0).
Proof.
  split; [reflexivity|]. unfold summarize, object, member. simpl.
  destruct (c !! "name"), (c !! "slug"), (c !! "status"); reflexivity.
Qed.

(** Up to 39 milestones the reported progress is the rounded percentage. *)
Lemma progress_of_below_40 :
  forallb (fun total =>
    forallb (fun done =>
      Z.eqb (progress_of (milestones_of done (total - done))) (rounded_percentage done total))
      (seq 0 (S total)))
    (seq 0 40) = true.
Proof. vm_compute. reflexivity. Qed.

(** C7 at a company with 40 milestones, 23 of them done: the handler
    reports 57, where round(100 × 23 / 40) = round(57.5) is 58. The quotient
    23 / 40 is not a binary64 number, and its product with 100 is the
    double just below 57.5. *)
Theorem progress_of_23_of_40 :
  progress_of (milestones_of 23 17) = 57 /\
  rounded_percentage 23 40 = 58 /\
  (Number_of_nat 23 / Number_of_nat 40 * 100 <? 57.5)%float = true.
Proof. repeat apply conj; vm_compute; reflexivity. Qed.

(** ** Deployment health checker *)

Ltac update_returns :=
  match goal with
  | |- context [update ?n ?p ?f ?w] =>
      let E := fresh "E" in
      destruct (update_cases n p f w) as (? & ? & E & _); rewrite E
  end.

Lemma check_component_unconfigured comp results w :
  field_string "url" comp = None \/ field_string "url" comp = Some "" ->
  check_component comp results w
  = (Returned (assign (key_of (column "component_type" comp))
                 (JObj [("status", JStr "not_configured"); ("checked", JBool false)])
                 results), w).
Proof. unfold check_component. intros [-> | ->]; reflexivity. Qed.

Lemma check_component_probed comp results w c u :
  field_string "url" comp = Some (String c u) ->
  let target := probe_url comp (String c u) in
  let p := net w target in
  check_component comp results w
  = (Returned (assign (key_of (column "component_type" comp)) (report p) results),
     snd (update "deployment_components" (health_record p (now w))
            [Eq "id" (column "id" comp)]
            (set_fetched (fetched w ++ [target]) w))).
Proof.
  intros Hurl target p. unfold check_component. rewrite Hurl.
  fold (probe_url comp (String c u)). fold target.
  unfold try_catch, bind, fetch, Date_now, ret. fold p.
  unfold report, health_record, classify, ok.
  destruct p as [st el body|m];
    [destruct (10000 <=? el)%Z;
       [|cbn [status elapsed];
         destruct ((200 <=? st)%Z && (st <=? 299)%Z); cbn [negb];
           [destruct (5000 <? el)%Z|]]|];
    cbn [fst snd];
    change (now (set_fetched (fetched w ++ [target]) w)) with (now w);
    update_returns; reflexivity.
Qed.





Example classify_healthy : classify (Responded 200 200 "ok") = ("healthy", JNull).
Proof. reflexivity. Qed.

Example classify_http_error : classify (Responded 503 120 "") = ("degraded", JStr "HTTP 503").
Proof. vm_compute. reflexivity. Qed.

Example classify_slow : classify (Responded 200 5001 "ok") = ("degraded", JNull).
Proof. reflexivity. Qed.

Example classify_timeout :
  classify (Responded 200 10000 "ok") = ("down", JStr "This operation was aborted").
Proof. reflexivity. Qed.



Lemma update_net name patch filters w :
  net (snd (update name patch filters w)) = net w.
Proof.
  unfold update, request, update_rows.
  destruct (outages w) as [|[m|] rest]; simpl; try reflexivity;
    destruct (forallb _ _ && _); reflexivity.
Qed.

(** One component checked: the call returns whatever the probe met, and
    writes the component's entry. *)
Lemma check_component_returns comp results w :
  exists w', check_component comp results w
             = (Returned (assign (component_key comp) (entry (net w) comp) results), w') /\
             net w' = net w.
Proof.
  unfold entry, component_key.
  destruct (field_string "url" comp) as [[|c u]|] eqn:Hurl.
  - exists w. split; [|reflexivity]. apply check_component_unconfigured. auto.
  - eexists. split; [apply (check_component_probed comp results w c u Hurl)|].
    rewrite update_net. reflexivity.
  - exists w. split; [|reflexivity]. apply check_component_unconfigured. auto.
Qed.

Lemma check_components_returns components : forall results w,
  exists w', check_components components results w
             = (Returned (foldl (fun acc comp => assign (component_key comp)
                                                   (entry (net w) comp) acc)
                            results components), w') /\
             net w' = net w.
Proof.
  induction components as [|comp rest IH]; intros results w.
  - exists w. split; reflexivity.
  - destruct (check_component_returns comp results w) as (w1 & He & Hnet).
    destruct (IH (assign (component_key comp) (entry (net w) comp) results) w1)
      as (w2 & He2 & Hnet2).
    exists w2. split; [|congruence].
    cbn [check_components]. unfold bind. rewrite He, He2, Hnet. reflexivity.
Qed.

Lemma member_assign_eq key value members :
  member key (assign key value members) = Some value.
Proof.
  unfold member. induction members as [|[k v] rest IH]; simpl.
  - by rewrite String.eqb_refl.
  - destruct (k =? key) eqn:E; simpl.
    + by rewrite String.eqb_refl.
    + by rewrite E.
Qed.

Lemma member_assign_ne key other value members :
  other <> key -> member other (assign key value members) = member other members.
Proof.
  intros Hne. unfold member. induction members as [|[k v] rest IH]; simpl.
  - destruct (key =? other) eqn:E; [|done]. apply String.eqb_eq in E. congruence.
  - destruct (k =? key) eqn:E; simpl.
    + apply String.eqb_eq in E as ->.
      destruct (key =? other) eqn:E'; [|done]. apply String.eqb_eq in E'. congruence.
    + destruct (k =? other); [done|]. apply IH.
Qed.

(** Every component leaves an entry under its type; with one component per
    type the entry is the component's own. *)
Lemma entries_complete (network : string -> probe) components : forall results comp,
  comp ∈ components ->
  let final := foldl (fun acc c => assign (component_key c) (entry network c) acc)
                 results components in
  is_Some (member (component_key comp) final) /\
  (NoDup (component_key <$> components) ->
   member (component_key comp) final = Some (entry network comp)).
Proof.
  induction components as [|c rest IH]; intros results comp Hin final.
  - by apply elem_of_nil in Hin.
  - subst final. cbn [foldl].
    apply elem_of_cons in Hin as [->|Hin]; [|split].
    + assert (Hkeep : forall l acc,
                is_Some (member (component_key c) acc) ->
                is_Some (member (component_key c)
                           (foldl (fun acc c => assign (component_key c) (entry network c) acc)
                              acc l))).
      { induction l as [|x l IHl]; intros acc Hacc; [done|]. cbn [foldl]. apply IHl.
        destruct (decide (component_key c = component_key x)) as [->|Hne].
        - rewrite member_assign_eq. eauto.
        - by rewrite member_assign_ne. }
      split.
      * apply Hkeep. rewrite member_assign_eq. eauto.
      * intros Hnd. cbn [fmap list_fmap] in Hnd. apply NoDup_cons in Hnd as [Hnotin _].
        assert (Hsame : forall l acc,
                  component_key c ∉ component_key <$> l ->
                  member (component_key c)
                    (foldl (fun acc c => assign (component_key c) (entry network c) acc)
                       acc l)
                  = member (component_key c) acc).
        { induction l as [|x l IHl]; intros acc Hx; [done|]. cbn [foldl].
          cbn [fmap list_fmap] in Hx. apply not_elem_of_cons in Hx as [Hne Hx].
          rewrite IHl by done. by rewrite member_assign_ne. }
        rewrite Hsame by done. apply member_assign_eq.
    + apply IH, Hin.
    + intros Hnd. cbn [fmap list_fmap] in Hnd. apply NoDup_cons in Hnd as [_ Hnd].
      by apply IH.
Qed.

Lemma project_all (rows : list row) : project None <$> rows = rows.
Proof. induction rows as [|r rows IH]; [done|]. cbn [fmap list_fmap] in *. by rewrite IH. Qed.

(** C4. When the store answers the query for the components, the handler
    returns, whatever the probes meet and whatever the store does with the
    updates, the deployment id it was given together with a result map that
    has an entry under the type of every component of the deployment; with
    one component per type, each entry is what the check of that component
    alone reports. When the store fails the query, the handler throws the
    store's error. *)
Theorem health_check_isolates_failures (deployment_id : option string) (w : world) :
  let components :=
    rows_of "deployment_components"
      [Eq "deployment_id" (JStr (String_of deployment_id))] w in
  match outages w with
  | Some e :: _ => fst (check_deployment_health deployment_id w) = Thrown e
  | _ =>
      exists results,
        fst (check_deployment_health deployment_id w)
        = Returned (object [ ("deployment_id", str deployment_id);
                             ("health_check", Some (JObj results)) ]) /\
        forall comp, comp ∈ components ->
          is_Some (member (component_key comp) results) /\
          (NoDup (component_key <$> components) ->
           member (component_key comp) results = Some (entry (net w) comp))
  end.
Proof.
  intros components. unfold check_deployment_health, bind, select, request.
  destruct (outages w) as [|[e|] rest] eqn:Ho.
  - cbn [data error rethrow ret]. rewrite project_all. cbn [default]. unfold id.
    destruct (check_components_returns (rows_of "deployment_components"
                [Eq "deployment_id" (JStr (String_of deployment_id))] w) [] w)
      as (w' & He & _).
    rewrite He. eexists. split; [reflexivity|].
    intros comp Hin. by apply entries_complete.
  - reflexivity.
  - cbn [data error rethrow ret]. rewrite project_all. cbn [default]. unfold id.
    destruct (check_components_returns (rows_of "deployment_components"
                [Eq "deployment_id" (JStr (String_of deployment_id))] (set_outages rest w))
                [] (set_outages rest w))
      as (w' & He & _).
    rewrite He. eexists. split; [reflexivity|].
    intros comp Hin. by apply entries_complete.
Qed.

Lemma health_check_isolates_failures_witness :
  exists results,
    fst (check_deployment_health (Some "10") deployed_world)
    = Returned (object [ ("deployment_id", Some (JStr "10"));
                         ("health_check", Some (JObj results)) ]) /\
    member "github" results
    = Some (JObj [("status", JStr "down"); ("error", JStr "fetch failed");
                  ("checked", JBool true)]) /\
    member "frontend" results
    = Some (JObj [("status", JStr "healthy"); ("latency", JNum 200);
                  ("checked", JBool true)]).
Proof.
  destruct (health_check_isolates_failures (Some "10") deployed_world)
    as (results & Hr & Hall).
  exists results. split; [exact Hr|].
  assert (Hnd : NoDup (component_key <$>
                  rows_of "deployment_components"
                    [Eq "deployment_id" (JStr (String_of (Some "10")))] deployed_world)).
  { refine (bool_decide_unpack _ _). vm_compute. exact I. }
  assert (Hin : forall comp,
            In comp [tracker_github; tracker_frontend; tracker_mcp; tracker_database] ->
            selected [Eq "deployment_id" (JStr (String_of (Some "10")))] comp = true ->
            comp ∈ rows_of "deployment_components"
                     [Eq "deployment_id" (JStr (String_of (Some "10")))] deployed_world).
  { intros comp Hc Hs. apply list_elem_of_In, filter_In. split; [exact Hc | exact Hs]. }
  split.
  - destruct (Hall tracker_github) as [_ H].
    { apply Hin; [left; reflexivity | vm_compute; reflexivity]. }
    etransitivity; [exact (H Hnd)|]. vm_compute. reflexivity.
  - destruct (Hall tracker_frontend) as [_ H].
    { apply Hin; [right; left; reflexivity | vm_compute; reflexivity]. }
    etransitivity; [exact (H Hnd)|]. vm_compute. reflexivity.
Defined.

(** ** Document content *)



Lemma append_length a b : String.length (a +:+ b) = (String.length a + String.length b)%nat.
Proof. induction a as [|c a IH]; simpl; [reflexivity | by rewrite IH]. Qed.



Lemma get_document_content_found document_id d w :
  answers w ->
  rows_of "documents" [Eq "id" (JStr (String_of document_id))] w = [d] ->
  let doc := with_company w d in
  let ext := toLowerCase <$> field_string "file_type" doc in
  let after := get_document_content document_id w in
  fst after = Returned (document_answer doc (net w)) /\
  fetched (snd after)
  = if includes textFormats ext
    then (fetched w ++ [text_of (field_string "file_url" doc)])%list
    else fetched w.
Proof.
  intros Ha Hd doc ext after. subst after.
  unfold get_document_content, bind, request, answers in *.
  assert (Hgen : forall w0, tables w0 = tables w -> net w0 = net w -> fetched w0 = fetched w ->
            rows_of "documents" [Eq "id" (JStr (String_of document_id))] w0 = [d] /\
            with_company w0 d = doc).
  { intros w0 Ht _ _. unfold rows_of, with_company, rows_of in *. rewrite Ht. auto. }
  destruct (outages w) as [|[e|] rest]; [|contradiction|].
  - destruct (Hgen w) as [-> Hdoc]; try reflexivity.
    cbn [fmap list_fmap single data error rethrow ret]. rewrite Hdoc.
    fold ext. unfold document_answer. fold ext.
    destruct (includes textFormats ext); cbn [negb]; [|split; reflexivity].
    unfold try_catch, bind, fetch, ok, ret, throw.
    destruct (net w (text_of (field_string "file_url" doc))) as [st el body|m];
      [|split; reflexivity].
    cbn [status text]. unfold truncate.
    destruct ((200 <=? st)%Z && (st <=? 299)%Z); split; reflexivity.
  - destruct (Hgen (set_outages rest w)) as [-> Hdoc]; try reflexivity.
    cbn [fmap list_fmap single data error rethrow ret]. rewrite Hdoc.
    fold ext. unfold document_answer. fold ext.
    destruct (includes textFormats ext); cbn [negb]; [|split; reflexivity].
    unfold try_catch, bind, fetch, ok, ret, throw.
    change (net (set_outages rest w)) with (net w).
    destruct (net w (text_of (field_string "file_url" doc))) as [st el body|m];
      [|split; reflexivity].
    cbn [status text]. unfold truncate.
    destruct ((200 <=? st)%Z && (st <=? 299)%Z); split; reflexivity.
Qed.



(** ** Deployment slugs *)

Lemma append_cons c (a b : string) : String c a +:+ b = String c (a +:+ b).
Proof. reflexivity. Qed.

Lemma append_assoc (a b c : string) : (a +:+ b) +:+ c = a +:+ (b +:+ c).
Proof.
  induction a as [|x a IH]; [reflexivity|]. rewrite !append_cons. by rewrite IH.
Qed.

Lemma append_empty_r (a : string) : a +:+ "" = a.
Proof. induction a as [|x a IH]; [reflexivity|]. rewrite append_cons. by rewrite IH. Qed.

Lemma is_alnum_not_hyphen c : is_alnum c = true -> Ascii.eqb c "-" = false.
Proof. destruct c as [[] [] [] [] [] [] [] []]; vm_compute; congruence. Qed.

Lemma all_alnum_append a b : all_alnum (a +:+ b) = all_alnum a && all_alnum b.
Proof.
  induction a as [|x a IH]; [reflexivity|]. rewrite append_cons. cbn [all_alnum].
  by rewrite IH, andb_assoc.
Qed.

Lemma drop_last_hyphen_append a b :
  b <> "" -> drop_last_hyphen (a +:+ b) = a +:+ drop_last_hyphen b.
Proof.
  intros Hb. induction a as [|x a IH]; [reflexivity|].
  rewrite !append_cons. cbn [drop_last_hyphen]. rewrite <- IH.
  destruct (a +:+ b) eqn:E; [|reflexivity].
  destruct a; [|rewrite append_cons in E]; simplify_eq.
Qed.

Lemma drop_last_hyphen_alnum cur : all_alnum cur = true -> drop_last_hyphen cur = cur.
Proof.
  induction cur as [|x cur IH]; [reflexivity|]. cbn [all_alnum].
  intros [Hx Hcur]%andb_prop. cbn [drop_last_hyphen].
  destruct cur; [by rewrite (is_alnum_not_hyphen x Hx)|]. by rewrite IH.
Qed.

Lemma drop_last_hyphen_added cur : drop_last_hyphen (cur +:+ "-") = cur.
Proof.
  induction cur as [|x cur IH]; [reflexivity|].
  rewrite append_cons. cbn [drop_last_hyphen]. rewrite IH.
  destruct cur; [reflexivity|]. by rewrite append_cons.
Qed.

Lemma runs_nonempty cur s : cur <> "" -> runs cur s <> [].
Proof.
  revert cur. induction s as [|c s IH]; intros cur Hcur; cbn [runs].
  - by destruct cur.
  - destruct (is_alnum c).
    + apply IH. destruct cur; [done|]. by rewrite append_cons.
    + by destruct cur.
Qed.

Lemma concat_cons (x : string) (rest : list string) :
  rest <> [] -> String.concat "-" (x :: rest) = x +:+ "-" +:+ String.concat "-" rest.
Proof. destruct rest; [congruence | reflexivity]. Qed.

(** Inside a word, and after a word inside a run of other characters. *)
Lemma replace_runs_words s :
  (forall cur, all_alnum cur = true -> cur <> "" ->
     drop_last_hyphen (cur +:+ replace_runs false s) = String.concat "-" (runs cur s)) /\
  (forall cur,
     drop_last_hyphen (cur +:+ "-" +:+ replace_runs true s)
     = String.concat "-" (cur :: runs "" s)).
Proof.
  induction s as [|c s [IH1 IH2]]; split; intros cur.
  - intros Hcur Hne. cbn [replace_runs runs]. rewrite append_empty_r.
    destruct cur; [congruence|]. by apply drop_last_hyphen_alnum.
  - cbn [replace_runs runs]. apply drop_last_hyphen_added.
  - intros Hcur Hne. cbn [replace_runs runs]. destruct (is_alnum c) eqn:Hc.
    + change (String c (replace_runs false s)) with (String c "" +:+ replace_runs false s).
      rewrite <- append_assoc. apply IH1.
      * rewrite all_alnum_append, Hcur. cbn [all_alnum]. by rewrite Hc.
      * destruct cur; [done|]. by rewrite append_cons.
    + change (String "-" (replace_runs true s)) with ("-" +:+ replace_runs true s).
      rewrite IH2. by destruct cur.
  - cbn [replace_runs runs]. destruct (is_alnum c) eqn:Hc; [|apply IH2].
    change ("" +:+ String c "") with (String c "").
    rewrite concat_cons by (apply runs_nonempty; discriminate).
    rewrite <- (IH1 (String c "")) by (cbn [all_alnum]; rewrite ?Hc; done).
    change (String c (replace_runs false s)) with (String c "" +:+ replace_runs false s).
    rewrite <- append_assoc.
    rewrite drop_last_hyphen_append by (rewrite append_cons; discriminate).
    by rewrite append_assoc.
Qed.

(** Inside a run of other characters at the very start. *)
Lemma replace_runs_leading s :
  drop_last_hyphen (replace_runs true s) = String.concat "-" (runs "" s).
Proof.
  induction s as [|c s IH]; [reflexivity|]. cbn [replace_runs runs].
  destruct (is_alnum c) eqn:Hc; [|exact IH].
  change ("" +:+ String c "") with (String c "").
  apply (proj1 (replace_runs_words s) (String c "")); [|discriminate].
  cbn [all_alnum]. by rewrite Hc.
Qed.

(** The slug the handler derives is the slug of the specification. *)
Lemma derive_slug_words name : derive_slug name = slug_of_words name.
Proof.
  unfold derive_slug, slug_of_words. generalize (toLowerCase name). intros s.
  destruct s as [|c s]; [reflexivity|]. cbn [replace_runs runs].
  destruct (is_alnum c) eqn:Hc.
  - unfold trim_hyphens. rewrite (is_alnum_not_hyphen c Hc).
    change ("" +:+ String c "") with (String c "").
    apply (proj1 (replace_runs_words s) (String c "")); [|discriminate].
    cbn [all_alnum]. by rewrite Hc.
  - unfold trim_hyphens. cbn [Ascii.eqb Bool.eqb]. apply replace_runs_leading.
Qed.

Example derive_slug_my_cool_app : derive_slug "My Cool App!!" = "my-cool-app".
Proof. reflexivity. Qed.

Lemma bind_returned {A B} (m : async A) (k : A -> async B) a w w1 :
  m w = (Returned a, w1) -> bind m k w = k a w1.
Proof. unfold bind. by intros ->. Qed.

Lemma bind_thrown {A B} (m : async A) (k : A -> async B) e w w1 :
  m w = (Thrown e, w1) -> bind m k w = (Thrown e, w1).
Proof. unfold bind. by intros ->. Qed.




Lemma unique_in_deployments keys after (r : row) :
  unique_in "deployments" keys after r
  = (negb (existsb (String.eqb "slug") keys) ||
     match r !! "slug" with
     | None | Some JNull => true
     | Some v => (length (List.filter (fun x => matches x (Eq "slug" v)) after) <=? 1)%nat
     end) && true.
Proof. reflexivity. Qed.


(** ** The agent loop *)

Lemma run_tool_answered table b results w :
  exists entries w', run_tool table b results w = (Returned (results ++ entries)%list, w') /\
                     answered table [b] w entries w'.
Proof.
  destruct b as [t|id name input|t]; cbn [run_tool].
  - exists [], w. rewrite app_nil_r. split; [reflexivity|]. repeat constructor.
  - unfold try_catch, bind.
    destruct (call table name (Some input) w) as [[v|message] w1] eqn:Hcall.
    + eexists [_], w1. split; [reflexivity|]. eapply answered_result; [exact Hcall|constructor].
    + eexists [_], w1. split; [reflexivity|]. eapply answered_error; [exact Hcall|constructor].
  - exists [], w. rewrite app_nil_r. split; [reflexivity|]. repeat constructor.
Qed.

Lemma answered_app table content1 content2 w w1 w2 results1 results2 :
  answered table content1 w results1 w1 ->
  answered table content2 w1 results2 w2 ->
  answered table (content1 ++ content2)%list w (results1 ++ results2)%list w2.
Proof.
  induction 1; intros H2; cbn [app]; try (econstructor; eauto; fail). exact H2.
Qed.

(** The loop over the content blocks never throws, and answers every tool
    call. *)
Lemma run_tools_answered table content : forall results w,
  exists entries w', run_tools table content results w = (Returned (results ++ entries)%list, w') /\
                     answered table content w entries w'.
Proof.
  induction content as [|b content IH]; intros results w; cbn [run_tools].
  - exists [], w. rewrite app_nil_r. split; [reflexivity|constructor].
  - destruct (run_tool_answered table b results w) as (e1 & w1 & H1 & A1).
    destruct (IH (results ++ e1)%list w1) as (e2 & w2 & H2 & A2).
    exists (e1 ++ e2)%list, w2. split.
    + erewrite bind_returned by exact H1. rewrite H2. by rewrite app_assoc.
    + change (b :: content) with ([b] ++ content)%list. eapply answered_app; eauto.
Qed.

(** One entry per tool call, under the call's identifier and in order. *)
Lemma answered_ids table content w results w' :
  answered table content w results w' -> tool_use_id <$> results = tool_calls content.
Proof.
  unfold tool_calls.
  induction 1; cbn [fmap list_fmap omap tool_use_id]; try done;
    rewrite IHanswered; reflexivity.
Qed.

(** A registered name is dispatched to its own handler. *)
Lemma call_registered (table : gmap string handler) (name : string) h input w :
  table !! name = Some h ->
  call table name input w = (let! v := h input in ret (Some v)) w.
Proof. intros H. unfold call, lookup_property. by rewrite H. Qed.

(** C1. In a turn in which the model asks for tools, every tool call of the
    response is dispatched, a registered name to its own handler, in the
    order of the response; each call leaves one entry under its identifier,
    the serialized result or, when the handler fails, the serialized
    { error: message } flagged as an error; the loop over the calls itself
    never fails; and the first thing the loop does next is the completion
    request whose conversation ends with the assistant turn and one user
    turn holding all the entries. *)
Theorem tool_results_in_one_batch
    (table : gmap string handler) (fuel : nat) (messages : list turn)
    (response : model_response) (w : world) :
  stop_reason response = "tool_use" ->
  exists results w1,
    run_tools table (blocks response) [] w = (Returned results, w1) /\
    answered table (blocks response) w results w1 /\
    tool_use_id <$> results = tool_calls (blocks response) /\
    (forall name h input w0, table !! name = Some h ->
       call table name input w0 = (let! v := h input in ret (Some v)) w0) /\
    let history :=
      ((messages ++ [assistant (blocks response)]) ++ [user_results results])%list in
    tool_use_loop (S fuel) table messages response w
    = (let! response' := messages_create history in
       tool_use_loop fuel table history response') w1 /\
    requested (snd (messages_create history w1)) = (requested w1 ++ [history])%list.
Proof.
  intros Hstop.
  destruct (run_tools_answered table (blocks response) [] w) as (results & w1 & Hrun & Hans).
  cbn [app] in Hrun. exists results, w1.
  split; [exact Hrun|]. split; [exact Hans|].
  split; [by eapply answered_ids|].
  split; [intros; by apply call_registered|].
  split; [|reflexivity].
  cbn [tool_use_loop]. rewrite Hstop. rewrite String.eqb_refl.
  erewrite bind_returned by exact Hrun. reflexivity.
Qed.

Lemma tool_results_in_one_batch_witness :
  exists results w1,
    run_tools handlers (blocks two_calls) [] chat_world = (Returned results, w1) /\
    answered handlers (blocks two_calls) chat_world results w1 /\
    tool_use_id <$> results = ["toolu_01"; "toolu_02"] /\
    tool_use_loop 3 handlers [user_text "Status?"] two_calls chat_world
    = (let! response' :=
         messages_create [user_text "Status?"; assistant (blocks two_calls);
                          user_results results] in
       tool_use_loop 2 handlers
         [user_text "Status?"; assistant (blocks two_calls); user_results results]
         response') w1.
Proof.
  destruct (tool_results_in_one_batch handlers 2 [user_text "Status?"] two_calls chat_world
              eq_refl) as (results & w1 & Hrun & Hans & Hids & _ & Hloop & _).
  exists results, w1. repeat apply conj; assumption.
Defined.

(** The chat of the specification's example: two tool calls in one turn,
    the first succeeds and the second fails; both entries travel in one user
    turn of the second completion request, the second flagged as an error,
    and the endpoint answers with the model's closing text. *)
Example chat_two_calls :
  let '(reply, w') := chat 3 handlers (Some "Status?") [] chat_world in
  exists history,
    reply = Some (answer "DTIQ has one milestone; acme is unknown." history) /\
    match requested w' with
    | [first; second] =>
        first = [user_text "Status?"] /\
        match second with
        | [user_text "Status?"; assistant said; user_results [entry1; entry2]] =>
            said = blocks two_calls /\
            tool_use_id entry1 = "toolu_01" /\ is_error entry1 = false /\
            tool_use_id entry2 = "toolu_02" /\ is_error entry2 = true /\
            content entry2
            = JSON_stringify (Some (JObj [("error", JStr "Company not found: acme")]))
        | _ => False
        end
    | _ => False
    end.
Proof. vm_compute. eexists. repeat apply conj; reflexivity. Qed.

(** Outside the inherited methods, a name that is no key of the table
    resolves to no function. *)
Lemma lookup_property_unknown (table : gmap string handler) (name : string) :
  table !! name = None -> name ∉ inherited_methods ->
  lookup_property table name = NotAFunction \/ lookup_property table name = Undefined.
Proof.
  intros Hown Hnot. unfold lookup_property. unfold handler in *. rewrite Hown.
  unfold Object_prototype.
  repeat match goal with
         | |- context [String.eqb name ?s] =>
             destruct (String.eqb_spec name s) as [->|_];
             [exfalso; apply Hnot; unfold inherited_methods;
              solve [repeat first [apply list_elem_of_here | apply list_elem_of_further]]|]
         end; cbn [orb].
  destruct (String.eqb name "__proto__"); auto.
Qed.

(** C10, as the loop has it. When the requested name is neither a key of the
    handler table nor the name of a method every object inherits
    (constructor, toString, toLocaleString, valueOf, hasOwnProperty,
    propertyIsEnumerable, isPrototypeOf, __lookupGetter__, __lookupSetter__,
    __defineGetter__, __defineSetter__), the failed call is caught: the entry
    pushed for the call's id carries the serialized error and is flagged as
    an error, and nothing else has happened. Whatever the name, the call is
    answered with one entry under its id and the loop goes on; it never
    throws. *)
Theorem unknown_tool_is_answered
    (table : gmap string handler) (name id : string) (input : list (string * json))
    (results : list tool_result) (w : world) :
  (table !! name = None -> name ∉ inherited_methods ->
   run_tool table (tool_use id name input) results w
   = (Returned (results ++
        [ToolResult id
           (JSON_stringify
              (Some (JObj [("error", JStr "handlers[block.name] is not a function")])))
           true])%list, w)) /\
  (exists entry w',
     run_tool table (tool_use id name input) results w
     = (Returned (results ++ [entry])%list, w') /\
     tool_use_id entry = id).
Proof.
  split.
  - intros Hown Hnot. cbn [run_tool]. unfold try_catch, bind, call.
    destruct (lookup_property_unknown table name Hown Hnot) as [-> | ->]; reflexivity.
  - cbn [run_tool]. unfold try_catch, bind.
    destruct (call table name (Some input) w) as [[v|message] w1];
      do 2 eexists; split; reflexivity.
Qed.

Lemma unknown_tool_is_answered_witness :
  run_tool handlers (tool_use "toolu_03" "send_fax" [("to", JStr "Rick")]) [] chat_world
  = (Returned
       [ToolResult "toolu_03"
          (JSON_stringify
             (Some (JObj [("error", JStr "handlers[block.name] is not a function")])))
          true], chat_world).
Proof.
  apply (proj1 (unknown_tool_is_answered handlers "send_fax" "toolu_03"
                  [("to", JStr "Rick")] [] chat_world)).
  - reflexivity.
  - unfold inherited_methods. intros H. repeat (apply elem_of_cons in H as [H|H]; [discriminate|]).
    by apply elem_of_nil in H.
Defined.

(** C10, as stated, fails: toString is no key of the handler table, and a
    tool call under that name is answered with the text every object
    prints, not flagged as an error. *)
Lemma inherited_method_is_called :
  handlers !! "toString" = None /\
  run_tool handlers (tool_use "toolu_03" "toString" []) [] chat_world
  = (Returned
       [ToolResult "toolu_03" (JSON_stringify (Some (JStr "[object Object]"))) false],
     chat_world).
Proof. split; reflexivity. Qed.

(** ** Deployments and their components *)

Lemma frame_refl w : frame w w.
Proof. repeat split. lia. Qed.

Lemma frame_trans w1 w2 w3 : frame w1 w2 -> frame w2 w3 -> frame w1 w3.
Proof. intros (A1 & B1 & C1) (A2 & B2 & C2). repeat split; try congruence. lia. Qed.

Lemma consistent_frame w w' : frame w w' -> consistent w -> consistent w'.
Proof.
  intros (Hd & Hc & Hn) [[Hids Hrefs] Hfour]. split; [split|].
  - intros d Hin. rewrite Hd in Hin. destruct (Hids d Hin) as (k & Hk & Hlt).
    exists k. split; [done | lia].
  - intros c Hin. rewrite Hc in Hin. destruct (Hrefs c Hin) as (k & Hk & Hlt).
    exists k. split; [done | lia].
  - intros d Hin. rewrite Hd in Hin. unfold components_of, rows_of in *. rewrite Hc.
    by apply Hfour.
Qed.

Lemma framed_preserves {A} (m : async A) : framed m -> preserves m.
Proof. intros H w. apply consistent_frame, H. Qed.

Lemma framed_ret {A} (a : A) : framed (ret a).
Proof. intros w. apply frame_refl. Qed.

Lemma framed_throw {A} e : framed (@throw A e).
Proof. intros w. apply frame_refl. Qed.

Lemma framed_bind {A B} (m : async A) (k : A -> async B) :
  framed m -> (forall a, framed (k a)) -> framed (bind m k).
Proof.
  intros Hm Hk w. unfold bind. specialize (Hm w).
  destruct (m w) as [[a|e] w1]; [|exact Hm].
  eapply frame_trans; [exact Hm | apply Hk].
Qed.

Lemma framed_try_catch {A} (body : async A) (handler : string -> async A) :
  framed body -> (forall e, framed (handler e)) -> framed (try_catch body handler).
Proof.
  intros Hm Hk w. unfold try_catch. specialize (Hm w).
  destruct (body w) as [[a|e] w1]; [exact Hm|].
  eapply frame_trans; [exact Hm | apply Hk].
Qed.

Lemma framed_Date_now : framed Date_now.
Proof. intros w. apply frame_refl. Qed.

Lemma framed_fetch url abort_after : framed (fetch url abort_after).
Proof.
  intros w. unfold fetch. destruct (net w url); [destruct abort_after|];
    try destruct (_ <=? _)%Z; repeat split; cbn; lia.
Qed.

Lemma framed_request {A} (perform : world -> reply A * world) :
  (forall w, frame w (snd (perform w))) -> framed (request perform).
Proof.
  intros H w. unfold request. destruct (outages w) as [|[e|] rest].
  - specialize (H w). by destruct (perform w).
  - repeat split. cbn. lia.
  - specialize (H (set_outages rest w)). by destruct (perform (set_outages rest w)).
Qed.

Lemma framed_select name columns filters arrange :
  framed (select name columns filters arrange).
Proof. apply framed_request. intros w. apply frame_refl. Qed.

Lemma framed_select_single name columns filters :
  framed (select_single name columns filters).
Proof. apply framed_request. intros w. apply frame_refl. Qed.

Lemma framed_reading {A} (read : world -> reply A) :
  framed (request (fun w => (read w, w))).
Proof. apply framed_request. intros w. apply frame_refl. Qed.

Lemma frame_insert_rows name new w :
  name <> "deployments" -> name <> "deployment_components" ->
  frame w (snd (insert_rows name new w)).
Proof.
  intros H1 H2. unfold insert_rows. destruct (_ && _); [|apply frame_refl].
  repeat split; cbn; rewrite ?table_insert_ne by done; try done; lia.
Qed.

Lemma frame_update_rows name patch filters w :
  name <> "deployments" -> name <> "deployment_components" ->
  frame w (snd (update_rows name patch filters w)).
Proof.
  intros H1 H2. unfold update_rows. destruct (_ && _); [|apply frame_refl].
  repeat split; cbn; rewrite ?table_insert_ne by done; try done; lia.
Qed.

Lemma framed_insert name new :
  name <> "deployments" -> name <> "deployment_components" -> framed (insert name new).
Proof. intros. apply framed_request. intros w. by apply frame_insert_rows. Qed.

Lemma framed_update name patch filters :
  name <> "deployments" -> name <> "deployment_components" ->
  framed (update name patch filters).
Proof. intros. apply framed_request. intros w. by apply frame_update_rows. Qed.

Lemma framed_update_single name patch filters :
  name <> "deployments" -> name <> "deployment_components" ->
  framed (update_single name patch filters).
Proof.
  intros H1 H2. apply framed_request. intros w.
  pose proof (frame_update_rows name patch filters w H1 H2) as H.
  destruct (update_rows name patch filters w) as [r w']. cbn [snd] in H.
  destruct (error (single r)); [apply frame_refl | exact H].
Qed.

Lemma framed_rethrow {A} (r : reply A) : framed (rethrow r).
Proof. unfold rethrow. destruct (error r); [apply framed_throw | apply framed_ret]. Qed.

Lemma framed_first d : framed (first d).
Proof. unfold first. destruct d; [apply framed_ret | apply framed_throw]. Qed.

Lemma framed_destructure key input : framed (destructure key input).
Proof. unfold destructure. destruct input; [apply framed_ret | apply framed_throw]. Qed.

Ltac framed_step :=
  first
    [ apply framed_ret | apply framed_throw | apply framed_Date_now | apply framed_fetch
    | apply framed_select | apply framed_select_single | apply framed_reading
    | apply framed_rethrow | apply framed_first | apply framed_destructure
    | apply framed_insert; discriminate
    | apply framed_update; discriminate
    | apply framed_update_single; discriminate
    | apply framed_bind; [|intros ?]
    | apply framed_try_catch; [|intros ?]
    | match goal with
      | |- framed (match ?x with _ => _ end) => destruct x
      | |- framed (if ?b then _ else _) => destruct b
      end ].

Ltac framed_auto := repeat framed_step.

Lemma framed_update_company_status slug status : framed (update_company_status slug status).
Proof. unfold update_company_status. framed_auto. Qed.

Lemma framed_list_milestones slug : framed (list_milestones slug).
Proof. unfold list_milestones. framed_auto. Qed.

Lemma framed_update_milestone milestone_id status notes :
  framed (update_milestone milestone_id status notes).
Proof. unfold update_milestone. framed_auto. Qed.

Lemma framed_add_milestone slug title due_date : framed (add_milestone slug title due_date).
Proof. unfold add_milestone. framed_auto. Qed.

Lemma framed_add_note slug content type : framed (add_note slug content type).
Proof. unfold add_note. framed_auto. Qed.

Lemma framed_get_recent_activity slug limit_arg : framed (get_recent_activity slug limit_arg).
Proof. unfold get_recent_activity. framed_auto. Qed.

Lemma framed_update_requirement slug item status : framed (update_requirement slug item status).
Proof. unfold update_requirement. framed_auto. Qed.

Lemma framed_add_requirement slug item status : framed (add_requirement slug item status).
Proof. unfold add_requirement. framed_auto. Qed.

Lemma framed_list_documents slug : framed (list_documents slug).
Proof. unfold list_documents. framed_auto. Qed.

Lemma framed_add_document slug name type url notes :
  framed (add_document slug name type url notes).
Proof. unfold add_document. framed_auto. Qed.

Lemma framed_add_contact slug name role email phone :
  framed (add_contact slug name role email phone).
Proof. unfold add_contact. framed_auto. Qed.

Lemma framed_list_contacts slug : framed (list_contacts slug).
Proof. unfold list_contacts. framed_auto. Qed.

Lemma framed_get_portfolio_summary : framed get_portfolio_summary.
Proof. unfold get_portfolio_summary. framed_auto. Qed.

Lemma framed_update_dev_task task_id status assigned_to priority :
  framed (update_dev_task task_id status assigned_to priority).
Proof. unfold update_dev_task. framed_auto. Qed.

Lemma framed_get_document_content document_id : framed (get_document_content document_id).
Proof. unfold get_document_content. framed_auto. Qed.

Lemma framed_get_deployment slug deployment_id : framed (get_deployment slug deployment_id).
Proof. unfold get_deployment. framed_auto. Qed.

Lemma consistent_same w w' :
  tables w' = tables w -> next_id w' = next_id w -> consistent w -> consistent w'.
Proof.
  intros Ht Hn. apply consistent_frame. unfold frame. rewrite Ht, Hn. repeat split. lia.
Qed.

Lemma preserves_bind {A B} (m : async A) (k : A -> async B) :
  preserves m -> (forall a, preserves (k a)) -> preserves (bind m k).
Proof.
  intros Hm Hk w Hw. unfold bind. specialize (Hm w Hw).
  destruct (m w) as [[a|e] w1]; [|exact Hm]. by apply Hk.
Qed.

Lemma preserves_try_catch {A} (body : async A) (handler : string -> async A) :
  preserves body -> (forall e, preserves (handler e)) -> preserves (try_catch body handler).
Proof.
  intros Hm Hk w Hw. unfold try_catch. specialize (Hm w Hw).
  destruct (body w) as [[a|e] w1]; [exact Hm|]. by apply Hk.
Qed.

Lemma preserves_request {A} (perform : world -> reply A * world) :
  (forall w, consistent w -> consistent (snd (perform w))) -> preserves (request perform).
Proof.
  intros H w Hw. unfold request. destruct (outages w) as [|[e|] rest].
  - specialize (H w Hw). by destruct (perform w).
  - by apply (consistent_same w).
  - assert (Hw' : consistent (set_outages rest w)) by by apply (consistent_same w).
    specialize (H _ Hw'). by destruct (perform (set_outages rest w)).
Qed.

Lemma filter_fmap_same (p : row -> bool) (g : row -> row) (l : list row) :
  (forall x, p (g x) = p x) -> List.filter p (g <$> l) = g <$> List.filter p l.
Proof.
  intros H. induction l as [|x l IH]; [done|]. cbn [fmap list_fmap List.filter] in *.
  rewrite H. destruct (p x); cbn [fmap list_fmap]; by rewrite IH.
Qed.

Lemma filter_filter_implied (p q : row -> bool) (l : list row) :
  (forall x, x ∈ l -> p x = true -> q x = true) ->
  List.filter p (List.filter q l) = List.filter p l.
Proof.
  induction l as [|x l IH]; intros H; [done|]. cbn [List.filter].
  assert (Hl : forall y, y ∈ l -> p y = true -> q y = true)
    by (intros y Hy; apply H; by apply list_elem_of_further).
  destruct (q x) eqn:Hq; cbn [List.filter].
  - destruct (p x); by rewrite IH.
  - destruct (p x) eqn:Hp; [|by apply IH].
    rewrite (H x) in Hq by (done || apply list_elem_of_here). discriminate.
Qed.

Lemma column_patched (patch x : row) key :
  patch !! key = None -> column key (patch ∪ x) = column key x.
Proof. intros H. unfold column. by rewrite lookup_patched, H. Qed.

Lemma selected_one (f : criterion) (r : row) : selected [f] r = matches r f.
Proof. unfold selected. cbn [forallb]. apply andb_true_r. Qed.

(** Patching deployments without touching their id. *)
Lemma consistent_deployments_patched patch filters w :
  patch !! "id" = None -> consistent w ->
  consistent (set_tables
                (<["deployments" := (fun x => if selected filters x then patch ∪ x else x)
                                      <$> table "deployments" (tables w)]> (tables w)) w).
Proof.
  intros Hp [[Hids Hrefs] Hfour].
  set (g := fun x : row => if selected filters x then patch ∪ x else x).
  assert (Hg : forall x, x !! "id" = g x !! "id").
  { intros x. unfold g. destruct (selected filters x); [|done]. by rewrite lookup_patched, Hp. }
  split; [split|].
  - intros d' Hin. cbn [tables set_tables] in Hin. rewrite table_insert_eq in Hin.
    apply list_elem_of_fmap in Hin as (d & -> & Hin). rewrite <- Hg. by apply Hids.
  - intros c Hin. cbn [tables set_tables] in Hin. rewrite table_insert_ne in Hin by done.
    by apply Hrefs.
  - intros d' Hin. cbn [tables set_tables] in Hin. rewrite table_insert_eq in Hin.
    apply list_elem_of_fmap in Hin as (d & -> & Hin).
    unfold components_of, rows_of, column in *. cbn [tables set_tables].
    rewrite table_insert_ne by done. rewrite <- Hg. by apply Hfour.
Qed.

(** Patching components without touching their deployment or their type. *)
Lemma consistent_components_patched patch filters w :
  patch !! "deployment_id" = None -> patch !! "component_type" = None -> consistent w ->
  consistent (set_tables
                (<["deployment_components" :=
                     (fun x => if selected filters x then patch ∪ x else x)
                       <$> table "deployment_components" (tables w)]> (tables w)) w).
Proof.
  intros Hp1 Hp2 [[Hids Hrefs] Hfour].
  set (g := fun x : row => if selected filters x then patch ∪ x else x).
  assert (Hg : forall x key, patch !! key = None -> g x !! key = x !! key).
  { intros x key Hk. unfold g. destruct (selected filters x); [|done].
    by rewrite lookup_patched, Hk. }
  split; [split|].
  - intros d Hin. cbn [tables set_tables] in Hin. rewrite table_insert_ne in Hin by done.
    by apply Hids.
  - intros c' Hin. cbn [tables set_tables] in Hin. rewrite table_insert_eq in Hin.
    apply list_elem_of_fmap in Hin as (c & -> & Hin). rewrite Hg by done. by apply Hrefs.
  - intros d Hin. cbn [tables set_tables] in Hin. rewrite table_insert_ne in Hin by done.
    unfold components_of, rows_of. cbn [tables set_tables]. rewrite table_insert_eq.
    rewrite filter_fmap_same.
    + destruct (Hfour d Hin) as [H|H]; unfold components_of, rows_of in H.
      * left. rewrite <- H, <- list_fmap_compose. apply list_fmap_ext.
        intros i x _. unfold column. cbn. by rewrite Hg.
      * right. by rewrite H.
    + intros x. rewrite !selected_one. unfold matches. by rewrite Hg.
Qed.

Lemma consistent_update_rows name patch filters w :
  (name = "deployments" -> patch !! "id" = None) ->
  (name = "deployment_components" ->
   patch !! "deployment_id" = None /\ patch !! "component_type" = None) ->
  consistent w -> consistent (snd (update_rows name patch filters w)).
Proof.
  intros Hd Hc Hw. unfold update_rows. destruct (_ && _); [|exact Hw]. cbn [snd].
  destruct (decide (name = "deployments")) as [->|H1].
  { by apply consistent_deployments_patched; [apply Hd|]. }
  destruct (decide (name = "deployment_components")) as [->|H2].
  { destruct (Hc eq_refl). by apply consistent_components_patched. }
  eapply consistent_frame; [|exact Hw].
  repeat split; cbn; rewrite ?table_insert_ne by done; try done; lia.
Qed.

Lemma preserves_update name patch filters :
  (name = "deployments" -> patch !! "id" = None) ->
  (name = "deployment_components" ->
   patch !! "deployment_id" = None /\ patch !! "component_type" = None) ->
  preserves (update name patch filters).
Proof. intros. apply preserves_request. intros w. by apply consistent_update_rows. Qed.

Lemma preserves_update_single name patch filters :
  (name = "deployments" -> patch !! "id" = None) ->
  (name = "deployment_components" ->
   patch !! "deployment_id" = None /\ patch !! "component_type" = None) ->
  preserves (update_single name patch filters).
Proof.
  intros Hd Hc. apply preserves_request. intros w Hw.
  pose proof (consistent_update_rows name patch filters w Hd Hc Hw) as H.
  destruct (update_rows name patch filters w) as [r w']. cbn [snd] in H.
  by destruct (error (single r)).
Qed.

Lemma preserves_update_deployment deployment_id name description status :
  preserves (update_deployment deployment_id name description status).
Proof.
  unfold update_deployment.
  apply preserves_bind; [apply framed_preserves, framed_Date_now|]. intros t.
  apply preserves_bind; [|intros r; apply framed_preserves; framed_auto].
  apply preserves_update_single; [intros _|discriminate].
  unfold with_field, str, truthy.
  destruct name as [n|], description as [d|], status as [s|]; cbn [fmap option_fmap option_map];
    repeat match goal with
           | |- context [negb (String.eqb ?x "")] => destruct (negb (String.eqb x ""))
           end;
    rewrite ?lookup_insert_ne by done; reflexivity.
Qed.

Lemma preserves_bind_with {A B} (Q : A -> Prop) (m : async A) (k : A -> async B) :
  preserves m -> (forall w a w1, m w = (Returned a, w1) -> Q a) ->
  (forall a, Q a -> preserves (k a)) -> preserves (bind m k).
Proof.
  intros Hm HQ Hk w Hw. unfold bind. specialize (Hm w Hw). specialize (HQ w).
  destruct (m w) as [[a|e] w1]; [|exact Hm]. apply Hk; [by eapply HQ|exact Hm].
Qed.

Lemma preserves_update_deployment_component deployment_id component status url config :
  preserves (update_deployment_component deployment_id component status url config).
Proof.
  unfold update_deployment_component.
  apply preserves_bind; [apply framed_preserves, framed_Date_now|]. intros t.
  set (updates2 := with_field "url" url _).
  assert (Hbase : updates2 !! "deployment_id" = None /\ updates2 !! "component_type" = None).
  { subst updates2. unfold with_field, str, truthy.
    destruct status as [s|], url as [u|]; cbn [fmap option_fmap option_map];
      repeat match goal with
             | |- context [negb (String.eqb ?x "")] => destruct (negb (String.eqb x ""))
             end;
      split; rewrite ?lookup_insert_ne by done; reflexivity. }
  apply (preserves_bind_with
           (fun a : row => a !! "deployment_id" = None /\ a !! "component_type" = None)).
  - destruct config as [config|]; apply framed_preserves; framed_auto.
  - intros w a w1. destruct config as [config|].
    + unfold bind. destruct (select_single _ _ _ w) as [[existing|e] w2]; [|discriminate].
      unfold ret. intros [= <- _]. rewrite !lookup_insert_ne by done. exact Hbase.
    + unfold ret. by intros [= <- _].
  - intros updates3 [H1 H2].
    apply preserves_bind; [|intros r; apply framed_preserves; framed_auto].
    by apply preserves_update_single; [discriminate|intros _].
Qed.

Lemma preserves_check_component comp results : preserves (check_component comp results).
Proof.
  assert (Hpatch : forall s t e u,
            ({[ "status" := s; "last_checked" := t; "error_message" := e;
                "updated_at" := u ]} : row) !! "deployment_id" = None /\
            ({[ "status" := s; "last_checked" := t; "error_message" := e;
                "updated_at" := u ]} : row) !! "component_type" = None).
  { intros. split; rewrite ?lookup_insert_ne by done; reflexivity. }
  unfold check_component.
  destruct (field_string "url" comp) as [[|c u]|];
    [apply framed_preserves, framed_ret| |apply framed_preserves, framed_ret].
  apply preserves_try_catch.
  - apply preserves_bind; [apply framed_preserves, framed_fetch|]. intros response.
    apply preserves_bind; [apply framed_preserves, framed_Date_now|]. intros t.
    apply preserves_bind; [apply framed_preserves, framed_Date_now|]. intros t'.
    apply preserves_bind; [|intros; apply framed_preserves, framed_ret].
    apply preserves_update; [discriminate | intros _; apply Hpatch].
  - intros e.
    apply preserves_bind; [apply framed_preserves, framed_Date_now|]. intros t.
    apply preserves_bind; [apply framed_preserves, framed_Date_now|]. intros t'.
    apply preserves_bind; [|intros; apply framed_preserves, framed_ret].
    apply preserves_update; [discriminate | intros _; apply Hpatch].
Qed.

Lemma preserves_check_components components : forall results,
  preserves (check_components components results).
Proof.
  induction components as [|comp rest IH]; intros results; cbn [check_components].
  - apply framed_preserves, framed_ret.
  - apply preserves_bind; [apply preserves_check_component | intros; apply IH].
Qed.

Lemma preserves_check_deployment_health deployment_id :
  preserves (check_deployment_health deployment_id).
Proof.
  unfold check_deployment_health.
  apply preserves_bind; [apply framed_preserves, framed_select|]. intros r.
  apply preserves_bind; [apply framed_preserves, framed_rethrow|]. intros _.
  apply preserves_bind; [apply preserves_check_components|].
  intros; apply framed_preserves, framed_ret.
Qed.

(** Deleting deployments takes the components that reference them. *)
Lemma cascade_deployments gone (db : gmap string (list row)) :
  cascade "deployments" gone db
  = <["deployment_components" :=
        List.filter (fun r => negb (refers_to "deployment_id" gone r))
          (table "deployment_components" db)]> db.
Proof. reflexivity. Qed.

Lemma consistent_deleted v w :
  consistent w ->
  let gone := rows_of "deployments" [Eq "id" v] w in
  let kept := List.filter (fun r => negb (selected [Eq "id" v] r))
                (table "deployments" (tables w)) in
  consistent (set_tables (cascade "deployments" gone (<["deployments" := kept]> (tables w))) w).
Proof.
  intros [[Hids Hrefs] Hfour] gone kept. rewrite cascade_deployments.
  rewrite table_insert_ne by done.
  assert (Hkept : forall d, d ∈ kept ->
            d ∈ table "deployments" (tables w) /\ selected [Eq "id" v] d = false).
  { intros d Hd. apply list_elem_of_In, filter_In in Hd as [Hd Hs].
    split; [by apply list_elem_of_In|]. by apply negb_true_iff. }
  split; [split|].
  - intros d Hd. cbn [tables set_tables next_id] in *.
    rewrite table_insert_ne, table_insert_eq in Hd by done.
    apply Hids, Hkept, Hd.
  - intros c Hc. cbn [tables set_tables next_id] in *. rewrite table_insert_eq in Hc.
    apply list_elem_of_In, filter_In in Hc as [Hc _]. by apply Hrefs, list_elem_of_In.
  - intros d Hd. cbn [tables set_tables] in Hd.
    rewrite table_insert_ne, table_insert_eq in Hd by done.
    destruct (Hkept d Hd) as [Hin Hsel].
    unfold components_of, rows_of. cbn [tables set_tables]. rewrite table_insert_eq.
    rewrite filter_filter_implied; [by apply Hfour|].
    intros c Hc Hmatch. apply negb_true_iff. unfold refers_to.
    apply not_true_iff_false. intros (g & Hg & Href)%existsb_exists.
    subst gone. unfold rows_of in Hg. apply filter_In in Hg as [Hg Hgsel].
    apply list_elem_of_In in Hg.
    destruct (Hids d Hin) as (kd & Hkd & _). destruct (Hids g Hg) as (kg & Hkg & _).
    destruct (Hrefs c Hc) as (kc & Hkc & _).
    rewrite selected_one in Hmatch, Hsel, Hgsel. unfold matches, column in *.
    rewrite Hkc, ?Hkd, ?Hkg in *. cbn [default json_eqb] in *.
    apply String.eqb_eq in Hmatch, Href. rewrite <- Href, Hmatch in Hgsel. congruence.
Qed.

Lemma preserves_delete_deployment deployment_id : preserves (delete_deployment deployment_id).
Proof.
  unfold delete_deployment.
  apply preserves_bind; [|intros r; apply framed_preserves; framed_auto].
  unfold delete_from. apply preserves_request. intros w Hw. cbn [snd].
  by apply consistent_deleted.
Qed.

Lemma json_eqb_str_r x s : json_eqb x (JStr s) = true -> x = JStr s.
Proof. destruct x; cbn; try discriminate. by intros ->%String.eqb_eq. Qed.

Lemma stamp_components w i (r : row) key :
  key <> "id" -> stamp "deployment_components" w i r !! key = r !! key.
Proof.
  intros H. unfold stamp. rewrite lookup_insert_ne by done.
  change (column_defaults "deployment_components" (now w)) with (∅ : row).
  by rewrite (right_id ∅ (∪)).
Qed.

Lemma fmap_imap_same {A B} (h : A -> B) (f : nat -> A -> A) (l : list A) :
  (forall i x, h (f i x) = h x) -> h <$> imap f l = h <$> l.
Proof.
  revert f. induction l as [|x l IH]; intros f H; [done|].
  cbn [imap fmap list_fmap]. rewrite H. f_equal. apply IH. intros i y. apply H.
Qed.

(** A new deployment row: the store issues its id, and nothing references
    it yet. *)
Lemma insert_single_deployment new w :
  consistent w ->
  exists r w1, insert_single "deployments" new w = (Returned r, w1) /\
    consistent w1 /\
    forall d, data r = Some d ->
      exists k, d !! "id" = Some (JStr (pretty k)) /\ (k < next_id w1)%N /\
        d ∈ table "deployments" (tables w1) /\ d !! "slug" = new !! "slug" /\
        forall c, c ∈ table "deployment_components" (tables w1) ->
          matches c (Eq "deployment_id" (JStr (pretty k))) = false.
Proof.
  assert (Hgen : forall w0, consistent w0 ->
            exists r w1,
              (let (r, w') := insert_rows "deployments" [new] w0 in
               match error (single r) with
               | None => (single r, w')
               | Some _ => (single r, w0)
               end) = (r, w1) /\
              consistent w1 /\
              forall d, data r = Some d ->
                exists k, d !! "id" = Some (JStr (pretty k)) /\ (k < next_id w1)%N /\
                  d ∈ table "deployments" (tables w1) /\ d !! "slug" = new !! "slug" /\
                  forall c, c ∈ table "deployment_components" (tables w1) ->
                    matches c (Eq "deployment_id" (JStr (pretty k))) = false).
  { intros w0 Hw0. unfold insert_rows. cbn [imap length].
    set (d := stamp "deployments" w0 0 new).
    destruct (_ && _); cbn [single error data];
      [|do 2 eexists; split; [reflexivity|]; split; [exact Hw0|]; intros ? [=]].
    do 2 eexists. split; [reflexivity|].
    destruct Hw0 as [[Hids Hrefs] Hfour].
    assert (Hd : d !! "id" = Some (JStr (pretty (next_id w0)))).
    { subst d. unfold stamp. rewrite lookup_insert_eq. do 3 f_equal. lia. }
    assert (Hfree : forall c, c ∈ table "deployment_components" (tables w0) ->
              matches c (Eq "deployment_id" (JStr (pretty (next_id w0)))) = false).
    { intros c Hc. destruct (Hrefs c Hc) as (k & Hk & Hlt). unfold matches. rewrite Hk.
      cbn [json_eqb]. apply String.eqb_neq. intros Heq%(inj pretty). lia. }
    split; [split; [split|]|].
    - intros x Hx. cbn [tables set_tables set_next_id next_id] in *.
      rewrite table_insert_eq in Hx. apply elem_of_app in Hx as [Hx|Hx].
      + destruct (Hids x Hx) as (k & Hk & Hlt). exists k. split; [done|lia].
      + apply list_elem_of_singleton in Hx as ->. eexists. split; [exact Hd|lia].
    - intros c Hc. cbn [tables set_tables set_next_id next_id] in *.
      rewrite table_insert_ne in Hc by done.
      destruct (Hrefs c Hc) as (k & Hk & Hlt). exists k. split; [done|lia].
    - intros x Hx. cbn [tables set_tables set_next_id] in Hx.
      rewrite table_insert_eq in Hx.
      unfold components_of, rows_of. cbn [tables set_tables set_next_id].
      rewrite table_insert_ne by done.
      apply elem_of_app in Hx as [Hx|Hx]; [by apply Hfour|].
      apply list_elem_of_singleton in Hx as ->. right.
      unfold column. rewrite Hd. cbn [default].
      induction (table "deployment_components" (tables w0)) as [|c l IH]; [done|].
      cbn [List.filter]. rewrite selected_one, Hfree by apply list_elem_of_here.
      apply IH. intros c' Hc'. apply Hrefs. by apply list_elem_of_further.
      intros c' Hc'. apply Hfree. by apply list_elem_of_further.
    - intros x [= <-]. exists (next_id w0). split; [exact Hd|].
      cbn [tables set_tables set_next_id next_id]. split; [lia|].
      rewrite table_insert_eq. split; [apply elem_of_app; right; apply list_elem_of_here|].
      split.
      + subst d. unfold stamp. rewrite lookup_insert_ne by done.
        change (column_defaults "deployments" (now w0)) with (∅ : row).
        by rewrite (right_id ∅ (∪)).
      + rewrite table_insert_ne by done. exact Hfree. }
  intros Hw. unfold insert_single, request.
  destruct (outages w) as [|[e|] rest].
  - destruct (Hgen w Hw) as (r & w1 & He & H).
    destruct (insert_rows "deployments" [new] w). rewrite He. eauto.
  - do 2 eexists. split; [reflexivity|]. split; [by apply (consistent_same w)|].
    intros ? [=].
  - assert (Hw' : consistent (set_outages rest w)) by by apply (consistent_same w).
    destruct (Hgen _ Hw') as (r & w1 & He & H).
    destruct (insert_rows "deployments" [new] (set_outages rest w)). rewrite He. eauto.
Qed.

Lemma filter_none (p : row -> bool) (l : list row) :
  (forall x, x ∈ l -> p x = false) -> List.filter p l = [].
Proof.
  induction l as [|x l IH]; intros H; [done|]. cbn [List.filter].
  rewrite H by apply list_elem_of_here. apply IH. intros y Hy. apply H.
  by apply list_elem_of_further.
Qed.

Lemma filter_all (p : row -> bool) (l : list row) :
  (forall x, x ∈ l -> p x = true) -> List.filter p l = l.
Proof.
  induction l as [|x l IH]; intros H; [done|]. cbn [List.filter].
  rewrite H by apply list_elem_of_here. f_equal. apply IH. intros y Hy. apply H.
  by apply list_elem_of_further.
Qed.

(** The four components of a deployment nothing references yet: when the
    store accepts them, they are the components of that deployment. *)
Lemma consistent_insert_components new k w :
  consistent w -> (k < next_id w)%N ->
  (forall c, c ∈ table "deployment_components" (tables w) ->
     matches c (Eq "deployment_id" (JStr (pretty k))) = false) ->
  (forall c, c ∈ new -> c !! "deployment_id" = Some (JStr (pretty k))) ->
  column "component_type" <$> new = four_types ->
  let after := insert_rows "deployment_components" new w in
  consistent (snd after) /\
  table "deployments" (tables (snd after)) = table "deployments" (tables w) /\
  (error (fst after) = None ->
   column "component_type" <$>
     rows_of "deployment_components" [Eq "deployment_id" (JStr (pretty k))] (snd after)
   = four_types).
Proof.
  intros [[Hids Hrefs] Hfour] Hk Hfree Hnew Htypes. unfold insert_rows.
  set (stamped := imap (stamp "deployment_components" w) new).
  destruct (_ && _); cbn [fst snd error]; [|by repeat split].
  assert (Hstamped : forall c, c ∈ stamped -> c !! "deployment_id" = Some (JStr (pretty k))).
  { intros c Hc. subst stamped. apply elem_of_lookup_imap in Hc as (i & x & -> & Hx).
    rewrite stamp_components by done. apply Hnew. by eapply list_elem_of_lookup_2. }
  assert (Hstypes : column "component_type" <$> stamped = four_types).
  { rewrite <- Htypes. subst stamped. apply fmap_imap_same. intros i x. unfold column.
    by rewrite stamp_components. }
  assert (Hmine : List.filter (selected [Eq "deployment_id" (JStr (pretty k))])
                    (table "deployment_components" (tables w) ++ stamped) = stamped).
  { rewrite List.filter_app, filter_none, filter_all; [done| |].
    - intros c Hc. rewrite selected_one. unfold matches. rewrite (Hstamped c Hc).
      apply String.eqb_refl.
    - intros c Hc. rewrite selected_one. by apply Hfree. }
  split; [split; [split|]|split].
  - intros d Hd. cbn [tables set_tables set_next_id next_id] in *.
    rewrite table_insert_ne in Hd by done.
    destruct (Hids d Hd) as (kd & Hkd & Hlt). exists kd. split; [done|lia].
  - intros c Hc. cbn [tables set_tables set_next_id next_id] in *.
    rewrite table_insert_eq in Hc. apply elem_of_app in Hc as [Hc|Hc].
    + destruct (Hrefs c Hc) as (kc & Hkc & Hlt). exists kc. split; [done|lia].
    + exists k. split; [by apply Hstamped|lia].
  - intros d Hd. cbn [tables set_tables set_next_id] in Hd.
    rewrite table_insert_ne in Hd by done.
    unfold components_of, rows_of. cbn [tables set_tables set_next_id].
    rewrite table_insert_eq.
    destruct (Hids d Hd) as (kd & Hkd & _).
    assert (Hcol : column "id" d = JStr (pretty kd)) by (unfold column; by rewrite Hkd).
    rewrite Hcol.
    destruct (decide (kd = k)) as [->|Hne].
    + left. by rewrite Hmine.
    + rewrite List.filter_app, (filter_none _ stamped), app_nil_r.
      * specialize (Hfour d Hd). unfold components_of, rows_of in Hfour.
        by rewrite Hcol in Hfour.
      * intros c Hc. rewrite selected_one. unfold matches. rewrite (Hstamped c Hc).
        cbn [json_eqb]. apply String.eqb_neq. intros Heq%(inj pretty). congruence.
  - cbn [tables set_tables set_next_id]. by rewrite table_insert_ne.
  - intros _. unfold rows_of. cbn [tables set_tables set_next_id].
    by rewrite table_insert_eq, Hmine.
Qed.

Lemma insert_components new k w :
  consistent w -> (k < next_id w)%N ->
  (forall c, c ∈ table "deployment_components" (tables w) ->
     matches c (Eq "deployment_id" (JStr (pretty k))) = false) ->
  (forall c, c ∈ new -> c !! "deployment_id" = Some (JStr (pretty k))) ->
  column "component_type" <$> new = four_types ->
  exists r w1, insert "deployment_components" new w = (Returned r, w1) /\
    consistent w1 /\
    table "deployments" (tables w1) = table "deployments" (tables w) /\
    (error r = None ->
     column "component_type" <$>
       rows_of "deployment_components" [Eq "deployment_id" (JStr (pretty k))] w1
     = four_types).
Proof.
  intros Hw Hk Hfree Hnew Htypes. unfold insert, request.
  destruct (outages w) as [|[e|] rest].
  - pose proof (consistent_insert_components new k w Hw Hk Hfree Hnew Htypes) as H.
    cbv zeta in H. destruct (insert_rows "deployment_components" new w). eauto.
  - do 2 eexists. split; [reflexivity|]. split; [by apply (consistent_same w)|].
    split; [reflexivity|]. intros [=].
  - assert (Hw' : consistent (set_outages rest w)) by by apply (consistent_same w).
    pose proof (consistent_insert_components new k (set_outages rest w) Hw' Hk Hfree
                  Hnew Htypes) as H.
    cbv zeta in H. destruct (insert_rows "deployment_components" new (set_outages rest w)).
    eauto.
Qed.

Lemma with_field_other key value (base : row) other :
  other <> key -> with_field key value base !! other = base !! other.
Proof. intros H. unfold with_field. destruct value; [by rewrite lookup_insert_ne|done]. Qed.

(** The rows add_deployment builds reference the deployment and carry the
    four types. *)
Lemma new_components_reference (id : json) u1 u2 u3 s1 s2 s3 s4 c1 c2 c3 c4 (x : row) :
  x ∈ [ with_field "url" u1
          ({[ "deployment_id" := id; "component_type" := JStr "github";
              "status" := s1; "config" := c1 ]} : row);
        with_field "url" u2
          {[ "deployment_id" := id; "component_type" := JStr "frontend";
             "status" := s2; "config" := c2 ]};
        with_field "url" u3
          {[ "deployment_id" := id; "component_type" := JStr "mcp_server";
             "status" := s3; "config" := c3 ]};
        {[ "deployment_id" := id; "component_type" := JStr "database";
           "status" := s4; "url" := JNull; "config" := c4 ]} ] ->
  x !! "deployment_id" = Some id.
Proof.
  intros Hx.
  repeat (apply elem_of_cons in Hx as [->|Hx];
          [rewrite ?with_field_other by done; apply lookup_insert_eq|]).
  by apply elem_of_nil in Hx.
Qed.

Lemma new_components_types (id : json) u1 u2 u3 s1 s2 s3 s4 c1 c2 c3 c4 :
  column "component_type" <$>
    [ with_field "url" u1
        ({[ "deployment_id" := id; "component_type" := JStr "github";
            "status" := s1; "config" := c1 ]} : row);
      with_field "url" u2
        {[ "deployment_id" := id; "component_type" := JStr "frontend";
           "status" := s2; "config" := c2 ]};
      with_field "url" u3
        {[ "deployment_id" := id; "component_type" := JStr "mcp_server";
           "status" := s3; "config" := c3 ]};
      {[ "deployment_id" := id; "component_type" := JStr "database";
         "status" := s4; "url" := JNull; "config" := c4 ]} ]
  = four_types.
Proof.
  cbn [fmap list_fmap]. unfold column. rewrite !with_field_other by done.
  rewrite !lookup_insert_ne by done. rewrite !lookup_insert_eq. reflexivity.
Qed.

(** add_deployment keeps the store consistent, and when it returns, the
    deployment it created has its four components. *)
Ltac failed H :=
  try (erewrite bind_thrown by reflexivity); cbn [throw fst snd];
  split; [exact H | intros ? [=]].

Lemma add_deployment_outcome
    name description github_url frontend_url mcp_server_url database_type
    database_provider w :
  consistent w ->
  let after := add_deployment (Some name) description github_url frontend_url
                 mcp_server_url database_type database_provider w in
  consistent (snd after) /\
  forall v, fst after = Returned v ->
    exists d, d ∈ table "deployments" (tables (snd after)) /\
      d !! "slug" = Some (JStr (derive_slug name)) /\
      column "component_type" <$> components_of d (snd after) = four_types.
Proof.
  intros Hw after. subst after. unfold add_deployment.
  pose proof (framed_preserves _ (framed_select_single "deployments" (Some ["id"])
                [Eq "slug" (JStr (derive_slug name))]) w Hw) as Hw1.
  destruct (select_single "deployments" (Some ["id"]) [Eq "slug" (JStr (derive_slug name))] w)
    as [[existing|e] w1] eqn:Hs; cbn [snd] in Hw1;
    [erewrite bind_returned by exact Hs
    | erewrite bind_thrown by exact Hs; split; [exact Hw1|intros ? [=]]].
  destruct (data existing); [failed Hw1|].
  match goal with
  | |- context [insert_single "deployments" ?new] =>
      destruct (insert_single_deployment new w1 Hw1) as (r & w2 & Hi & Hw2 & Hnew)
  end.
  erewrite bind_returned by exact Hi.
  unfold rethrow. destruct (error r); [failed Hw2|].
  erewrite bind_returned by reflexivity.
  destruct (data r) as [deployment|]; [|failed Hw2].
  destruct (Hnew deployment eq_refl) as (k & Hid & Hk & Hin & Hslug & Hfree).
  assert (Hcol : column "id" deployment = JStr (pretty k)) by (unfold column; by rewrite Hid).
  rewrite Hcol.
  match goal with
  | |- context [insert "deployment_components" ?rows] =>
      destruct (insert_components rows k w2 Hw2 Hk Hfree)
        as (c & w3 & Hc & Hw3 & Hsame & Hfour);
      [apply new_components_reference | apply new_components_types |]
  end.
  erewrite bind_returned by exact Hc.
  unfold rethrow. destruct (error c); [failed Hw3|].
  erewrite bind_returned by reflexivity.
  pose proof (framed_get_deployment None (field_string "id" deployment) w3)
    as (Hd & Hc' & _).
  split; [by apply (framed_preserves _ (framed_get_deployment _ _))|].
  intros v _. exists deployment. split; [by rewrite Hd, Hsame|]. split.
  - rewrite Hslug. unfold with_field, str.
    destruct description; cbn [fmap option_fmap option_map];
      rewrite ?lookup_insert_ne by done; apply lookup_insert_eq.
  - unfold components_of, rows_of in *. rewrite Hc', Hcol. by apply Hfour.
Qed.

Lemma preserves_add_deployment
    name description github_url frontend_url mcp_server_url database_type
    database_provider :
  preserves (add_deployment name description github_url frontend_url mcp_server_url
               database_type database_provider).
Proof.
  intros w Hw. destruct name as [name|]; [|exact Hw].
  by apply add_deployment_outcome.
Qed.

(** Every handler of the table keeps the store consistent. *)
Ltac next_handler H :=
  apply elem_of_cons in H as [H|H]; [injection H as _ ->; cbv beta|].

Ltac with_arguments lemma :=
  apply preserves_bind; [apply framed_preserves, framed_destructure | intros ?; apply lemma].

Ltac reading lemma :=
  apply preserves_bind;
  [apply framed_preserves, framed_destructure | intros ?; apply framed_preserves, lemma].

Lemma handlers_preserve name h input : handlers !! name = Some h -> preserves (h input).
Proof.
  intros H. unfold handlers in H. apply elem_of_list_to_map_2 in H.
  next_handler H; [reading framed_update_company_status|].
  next_handler H; [reading framed_list_milestones|].
  next_handler H; [reading framed_update_milestone|].
  next_handler H; [reading framed_add_milestone|].
  next_handler H; [reading framed_add_note|].
  next_handler H; [reading framed_get_recent_activity|].
  next_handler H; [reading framed_update_requirement|].
  next_handler H; [reading framed_add_requirement|].
  next_handler H; [reading framed_list_documents|].
  next_handler H; [reading framed_add_document|].
  next_handler H; [reading framed_add_contact|].
  next_handler H; [reading framed_list_contacts|].
  next_handler H; [apply framed_preserves, framed_get_portfolio_summary|].
  next_handler H; [reading framed_update_dev_task|].
  next_handler H; [reading framed_get_document_content|].
  next_handler H; [reading framed_get_deployment|].
  next_handler H; [with_arguments preserves_add_deployment|].
  next_handler H; [with_arguments preserves_update_deployment|].
  next_handler H; [with_arguments preserves_update_deployment_component|].
  next_handler H; [with_arguments preserves_delete_deployment|].
  next_handler H; [with_arguments preserves_check_deployment_health|].
  by apply elem_of_nil in H.
Qed.

Lemma reachable_consistent w : reachable w -> consistent w.
Proof.
  induction 1 as [w Hd Hc | w name h input _ IH Hh | w w' _ IH Hf].
  - split; [split|]; intros x Hx; rewrite ?Hd, ?Hc in Hx; by apply elem_of_nil in Hx.
  - by apply (handlers_preserve name h input Hh).
  - by apply (consistent_frame w).
Qed.

(** Deleting a deployment removes it and the components that reference
    it. *)
Lemma delete_deployment_cascades id g w :
  answers w ->
  g ∈ rows_of "deployments" [Eq "id" (JStr id)] w ->
  let w' := snd (delete_deployment (Some id) w) in
  rows_of "deployments" [Eq "id" (JStr id)] w' = [] /\ components_of g w' = [].
Proof.
  intros Ha Hg.
  assert (Hgen : forall w0, tables w0 = tables w ->
            let w' := set_tables
                        (cascade "deployments" (rows_of "deployments" [Eq "id" (JStr id)] w0)
                           (<["deployments" :=
                                List.filter (fun r => negb (selected [Eq "id" (JStr id)] r))
                                  (table "deployments" (tables w0))]> (tables w0))) w0 in
            rows_of "deployments" [Eq "id" (JStr id)] w' = [] /\ components_of g w' = []).
  { intros w0 Ht w'. subst w'. unfold components_of, rows_of. rewrite Ht.
    rewrite cascade_deployments. cbn [tables set_tables].
    rewrite table_insert_ne, !table_insert_eq by done. split.
    - apply filter_none. intros x Hx. apply list_elem_of_In, filter_In in Hx as [_ Hx].
      by apply negb_true_iff.
    - rewrite table_insert_ne by done. apply filter_none. intros x Hx.
      apply list_elem_of_In, filter_In in Hx as [_ Hx]. apply negb_true_iff in Hx.
      rewrite selected_one. apply not_true_iff_false. intros Hm.
      apply not_true_iff_false in Hx. apply Hx. unfold refers_to.
      apply existsb_exists. exists g. split; [|exact Hm].
      by apply list_elem_of_In. }
  unfold delete_deployment, delete_from, request, bind, answers in *.
  destruct (outages w) as [|[e|] rest]; [|contradiction|]; cbn [rethrow error ret snd].
  - by apply Hgen.
  - by apply (Hgen (set_outages rest w)).
Qed.

(** The handlers outside the table leave the deployments and their
    components alone. *)
Lemma framed_insert_single name new :
  name <> "deployments" -> name <> "deployment_components" ->
  framed (insert_single name new).
Proof.
  intros H1 H2. apply framed_request. intros w.
  pose proof (frame_insert_rows name [new] w H1 H2) as H.
  destruct (insert_rows name [new] w) as [r w']. cbn [snd] in H.
  destruct (error (single r)); [apply frame_refl | exact H].
Qed.

Lemma framed_list_companies : framed list_companies.
Proof. unfold list_companies. framed_auto. Qed.

Lemma framed_list_deployments status : framed (list_deployments status).
Proof. unfold list_deployments. framed_auto. Qed.

Lemma framed_list_all_documents slug category : framed (list_all_documents slug category).
Proof. unfold list_all_documents. framed_auto. Qed.

Lemma framed_add_dev_task title description assigned_to priority steps due_date :
  framed (add_dev_task title description assigned_to priority steps due_date).
Proof.
  unfold add_dev_task. apply framed_bind; [by apply framed_insert_single|].
  intros r. framed_auto.
Qed.

Lemma framed_delete_dev_task task_id : framed (delete_dev_task task_id).
Proof.
  unfold delete_dev_task. apply framed_bind; [|intros r; framed_auto].
  apply framed_request. intros w. cbn [snd].
  change (cascade "dev_tasks" ?gone ?db) with db.
  repeat split; cbn [tables set_tables next_id]; rewrite ?table_insert_ne by done;
    try done; lia.
Qed.

Lemma framed_upload_document
    (storage_upload : string -> string -> option string -> async (option string))
    getPublicUrl slug filename content_base64 content_type category description :
  (forall path content type, framed (storage_upload path content type)) ->
  framed (upload_document storage_upload getPublicUrl slug filename content_base64
            content_type category description).
Proof.
  intros Hstorage. unfold upload_document. apply framed_bind; [framed_auto|].
  intros company_id. destruct content_base64 as [content|]; [|apply framed_throw].
  apply framed_bind; [apply Hstorage|]. intros [e|]; [apply framed_throw|].
  destruct filename as [filename|]; [|apply framed_throw].
  apply framed_bind; [by apply framed_insert_single|]. intros doc. framed_auto.
Qed.

(** C9, as the handlers have it. In every reachable state, that is after
    any calls of the handlers and any steps that write neither the
    deployments nor their components, each deployment has its four
    components, one of each fixed type, or none at all. The four are created
    right after the deployment, in one request, so that a call of
    add_deployment that returns leaves the deployment it created with
    exactly the four; a performed delete_deployment removes the deployment
    together with the components that reference it; and the handlers
    outside the table, list_companies, list_deployments, list_all_documents,
    add_dev_task, delete_dev_task and upload_document over a file storage
    that writes neither table, lead from a reachable state to a reachable
    state. *)
Theorem deployments_have_four_components_or_none (w : world) :
  reachable w ->
  four_or_none w /\
  (forall name description github_url frontend_url mcp_server_url database_type
          database_provider v,
     let after := add_deployment (Some name) description github_url frontend_url
                    mcp_server_url database_type database_provider w in
     fst after = Returned v ->
     exists d, d ∈ table "deployments" (tables (snd after)) /\
       d !! "slug" = Some (JStr (derive_slug name)) /\
       column "component_type" <$> components_of d (snd after) = four_types) /\
  (forall id g, answers w ->
     g ∈ rows_of "deployments" [Eq "id" (JStr id)] w ->
     let w' := snd (delete_deployment (Some id) w) in
     rows_of "deployments" [Eq "id" (JStr id)] w' = [] /\ components_of g w' = []) /\
  reachable (snd (list_companies w)) /\
  (forall status, reachable (snd (list_deployments status w))) /\
  (forall slug category, reachable (snd (list_all_documents slug category w))) /\
  (forall title description assigned_to priority steps due_date,
     reachable (snd (add_dev_task title description assigned_to priority steps due_date w))) /\
  (forall task_id, reachable (snd (delete_dev_task task_id w))) /\
  (forall (storage_upload : string -> string -> option string -> async (option string))
          getPublicUrl slug filename content_base64 content_type category description,
     (forall path content type, framed (storage_upload path content type)) ->
     reachable (snd (upload_document storage_upload getPublicUrl slug filename
                       content_base64 content_type category description w))).
Proof.
  intros Hw. pose proof (reachable_consistent w Hw) as Hc. split; [apply Hc|]. split.
  { intros name description github_url frontend_url mcp_server_url database_type
      database_provider v after Hv.
    destruct (add_deployment_outcome name description github_url frontend_url
                mcp_server_url database_type database_provider w Hc) as [_ Hd].
    by apply (Hd v). }
  split; [intros id g; apply delete_deployment_cascades|].
  repeat apply conj; intros; apply (reachable_elsewhere w); try exact Hw.
  - apply framed_list_companies.
  - apply framed_list_deployments.
  - apply framed_list_all_documents.
  - apply framed_add_dev_task.
  - apply framed_delete_dev_task.
  - by apply framed_upload_document.
Qed.

Lemma fresh_world_reachable : reachable fresh_world.
Proof. apply reachable_start; reflexivity. Qed.

Lemma deployments_have_four_components_or_none_witness :
  exists d,
    d ∈ table "deployments" (tables (snd (add_tracker fresh_world))) /\
    d !! "slug" = Some (JStr "tracker") /\
    column "component_type" <$> components_of d (snd (add_tracker fresh_world))
    = [JStr "github"; JStr "frontend"; JStr "mcp_server"; JStr "database"].
Proof.
  destruct (deployments_have_four_components_or_none fresh_world fresh_world_reachable)
    as (_ & Hadd & _).
  assert (Hreturned : exists v, fst (add_tracker fresh_world) = Returned v).
  { assert (H : match fst (add_tracker fresh_world) with Returned _ => true | _ => false end
                = true) by (vm_compute; reflexivity).
    destruct (fst (add_tracker fresh_world)); [eauto | discriminate]. }
  destruct Hreturned as [v Hv].
  exact (Hadd "Tracker" None (Some "https://github.example.com/tracker") None None None None
           v Hv).
Defined.

(** C9, as stated, fails: when the store fails the insert of the components,
    add_deployment throws and leaves, in a reachable state, a deployment
    without any component. *)
Lemma deployment_left_without_components :
  let w' := snd (add_tracker failing_world) in
  reachable w' /\
  fst (add_tracker failing_world) = Thrown "upstream request timeout" /\
  length (table "deployments" (tables w')) = 1%nat /\
  length (table "deployment_components" (tables w')) = 0%nat.
Proof.
  cbv zeta. split; [|repeat apply conj; vm_compute; reflexivity].
  change (snd (add_tracker failing_world))
    with (snd ((fun input =>
                  let! a := destructure "name" input in
                  add_deployment (arg "name" a) (arg "description" a) (arg "github_url" a)
                    (arg "frontend_url" a) (arg "mcp_server_url" a) (arg "database_type" a)
                    (arg "database_provider" a))
                 (Some [("name", JStr "Tracker");
                        ("github_url", JStr "https://github.example.com/tracker")])
                 failing_world)).
  apply (reachable_call failing_world "add_deployment").
  - apply reachable_start; reflexivity.
  - reflexivity.
Qed.

(** * Further properties of the handlers *)

(** ** Listings in order *)

Lemma json_leb_total a b : json_leb a b = true \/ json_leb b a = true.
Proof.
  destruct a, b; cbn; auto.
  - destruct b, b0; auto.
  - destruct (Z.leb_spec n n0); auto. right. apply Z.leb_le. lia.
  - apply String.leb_total.
Qed.

Lemma insert_sorted_perm le (r : row) l : insert_sorted le r l ≡ₚ r :: l.
Proof.
  induction l as [|x l IH]; cbn; [done|].
  destruct (le r x); [done|]. rewrite IH. apply Permutation_swap.
Qed.

Lemma order_perm key ascending rows : order key ascending rows ≡ₚ rows.
Proof.
  unfold order. induction rows as [|r rows IH]; cbn; [done|].
  rewrite insert_sorted_perm. by rewrite IH.
Qed.

Lemma insert_sorted_Sorted (le : row -> row -> bool) r l :
  (forall a b, le a b = true \/ le b a = true) ->
  Sorted (fun a b => le a b = true) l ->
  Sorted (fun a b => le a b = true) (insert_sorted le r l).
Proof.
  intros Htotal. induction 1 as [|x l Hl IH Hx]; cbn.
  - repeat constructor.
  - destruct (le r x) eqn:E.
    + constructor; [by constructor|by constructor].
    + constructor; [exact IH|].
      destruct Hx as [|y l Hxy]; cbn.
      * constructor. destruct (Htotal r x); congruence.
      * destruct (le r y); constructor; [|exact Hxy].
        destruct (Htotal r x); congruence.
Qed.

Lemma order_Sorted key rows :
  Sorted (fun a b => json_leb (column key a) (column key b) = true) (order key true rows).
Proof.
  unfold order. induction rows as [|r rows IH]; cbn; [constructor|].
  apply (insert_sorted_Sorted (fun a b => json_leb (column key a) (column key b)));
    [intros; apply json_leb_total | exact IH].
Qed.

Lemma request_reliable {A} (perform : world -> reply A * world) w :
  outages w = [] -> request perform w = (Returned (perform w).1, (perform w).2).
Proof. intros H. unfold request. rewrite H. by destruct (perform w). Qed.

Lemma lookup_project cs (r : row) key :
  project (Some cs) r !! key = if existsb (String.eqb key) cs then r !! key else None.
Proof.
  unfold project. destruct (existsb (String.eqb key) cs) eqn:E.
  - destruct (r !! key) as [v|] eqn:Hr.
    + apply map_lookup_filter_Some. split; [done|]. exact E.
    + apply map_lookup_filter_None. left. done.
  - apply map_lookup_filter_None. right. intros v _. cbn. congruence.
Qed.

Lemma column_project cs (r : row) key :
  existsb (String.eqb key) cs = true -> column key (project (Some cs) r) = column key r.
Proof. intros H. unfold column. by rewrite lookup_project, H. Qed.

(** What a single-row lookup found is the one row matching the filters. *)
Lemma select_single_found name columns filters w r w1 y :
  select_single name columns filters w = (Returned r, w1) ->
  data r = Some y ->
  exists x, rows_of name filters w = [x] /\ y = project columns x /\ tables w1 = tables w.
Proof.
  unfold select_single, request. intros H Hy.
  assert (Hgen : forall w0, tables w0 = tables w ->
            data (single (Reply (Some (project columns <$> rows_of name filters w0)) None))
              = Some y ->
            exists x, rows_of name filters w = [x] /\ y = project columns x).
  { intros w0 Ht. unfold rows_of. rewrite Ht. unfold single. cbn.
    destruct (List.filter _ _) as [|x [|x' l]]; cbn; try discriminate.
    intros [= <-]. by exists x. }
  destruct (outages w) as [|[e|] rest].
  - injection H as <- <-. destruct (Hgen w eq_refl Hy) as (x & ? & ?). by exists x.
  - injection H as <- <-. discriminate.
  - injection H as <- <-. destruct (Hgen (set_outages rest w) eq_refl Hy) as (x & ? & ?).
    by exists x.
Qed.

Lemma select_cases name columns filters arrange w :
  exists r w1, select name columns filters arrange w = (Returned r, w1) /\
    tables w1 = tables w /\ next_id w1 = next_id w /\
    ((exists e, r = Reply None (Some e)) \/
     r = Reply (Some (project columns <$> arrange (rows_of name filters w))) None).
Proof.
  unfold select, request. destruct (outages w) as [|[e|] rest]; eauto 10.
Qed.

(** X1. list_milestones, when it returns, answers with the milestones of the one
    company that has the slug, each of them once, in non-decreasing order of
    their order_index. *)
Theorem list_milestones_sorted slug w v :
  fst (list_milestones slug w) = Returned v ->
  exists c ms,
    rows_of "companies" (by_slug slug) w = [c] /\
    v = JArr (of_row <$> ms) /\
    ms ≡ₚ rows_of "milestones" [Eq "company_id" (column "id" c)] w /\
    Sorted (fun a b => json_leb (column "order_index" a) (column "order_index" b) = true) ms.
Proof.
  unfold list_milestones. unfold bind at 1.
  destruct (select_single "companies" _ _ w) as [[r|e] w1] eqn:E; [|discriminate].
  destruct (data r) as [company|] eqn:Hc; [|discriminate].
  destruct (select_single_found _ _ _ _ _ _ _ E Hc) as (c & Hrows & -> & Ht).
  rewrite column_project by reflexivity.
  unfold bind at 1.
  destruct (select_cases "milestones" None [Eq "company_id" (column "id" c)]
              (order "order_index" true) w1) as (r2 & w2 & Hsel & _ & _ & Hr2).
  rewrite Hsel. destruct Hr2 as [[e ->]| ->].
  - discriminate.
  - cbn. intros [= <-]. exists c, (order "order_index" true
                                     (rows_of "milestones" [Eq "company_id" (column "id" c)] w1)).
    split; [done|]. split.
    + f_equal. rewrite <- list_fmap_compose. apply list_fmap_ext. done.
    + unfold rows_of at 1 2. rewrite Ht. split; [apply order_perm | apply order_Sorted].
Qed.

Lemma list_milestones_sorted_witness :
  exists c ms,
    rows_of "companies" (by_slug (Some "dtiq")) sample_world = [c] /\
    JArr [of_row kickoff] = JArr (of_row <$> ms) /\
    ms ≡ₚ rows_of "milestones" [Eq "company_id" (column "id" c)] sample_world /\
    Sorted (fun a b => json_leb (column "order_index" a) (column "order_index" b) = true) ms.
Proof.
  apply (list_milestones_sorted (Some "dtiq") sample_world (JArr [of_row kickoff])).
  reflexivity.
Defined.

(** ** The index of a new milestone *)

Lemma order_head_descending key (f : row -> Z) rows top :
  Forall (fun r => column key r = JNum (f r)) rows ->
  head (order key false rows) = Some top ->
  top ∈ rows /\ forall x, x ∈ rows -> f x <= f top.
Proof.
  unfold order. revert top. induction rows as [|r rows IH]; intros top Hnum; cbn; [done|].
  apply Forall_cons in Hnum as [Hr Hnum].
  destruct (foldr _ [] rows) as [|h t] eqn:E.
  - assert (rows = []) as ->.
    { apply Permutation.Permutation_nil. pose proof (order_perm key false rows) as Hp.
      unfold order in Hp. by rewrite E in Hp. }
    cbn. intros [= <-]. split; [apply list_elem_of_here|]. intros x Hx.
    apply list_elem_of_singleton in Hx as ->. lia.
  - destruct (IH h Hnum eq_refl) as [Hh Hmax]. cbn.
    assert (Hcol : column key h = JNum (f h)).
    { rewrite Forall_forall in Hnum. by apply Hnum. }
    rewrite Hr, Hcol. cbn [json_leb].
    destruct (Z.leb_spec (f h) (f r)); cbn; intros [= <-].
    + split; [apply list_elem_of_here|]. intros x [->|Hx]%elem_of_cons; [lia|].
      specialize (Hmax x Hx). lia.
    + split; [by apply list_elem_of_further|]. intros x [->|Hx]%elem_of_cons; [lia|]. by apply Hmax.
Qed.

Lemma insert_reliable name new w :
  outages w = [] ->
  forallb (check_constraints name) (imap (stamp name w) new) = true ->
  (forall keys after r, unique_in name keys after r = true) ->
  insert name new w
  = (Returned (Reply (Some (imap (stamp name w) new)) None),
     set_next_id (next_id w + N.of_nat (length new))
       (set_tables (<[name := (table name (tables w) ++ imap (stamp name w) new)%list]>
                      (tables w)) w)).
Proof.
  intros Ho Hc Hu. unfold insert. rewrite request_reliable by done. unfold insert_rows.
  rewrite Hc. cbn [andb].
  assert (forallb (fun r => unique_in name (map_to_list r).*1
                              (table name (tables w) ++ imap (stamp name w) new)%list r)
            (imap (stamp name w) new) = true) as ->.
  { apply forallb_forall. intros. apply Hu. }
  reflexivity.
Qed.

Lemma add_milestone_reliable slug title due_date c w :
  outages w = [] ->
  rows_of "companies" (by_slug slug) w = [c] ->
  let m := stamp "milestones" w 0
             (with_field "title" (Some (JStr title))
                (with_field "due_date" (str due_date)
                   {[ "company_id" := column "id" c;
                      "order_index" := JNum (next_order_index c w) ]})) in
  add_milestone slug (Some title) due_date w
  = (Returned (object [("success", Some (JBool true)); ("milestone", Some (of_row m))]),
     set_next_id (next_id w + 1)
       (set_tables (<["milestones" := (table "milestones" (tables w) ++ [m])%list]> (tables w))
          w)).
Proof.
  intros Ho Hc m.
  unfold add_milestone. change (str (Some title)) with (Some (JStr title)).
  unfold bind at 1. unfold select_single.
  rewrite request_reliable by done. cbn [fst snd]. rewrite Hc.
  cbn [fmap list_fmap single error data].
  rewrite column_project by reflexivity.
  unfold bind at 1. unfold select. rewrite request_reliable by done. cbn [fst snd data].
  assert (Hn : match project (Some ["order_index"]) <$>
                       limit (Some 1%nat)
                         (order "order_index" false
                            (rows_of "milestones" [Eq "company_id" (column "id" c)] w)) with
               | [] => 0
               | top :: _ => match column "order_index" top with JNum n0 => n0 + 1 | _ => 1 end
               end = next_order_index c w).
  { unfold next_order_index.
    destruct (order _ _ _) as [|top rest]; [reflexivity|]. cbn [limit take fmap list_fmap head].
    by rewrite column_project by reflexivity. }
  rewrite Hn. fold m. clear Hn.
  assert (Htitle : m !! "title" = Some (JStr title)).
  { subst m. unfold stamp. rewrite lookup_insert_ne by done.
    apply lookup_union_Some_l. apply lookup_insert_eq. }
  assert (Hstatus : m !! "status" = Some (JStr "pending")).
  { subst m. unfold stamp. rewrite lookup_insert_ne by done.
    rewrite lookup_union_r; [reflexivity|].
    rewrite !with_field_other by done. reflexivity. }
  unfold bind at 1. rewrite insert_reliable; [|done| |apply unique_in_milestones].
  - reflexivity.
  - cbn [imap forallb]. fold m.
    change (check_constraints "milestones" m)
      with (not_null (m !! "title") &&
            one_of ["pending"; "in_progress"; "done"; "blocked"] (m !! "status")).
    rewrite Htitle, Hstatus. reflexivity.
Qed.

(** X2. With a reliable store, for the one company that has the slug and
    whose stored milestones carry numeric indexes: when add_milestone
    returns, it has appended one milestone to the table, the one it returns,
    which references the company; its order_index is 0 when the company had
    no milestone, and otherwise one above the greatest order_index of the
    milestones the company had. *)
Theorem add_milestone_appends slug title due_date c w v :
  outages w = [] ->
  rows_of "companies" (by_slug slug) w = [c] ->
  Forall (fun m => exists n, m !! "order_index" = Some (JNum n))
    (table "milestones" (tables w)) ->
  fst (add_milestone slug (Some title) due_date w) = Returned v ->
  let had := rows_of "milestones" [Eq "company_id" (column "id" c)] w in
  exists m n,
    v = object [("success", Some (JBool true)); ("milestone", Some (of_row m))] /\
    table "milestones" (tables (snd (add_milestone slug (Some title) due_date w)))
    = (table "milestones" (tables w) ++ [m])%list /\
    m !! "company_id" = Some (column "id" c) /\
    m !! "order_index" = Some (JNum n) /\
    (had = [] -> n = 0) /\
    (had <> [] ->
     exists top k, top ∈ had /\ top !! "order_index" = Some (JNum k) /\ n = k + 1) /\
    (forall x k, x ∈ had -> x !! "order_index" = Some (JNum k) -> k < n).
Proof.
  intros Ho Hc Hnum. rewrite (add_milestone_reliable slug title due_date c w Ho Hc).
  cbn [fst snd tables set_tables set_next_id]. rewrite table_insert_eq.
  intros [= <-].
  set (had := rows_of "milestones" [Eq "company_id" (column "id" c)] w).
  eexists. exists (next_order_index c w). split; [reflexivity|]. split; [reflexivity|].
  split; [|split].
  - unfold stamp. rewrite lookup_insert_ne by done. apply lookup_union_Some_l.
    rewrite lookup_insert_ne by done. rewrite with_field_other by done. reflexivity.
  - unfold stamp. rewrite lookup_insert_ne by done. apply lookup_union_Some_l.
    rewrite lookup_insert_ne by done. rewrite with_field_other by done. reflexivity.
  - set (f := fun r : row => match column "order_index" r with JNum n => n | _ => 0 end).
    assert (Hf : Forall (fun r => column "order_index" r = JNum (f r)) had).
    { apply Forall_forall. intros r Hr. subst had. unfold rows_of in Hr.
      apply list_elem_of_In, filter_In in Hr as [Hr%list_elem_of_In _].
      rewrite Forall_forall in Hnum. destruct (Hnum r Hr) as [n Hn].
      subst f. unfold column. cbn beta. by rewrite Hn. }
    assert (Hindex : forall x k, x ∈ had -> x !! "order_index" = Some (JNum k) -> f x = k).
    { intros x k _ Hk. subst f. unfold column. cbn beta. by rewrite Hk. }
    unfold next_order_index. fold had.
    destruct (head (order "order_index" false had)) as [top|] eqn:Hhead.
    + destruct (order_head_descending "order_index" f had top Hf Hhead) as [Htop Hmax].
      rewrite Forall_forall in Hf. rewrite (Hf top Htop). split; [|split].
      * intros Hnone. rewrite Hnone in Htop. by apply elem_of_nil in Htop.
      * intros _. exists top, (f top). split; [exact Htop|]. split; [|reflexivity].
        rewrite Forall_forall in Hnum.
        assert (Hin : top ∈ table "milestones" (tables w)).
        { subst had. unfold rows_of in Htop.
          by apply list_elem_of_In, filter_In in Htop as [?%list_elem_of_In _]. }
        destruct (Hnum top Hin) as [n Hn]. rewrite Hn. do 2 f_equal.
        symmetry. by apply Hindex.
      * intros x k Hx Hk. specialize (Hmax x Hx). rewrite (Hindex x k Hx Hk) in Hmax. lia.
    + apply head_None in Hhead. pose proof (order_perm "order_index" false had) as Hp.
      rewrite Hhead in Hp. apply Permutation.Permutation_nil in Hp. split; [|split].
      * done.
      * intros Hne. by destruct Hne.
      * intros x k Hx. rewrite Hp in Hx. by apply elem_of_nil in Hx.
Qed.

Lemma add_milestone_appends_witness :
  exists m n,
    table "milestones"
      (tables (snd (add_milestone (Some "dtiq") (Some "Pilot launch") None sample_world)))
    = [kickoff; m] /\
    m !! "company_id" = Some (column "id" dtiq) /\
    m !! "order_index" = Some (JNum n) /\
    (exists top k, top ∈ [kickoff] /\ top !! "order_index" = Some (JNum k) /\ n = k + 1).
Proof.
  assert (Hreturned : exists v,
            fst (add_milestone (Some "dtiq") (Some "Pilot launch") None sample_world)
            = Returned v).
  { assert (H : match fst (add_milestone (Some "dtiq") (Some "Pilot launch") None
                             sample_world) with
                | Returned _ => true
                | Thrown _ => false
                end = true) by (vm_compute; reflexivity).
    destruct (fst _); [eauto | discriminate]. }
  destruct Hreturned as [v Hv].
  destruct (add_milestone_appends (Some "dtiq") "Pilot launch" None dtiq sample_world v)
    as (m & n & _ & Htable & Hcompany & Hindex & _ & Hmax & _).
  - reflexivity.
  - reflexivity.
  - repeat constructor. exists 0. reflexivity.
  - exact Hv.
  - exists m, n. repeat apply conj; try assumption. apply Hmax. discriminate.
Defined.

(** ** Recent activity *)

Lemma Sorted_take {A} (R : A -> A -> Prop) n (l : list A) : Sorted R l -> Sorted R (take n l).
Proof.
  intros H. revert n. induction H as [|x l Hl IH Hx]; intros [|n]; cbn; try constructor.
  - apply IH.
  - destruct Hx as [|y l Hxy]; destruct n; cbn; constructor. exact Hxy.
Qed.

Lemma Sorted_fmap {A B} (R : A -> A -> Prop) (R' : B -> B -> Prop) (f : A -> B) (l : list A) :
  (forall a b, R a b -> R' (f a) (f b)) -> Sorted R l -> Sorted R' (f <$> l).
Proof.
  intros Hf. induction 1 as [|x l Hl IH Hx]; cbn; constructor; [exact IH|].
  destruct Hx; cbn; constructor. by apply Hf.
Qed.

Lemma order_Sorted_descending key rows :
  Sorted (fun a b => json_leb (column key b) (column key a) = true) (order key false rows).
Proof.
  unfold order. induction rows as [|r rows IH]; cbn; [constructor|].
  apply (insert_sorted_Sorted (fun a b => json_leb (column key b) (column key a)));
    [intros; apply json_leb_total | exact IH].
Qed.

Lemma column_with_company key w (r : row) :
  key <> "companies" -> column key (with_company w r) = column key r.
Proof. intros H. unfold column, with_company. by rewrite lookup_insert_ne. Qed.

(** X3. get_recent_activity, when it returns, answers with at most [limit]
    entries, 20 when no limit is given, newest first. *)
Theorem get_recent_activity_bounded slug limit_arg w v :
  fst (get_recent_activity slug limit_arg w) = Returned v ->
  exists rows,
    v = JArr (of_row <$> rows) /\
    (length rows <= default 20 limit_arg)%nat /\
    Sorted (fun a b => json_leb (column "created_at" b) (column "created_at" a) = true) rows.
Proof.
  unfold get_recent_activity.
  match goal with
  | |- (bind ?m _ w).1 = _ -> _ =>
      unfold bind at 1; destruct (m w) as [[filters|e] w1]; [|discriminate]
  end.
  unfold bind at 1, request.
  assert (Hgen : forall w0,
            let rows := with_company w0 <$>
                          limit (Some (default 20%nat limit_arg))
                            (order "created_at" false (rows_of "activity" filters w0)) in
            (length rows <= default 20 limit_arg)%nat /\
            Sorted (fun a b => json_leb (column "created_at" b) (column "created_at" a) = true)
              rows).
  { intros w0 rows. subst rows. split.
    - rewrite length_fmap. cbn [limit]. rewrite length_take. lia.
    - apply (Sorted_fmap (fun a b => json_leb (column "created_at" b) (column "created_at" a) = true)).
      + intros a b. by rewrite !column_with_company.
      + apply Sorted_take, order_Sorted_descending. }
  destruct (outages w1) as [|[e|] rest]; cbn.
  - intros [= <-]. eexists. split; [reflexivity|]. apply Hgen.
  - discriminate.
  - intros [= <-]. eexists. split; [reflexivity|]. apply Hgen.
Qed.

Lemma get_recent_activity_bounded_witness :
  exists rows,
    JArr [of_row (with_company sample_world intro_call)] = JArr (of_row <$> rows) /\
    (length rows <= 20)%nat /\
    Sorted (fun a b => json_leb (column "created_at" b) (column "created_at" a) = true) rows.
Proof.
  apply (get_recent_activity_bounded (Some "dtiq") None sample_world
           (JArr [of_row (with_company sample_world intro_call)])).
  reflexivity.
Defined.

(** ** Status values the schema refuses *)

(** X4. For a slug that a company has, update_company_status with a status
    outside discovery, active, pilot and deployed, the values the schema
    allows, throws and leaves every table as it was. *)
Theorem update_company_status_checked slug status c w :
  c ∈ rows_of "companies" (by_slug slug) w ->
  status ∉ ["discovery"; "active"; "pilot"; "deployed"] ->
  exists e,
    fst (update_company_status slug (Some status) w) = Thrown e /\
    tables (snd (update_company_status slug (Some status) w)) = tables w.
Proof.
  intros Hc Hs. unfold update_company_status, bind, Date_now.
  destruct (update_cases "companies"
              (with_field "status" (str (Some status)) {[ "updated_at" := JStr (now w) ]})
              (by_slug slug) w)
    as (r & w1 & He & _ & _ & [(e & -> & Ht) | (-> & Hcheck & Ht)]); rewrite He.
  - exists e. by split.
  - exfalso. rewrite forallb_forall in Hcheck.
    set (patch := with_field "status" (str (Some status)) {[ "updated_at" := JStr (now w) ]})
      in *.
    assert (Hin : In (patch ∪ c) ((fun x => patch ∪ x) <$> rows_of "companies" (by_slug slug) w)).
    { apply list_elem_of_In, list_elem_of_fmap. by exists c. }
    specialize (Hcheck _ Hin).
    change (check_constraints "companies" (patch ∪ c))
      with (not_null ((patch ∪ c) !! "slug") && not_null ((patch ∪ c) !! "name") &&
            one_of ["discovery"; "active"; "pilot"; "deployed"] ((patch ∪ c) !! "status"))
      in Hcheck.
    assert (Hst : (patch ∪ c) !! "status" = Some (JStr status)).
    { apply lookup_union_Some_l. subst patch. apply lookup_insert_eq. }
    rewrite Hst in Hcheck. apply andb_prop in Hcheck as [_ Hcheck]. cbn [one_of] in Hcheck.
    apply existsb_exists in Hcheck as (s & Hs' & Heq). apply String.eqb_eq in Heq as <-.
    apply Hs. by apply list_elem_of_In.
Qed.

Lemma update_company_status_checked_witness :
  exists e,
    fst (update_company_status (Some "dtiq") (Some "paused") sample_world) = Thrown e /\
    tables (snd (update_company_status (Some "dtiq") (Some "paused") sample_world))
    = tables sample_world.
Proof.
  apply (update_company_status_checked (Some "dtiq") "paused" dtiq sample_world).
  - apply list_elem_of_In. left. reflexivity.
  - intros H. repeat (apply elem_of_cons in H as [H|H]; [discriminate|]).
    by apply elem_of_nil in H.
Defined.

(** ** Updates addressed to an unknown id *)

Lemma unselected_unchanged (p : row -> bool) (g : row -> row) (l : list row) :
  List.filter p l = [] -> (fun x => if p x then g x else x) <$> l = l.
Proof.
  induction l as [|x l IH]; cbn; [done|]. destruct (p x); [discriminate|].
  intros H. by rewrite IH.
Qed.

(** X5. When the store answers and the id is a UUID that no milestone has,
    update_milestone still reports success, with no milestone member in the
    result, and changes no table. *)
Theorem update_milestone_unknown_id id status notes w :
  answers w ->
  is_uuid id = true ->
  rows_of "milestones" [Eq "id" (JStr id)] w = [] ->
  fst (update_milestone (Some id) status notes w) = Returned (JObj [("success", JBool true)]) /\
  forall name, table name (tables (snd (update_milestone (Some id) status notes w)))
               = table name (tables w).
Proof.
  intros Ha _ Hrows. set (milestone_id := Some id).
  change (JStr id) with (JStr (String_of milestone_id)) in Hrows.
  rewrite update_milestone_unfold. unfold bind.
  destruct (update_succeeds "milestones" (milestone_update status notes (now w))
              [Eq "id" (JStr (String_of milestone_id))] w Ha) as [w1 He].
  { by rewrite Hrows. }
  { apply unique_in_milestones. }
  destruct (update_cases "milestones" (milestone_update status notes (now w))
              [Eq "id" (JStr (String_of milestone_id))] w)
    as (r & w1' & He' & _ & _ & Hcases).
  rewrite He in He'. injection He' as <- <-. rewrite He, Hrows. cbn.
  split; [reflexivity|]. intros name.
  destruct Hcases as [(e & [=] & _) | (_ & _ & ->)].
  destruct (decide (name = "milestones")) as [->|Hne].
  - rewrite table_insert_eq. by apply unselected_unchanged.
  - by rewrite table_insert_ne.
Qed.

Lemma update_milestone_unknown_id_witness :
  fst (update_milestone (Some "7f9c2a4e-3b1d-4c8a-9e57-0d6b5a1f2c33") (Some "done") None
         sample_world)
  = Returned (JObj [("success", JBool true)]) /\
  forall name,
    table name
      (tables (snd (update_milestone (Some "7f9c2a4e-3b1d-4c8a-9e57-0d6b5a1f2c33")
                      (Some "done") None sample_world)))
    = table name (tables sample_world).
Proof.
  apply (update_milestone_unknown_id "7f9c2a4e-3b1d-4c8a-9e57-0d6b5a1f2c33" (Some "done") None
           sample_world).
  - exact I.
  - reflexivity.
  - reflexivity.
Defined.

(** X6. When no dev task has the id, update_dev_task throws, its update
    asking for a single row, and leaves every table as it was. *)
Theorem update_dev_task_unknown_id task_id status assigned_to priority w :
  rows_of "dev_tasks" [Eq "id" (JStr (String_of task_id))] w = [] ->
  exists e,
    fst (update_dev_task task_id status assigned_to priority w) = Thrown e /\
    tables (snd (update_dev_task task_id status assigned_to priority w)) = tables w.
Proof.
  intros Hrows. rewrite update_dev_task_unfold. unfold bind.
  destruct (update_single_cases "dev_tasks" (task_update status assigned_to priority (now w))
              [Eq "id" (JStr (String_of task_id))] w)
    as (r & w1 & He & _ & _ & [(e & -> & Ht) | (x & _ & Hx & _)]); rewrite He.
  - exists e. by split.
  - rewrite Hrows in Hx. discriminate.
Qed.

Lemma update_dev_task_unknown_id_witness :
  exists e,
    fst (update_dev_task (Some "99") (Some "done") None None sample_world) = Thrown e /\
    tables (snd (update_dev_task (Some "99") (Some "done") None None sample_world))
    = tables sample_world.
Proof.
  apply (update_dev_task_unknown_id (Some "99") (Some "done") None None sample_world).
  reflexivity.
Defined.

(** ** The conversation history of the chat endpoint *)

Lemma tool_use_loop_extends fuel table : forall messages response w out final w',
  tool_use_loop fuel table messages response w = (Returned (Some (out, final)), w') ->
  exists turns, out = (messages ++ turns)%list /\ exchanges turns.
Proof.
  induction fuel as [|fuel IH]; intros messages response w out final w'; cbn [tool_use_loop];
    destruct (stop_reason response =? "tool_use") eqn:Hstop.
  - discriminate.
  - intros [= <- <- <-]. exists []. split; [by rewrite app_nil_r|constructor].
  - unfold bind at 1.
    destruct (run_tools_answered table (blocks response) [] w) as (results & w1 & -> & Hans).
    apply answered_ids in Hans.
    unfold bind at 1, messages_create.
    destruct (model w1 _) as [response'|e]; [|discriminate].
    intros H. apply IH in H as (turns & -> & Hturns).
    exists (assistant (blocks response) :: user_results results :: turns).
    split; [by rewrite <- !app_assoc|]. by constructor.
  - intros [= <- <- <-]. exists []. split; [by rewrite app_nil_r|constructor].
Qed.

Lemma final_text_nonempty content : final_text content <> "".
Proof.
  unfold final_text. destruct (List.find _ content) as [[t| |]|]; try discriminate.
  destruct (t =? "") eqn:E; [discriminate|]. by apply String.eqb_neq.
Qed.

(** X7. For a message that is a string: when the chat endpoint answers, the
    message is not empty; the conversation history it returns is the history
    it was given, the user's message, the turns exchanged with the tools,
    each a content of the model followed by one batch with one result per
    tool call of that content and in their order, and last the final content
    of the model; and the response text is the text of that final content
    and never empty. *)
Theorem chat_keeps_history fuel table m history w text history' w' :
  chat fuel table (Some m) history w = (Some (answer text history'), w') ->
  m <> "" /\
  exists turns final,
    exchanges turns /\
    history' = (history ++ user_text m :: turns ++ [assistant final])%list /\
    text = final_text final /\ text <> "".
Proof.
  unfold chat. destruct (truthy (Some m)) eqn:Hm; cbn [negb]; [|discriminate].
  cbn in Hm. apply negb_true_iff, String.eqb_neq in Hm.
  cbn [String_of]. unfold bind at 1, messages_create.
  destruct (model w _) as [response|e]; [|discriminate].
  destruct (tool_use_loop _ _ _ _ _) as [[[[out final]|]|e] w1] eqn:Hloop; try discriminate.
  intros [= <- <- <-]. apply tool_use_loop_extends in Hloop as (turns & -> & Hturns).
  split; [done|]. exists turns, (blocks final). split; [done|].
  split; [by rewrite <- !app_assoc|]. split; [done|apply final_text_nonempty].
Qed.

Lemma chat_keeps_history_witness :
  exists text history' turns final,
    fst (chat 3 handlers (Some "Status?") [] chat_world) = Some (answer text history') /\
    exchanges turns /\
    history' = ([] ++ user_text "Status?" :: turns ++ [assistant final])%list /\
    text = final_text final /\ text <> "".
Proof.
  assert (H : exists text history' w',
            chat 3 handlers (Some "Status?") [] chat_world
            = (Some (answer text history'), w')).
  { vm_compute. eauto. }
  destruct H as (text & history' & w' & H).
  destruct (chat_keeps_history 3 handlers "Status?" [] chat_world text history' w' H)
    as (_ & turns & final & H1 & H2 & H3 & H4).
  exists text, history', turns, final. rewrite H. repeat apply conj; assumption || reflexivity.
Defined.

(** ** Merging a configuration *)

Lemma member_app key (l1 l2 : list (string * json)) :
  member key (l1 ++ l2)%list
  = match member key l1 with
    | Some v => Some v
    | None => member key l2
    end.
Proof.
  unfold member. induction l1 as [|[k v] l1 IH]; cbn [app List.find fst]; [done|].
  destruct (k =? key); [done|exact IH].
Qed.

Lemma member_singleton key k v :
  member key [(k, v)] = if k =? key then Some v else None.
Proof. unfold member. cbn. by destruct (k =? key). Qed.

Lemma member_foldl_assign key (extra acc : list (string * json)) :
  member key (foldl (fun acc '(k, v) => assign k v acc) acc extra)
  = match member key (reverse extra) with
    | Some v => Some v
    | None => member key acc
    end.
Proof.
  revert acc. induction extra as [|[k v] extra IH]; intros acc; cbn [foldl]; [done|].
  rewrite IH, reverse_cons, member_app, member_singleton.
  destruct (member key (reverse extra)) as [v'|]; [done|].
  destruct (k =? key) eqn:Hk.
  - apply String.eqb_eq in Hk as ->. apply member_assign_eq.
  - apply String.eqb_neq in Hk. apply member_assign_ne. congruence.
Qed.

Lemma member_reverse key (extra : list (string * json)) :
  NoDup extra.*1 -> member key (reverse extra) = member key extra.
Proof.
  induction extra as [|[k v] extra IH]; [done|]. cbn [fmap list_fmap fst].
  intros [Hk Hnd]%NoDup_cons. rewrite reverse_cons, member_app, member_singleton, IH by done.
  change ((k, v) :: extra) with ([(k, v)] ++ extra)%list.
  rewrite member_app, member_singleton.
  destruct (k =? key) eqn:E; [|by destruct (member key extra)].
  apply String.eqb_eq in E as ->.
  destruct (member key extra) as [v'|] eqn:Hm; [|done]. exfalso. apply Hk.
  unfold member in Hm. destruct (List.find _ extra) as [[k' v'']|] eqn:Hf; [|discriminate].
  apply find_some in Hf as [Hin Heq]. cbn in Heq. apply String.eqb_eq in Heq as ->.
  apply list_elem_of_fmap. exists (key, v''). split; [done|]. by apply list_elem_of_In.
Qed.

Lemma member_spread key (extra before : list (string * json)) :
  NoDup extra.*1 ->
  member key (spread (JObj extra) before)
  = match member key extra with
    | Some v => Some v
    | None => member key before
    end.
Proof. intros H. unfold spread. by rewrite member_foldl_assign, member_reverse. Qed.

Lemma update_single_reliable name patch filters x w :
  outages w = [] ->
  rows_of name filters w = [x] ->
  check_constraints name (patch ∪ x) = true ->
  (forall keys after r, unique_in name keys after r = true) ->
  update_single name patch filters w
  = (Returned (Reply (Some (patch ∪ x)) None),
     set_tables (<[name := (fun r => if selected filters r then patch ∪ r else r)
                             <$> table name (tables w)]> (tables w)) w).
Proof.
  intros Ho Hx Hc Hu. unfold update_single. rewrite request_reliable by done.
  unfold update_rows. rewrite Hx. cbn [fmap list_fmap forallb]. rewrite Hc, Hu. reflexivity.
Qed.

Lemma select_single_reliable name columns filters x w :
  outages w = [] ->
  rows_of name filters w = [x] ->
  select_single name columns filters w = (Returned (Reply (Some (project columns x)) None), w).
Proof.
  intros Ho Hx. unfold select_single. rewrite request_reliable by done. by rewrite Hx.
Qed.

(** X8. With a reliable store and one component matching the deployment
    and the type, update_deployment_component given a configuration merges
    it into the stored one: in the stored result a member of the given
    configuration has the given value, and every other member keeps the
    value it had. *)
Theorem update_deployment_component_merges_config
    deployment_id component status url config c w :
  outages w = [] ->
  rows_of "deployment_components"
    [ Eq "deployment_id" (JStr (String_of deployment_id));
      Eq "component_type" (JStr (String_of component)) ] w = [c] ->
  NoDup config.*1 ->
  exists c' merged,
    fst (update_deployment_component deployment_id component status url (Some config) w)
    = Returned (object [("success", Some (JBool true)); ("component", Some (of_row c'))]) /\
    c' ∈ table "deployment_components"
           (tables (snd (update_deployment_component deployment_id component status url
                           (Some config) w))) /\
    c' !! "config" = Some (JObj merged) /\
    forall key, member key merged
                = match member key config with
                  | Some v => Some v
                  | None => member key (stored_config c)
                  end.
Proof.
  intros Ho Hc Hnd.
  set (target := [ Eq "deployment_id" (JStr (String_of deployment_id));
                   Eq "component_type" (JStr (String_of component)) ]) in *.
  assert (Heq : exists patch,
            patch !! "config" = Some (JObj (spread (JObj config) (stored_config c))) /\
            update_deployment_component deployment_id component status url (Some config) w
            = (Returned (object [("success", Some (JBool true));
                                 ("component", Some (of_row (patch ∪ c)))]),
               set_tables (<["deployment_components" :=
                               (fun r => if selected target r then patch ∪ r else r)
                                 <$> table "deployment_components" (tables w)]> (tables w)) w)).
  { eexists. split; cycle 1.
    - unfold update_deployment_component. fold target. unfold bind at 1, Date_now.
      unfold bind at 1. unfold bind at 1.
      rewrite (select_single_reliable _ _ _ c) by done. cbn [data ret].
      rewrite column_project by reflexivity. fold (stored_config c).
      unfold bind at 1. rewrite (update_single_reliable _ _ _ c) by done.
      reflexivity.
    - apply lookup_insert_eq. }
  destruct Heq as (patch & Hpatch & ->). cbn [fst snd tables set_tables].
  exists (patch ∪ c), (spread (JObj config) (stored_config c)). split; [reflexivity|].
  split; [|split].
  - rewrite table_insert_eq. apply list_elem_of_fmap. exists c. split.
    + assert (Hsel : selected target c = true).
      { assert (Hin : In c (rows_of "deployment_components" target w))
          by (rewrite Hc; by left).
        unfold rows_of in Hin. by apply filter_In in Hin as [_ ?]. }
      by rewrite Hsel.
    + assert (Hin : In c (rows_of "deployment_components" target w)) by (rewrite Hc; by left).
      unfold rows_of in Hin. apply filter_In in Hin as [Hin _]. by apply list_elem_of_In.
  - by apply lookup_union_Some_l.
  - intros key. by apply member_spread.
Qed.

Lemma update_deployment_component_merges_config_witness :
  exists c' merged,
    fst (update_deployment_component (Some "10") (Some "github") None None
           (Some [("branch", JStr "release")]) deployed_world)
    = Returned (object [("success", Some (JBool true)); ("component", Some (of_row c'))]) /\
    c' ∈ table "deployment_components"
           (tables (snd (update_deployment_component (Some "10") (Some "github") None None
                           (Some [("branch", JStr "release")]) deployed_world))) /\
    c' !! "config" = Some (JObj merged) /\
    forall key, member key merged
                = match member key [("branch", JStr "release")] with
                  | Some v => Some v
                  | None => member key (stored_config tracker_github)
                  end.
Proof.
  apply (update_deployment_component_merges_config (Some "10") (Some "github") None None
           [("branch", JStr "release")] tracker_github deployed_world).
  - reflexivity.
  - reflexivity.
  - repeat constructor. intros H. by apply elem_of_nil in H.
Defined.

(** ** Slugs of slugs *)

Lemma runs_alnum a : forall cur s,
  all_alnum a = true -> runs cur (a +:+ s) = runs (cur +:+ a) s.
Proof.
  induction a as [|c a IH]; intros cur s; cbn [all_alnum].
  - intros _. by rewrite append_empty_r.
  - intros [Hc Ha]%andb_prop. rewrite append_cons. cbn [runs]. rewrite Hc.
    rewrite IH by done. by rewrite append_assoc.
Qed.

Lemma runs_words s : forall cur,
  all_alnum cur = true ->
  Forall (fun w => all_alnum w = true /\ w <> "") (runs cur s).
Proof.
  induction s as [|c s IH]; intros cur Hcur; cbn [runs].
  - destruct cur; [constructor|]. by repeat constructor.
  - destruct (is_alnum c) eqn:Hc.
    + apply IH. rewrite all_alnum_append, Hcur. cbn. by rewrite Hc.
    + destruct cur; [by apply IH|]. constructor; [done|by apply IH].
Qed.

Lemma runs_hyphen cur s :
  cur <> "" -> runs cur ("-" +:+ s) = cur :: runs "" s.
Proof. intros H. change ("-" +:+ s) with (String "-" s). cbn. by destruct cur. Qed.

Lemma runs_concat ws :
  Forall (fun w => all_alnum w = true /\ w <> "") ws ->
  runs "" (String.concat "-" ws) = ws.
Proof.
  induction 1 as [|w ws [Hw Hne] Hws IH]; [done|].
  destruct ws as [|w' ws].
  - cbn [String.concat]. rewrite <- (append_empty_r w) at 1. rewrite runs_alnum by done.
    cbn. by destruct w.
  - rewrite concat_cons by done. rewrite runs_alnum by done.
    change ("" +:+ w) with w. by rewrite runs_hyphen, IH.
Qed.

Lemma lower_char_alnum c : is_alnum c = true -> lower_char c = c.
Proof.
  unfold lower_char, is_upper, is_alnum. intros H.
  destruct ((65 <=? nat_of_ascii c)%nat && (nat_of_ascii c <=? 90)%nat) eqn:E; [|done].
  exfalso. apply andb_prop in E as [E1%Nat.leb_le E2%Nat.leb_le].
  apply orb_prop in H as [[H1%Nat.leb_le H2%Nat.leb_le]%andb_prop
                         |[H1%Nat.leb_le H2%Nat.leb_le]%andb_prop]; lia.
Qed.

Lemma toLowerCase_append a b : toLowerCase (a +:+ b) = toLowerCase a +:+ toLowerCase b.
Proof. induction a as [|c a IH]; [done|]. rewrite !append_cons. cbn. by rewrite append_cons, IH. Qed.

Lemma toLowerCase_alnum a : all_alnum a = true -> toLowerCase a = a.
Proof.
  induction a as [|c a IH]; [done|]. cbn. intros [Hc Ha]%andb_prop.
  by rewrite lower_char_alnum, IH.
Qed.

Lemma toLowerCase_concat ws :
  Forall (fun w => all_alnum w = true /\ w <> "") ws ->
  toLowerCase (String.concat "-" ws) = String.concat "-" ws.
Proof.
  induction 1 as [|w ws [Hw Hne] Hws IH]; [done|].
  destruct ws as [|w' ws].
  - cbn [String.concat]. by apply toLowerCase_alnum.
  - rewrite concat_cons by done. rewrite !toLowerCase_append, IH, toLowerCase_alnum by done.
    reflexivity.
Qed.

(** X9. The slug of a slug is the slug itself. *)
Theorem derive_slug_idempotent name : derive_slug (derive_slug name) = derive_slug name.
Proof.
  rewrite (derive_slug_words name). unfold slug_of_words at 2.
  pose proof (runs_words (toLowerCase name) "" eq_refl) as Hws.
  rewrite derive_slug_words. unfold slug_of_words.
  by rewrite toLowerCase_concat, runs_concat.
Qed.

Lemma runs_none s :
  runs "" s = [] <-> forallb (fun c => negb (is_alnum c)) (list_ascii_of_string s) = true.
Proof.
  induction s as [|c s IH]; cbn [runs list_ascii_of_string forallb]; [done|].
  destruct (is_alnum c) eqn:Hc; cbn [negb andb].
  - split; [|discriminate]. intros H. by apply runs_nonempty in H.
  - exact IH.
Qed.

Lemma concat_empty ws :
  Forall (fun w => all_alnum w = true /\ w <> "") ws ->
  String.concat "-" ws = "" -> ws = [].
Proof.
  intros H. destruct H as [|w ws [_ Hne] Hws]; [done|].
  destruct ws as [|w' ws].
  - cbn. intros ->. done.
  - rewrite concat_cons by done. destruct w; [done|]. rewrite append_cons. discriminate.
Qed.

Lemma list_ascii_toLowerCase s :
  list_ascii_of_string (toLowerCase s) = lower_char <$> list_ascii_of_string s.
Proof. induction s as [|c s IH]; [done|]. cbn. by rewrite IH. Qed.

(** X10. For a name of ASCII characters, the derived slug is empty exactly
    when the name has no letter and no digit. *)
Theorem derive_slug_empty name :
  ascii_text name = true ->
  derive_slug name = ""
  <-> forallb (fun c => negb (is_alnum (lower_char c))) (list_ascii_of_string name) = true.
Proof.
  intros _.
  rewrite derive_slug_words. unfold slug_of_words.
  pose proof (runs_words (toLowerCase name) "" eq_refl) as Hws.
  assert (Hiff : forallb (fun c => negb (is_alnum (lower_char c))) (list_ascii_of_string name)
                 = forallb (fun c => negb (is_alnum c))
                     (list_ascii_of_string (toLowerCase name))).
  { rewrite list_ascii_toLowerCase. induction (list_ascii_of_string name) as [|c l IH]; [done|].
    cbn. by rewrite IH. }
  rewrite Hiff, <- runs_none. split.
  - by apply concat_empty.
  - by intros ->.
Qed.

Lemma derive_slug_empty_witness :
  derive_slug "?! --" = ""
  <-> forallb (fun c => negb (is_alnum (lower_char c))) (list_ascii_of_string "?! --") = true.
Proof. apply (derive_slug_empty "?! --"). reflexivity. Defined.

(** ** Calendar titles *)

Lemma slug_run_prefix slug rest :
  forallb is_slug_char (list_ascii_of_string slug) = true ->
  slug_run (slug +:+ String "]" rest) = (slug, String "]" rest).
Proof.
  induction slug as [|c slug IH]; cbn [list_ascii_of_string forallb]; [done|].
  intros [Hc Hs]%andb_prop. rewrite append_cons. cbn [slug_run]. by rewrite Hc, IH.
Qed.

Lemma skip_spaces_none title :
  match title with String c _ => is_space c = false | EmptyString => True end ->
  skip_spaces title = title.
Proof. destruct title as [|c title]; [done|]. cbn. by intros ->. Qed.

Lemma title_match_prefixed slug title :
  slug <> "" ->
  forallb is_slug_char (list_ascii_of_string slug) = true ->
  match title with String c _ => is_space c = false | EmptyString => True end ->
  title_match ("[" +:+ slug +:+ "] " +:+ title) = Some (slug, title).
Proof.
  intros Hne Hslug Htitle.
  change ("[" +:+ slug +:+ "] " +:+ title) with (String "[" (slug +:+ String "]" (String " " title))).
  cbn [title_match]. rewrite slug_run_prefix by done.
  destruct slug as [|c slug]; [done|]. cbn [skip_spaces]. change (is_space " ") with true.
  cbn iota. by rewrite skip_spaces_none.
Qed.

Lemma toLowerCase_idempotent s : toLowerCase (toLowerCase s) = toLowerCase s.
Proof.
  induction s as [|c s IH]; [done|]. cbn. rewrite IH. f_equal.
  unfold lower_char at 1. destruct (is_upper (lower_char c)) eqn:E; [|done].
  exfalso. unfold lower_char in E. destruct (is_upper c) eqn:Hc; [|congruence].
  unfold is_upper in *. apply andb_prop in Hc as [H1%Nat.leb_le H2%Nat.leb_le].
  rewrite nat_ascii_embedding in E by lia.
  apply andb_prop in E as [_ E%Nat.leb_le]. lia.
Qed.

(** X11. For an event whose summary is a bracketed slug, a space and a title
    of ASCII text that does not start with white space,
    list_calendar_events reads the slug in lower case as the company of the
    event and the title without the prefix as its clean title; and it lists
    the event for a company slug exactly when the two slugs are equal up to
    letter case. *)
Theorem calendar_title_prefix event slug title company_slug :
  summary event = Some ("[" +:+ slug +:+ "] " +:+ title) ->
  slug <> "" ->
  forallb is_slug_char (list_ascii_of_string slug) = true ->
  ascii_text title = true ->
  match title with String c _ => is_space c = false | EmptyString => True end ->
  company_slug <> "" ->
  ascii_text company_slug = true ->
  companySlug event = Some (toLowerCase slug) /\
  cleanTitle event = Some title /\
  calendar_events [event] (Some company_slug)
  = if bool_decide (toLowerCase slug = toLowerCase company_slug)
    then [listed_event event] else [].
Proof.
  intros Hs Hne Hslug _ Htitle Hcompany _.
  assert (Hm : titleMatch event = Some (slug, title)).
  { unfold titleMatch. rewrite Hs. by apply title_match_prefixed. }
  assert (Hc : companySlug event = Some (toLowerCase slug)).
  { unfold companySlug. by rewrite Hm. }
  split; [exact Hc|]. split; [unfold cleanTitle; by rewrite Hm|].
  unfold calendar_events.
  assert (truthy (Some company_slug) = true) as ->.
  { cbn. by apply negb_true_iff, String.eqb_neq. }
  cbn [List.filter String_of]. rewrite Hc.
  destruct (decide (toLowerCase slug = toLowerCase company_slug)) as [He|He].
  - rewrite !bool_decide_eq_true_2; [done|done|by rewrite He].
  - rewrite !bool_decide_eq_false_2; [done|done|]. intros [= ?]. done.
Qed.

Lemma calendar_title_prefix_witness :
  companySlug weekly_sync = Some "dtiq" /\
  cleanTitle weekly_sync = Some "Weekly sync" /\
  calendar_events [weekly_sync] (Some "Dtiq") = [listed_event weekly_sync].
Proof.
  destruct (calendar_title_prefix weekly_sync "DTIQ" "Weekly sync" "Dtiq") as (H1 & H2 & H3).
  - reflexivity.
  - discriminate.
  - reflexivity.
  - reflexivity.
  - reflexivity.
  - discriminate.
  - reflexivity.
  - split; [exact H1|]. split; [exact H2|exact H3].
Defined.

(** ** File extensions *)

Lemma last_segment_dotless s : forall cur,
  dotless s = true -> last_segment cur s = cur +:+ s.
Proof.
  induction s as [|c s IH]; intros cur; cbn [dotless last_segment].
  - by rewrite append_empty_r.
  - intros [Hc Hs]%andb_prop. apply negb_true_iff in Hc. rewrite Hc, IH by done.
    by rewrite append_assoc.
Qed.

Lemma last_segment_dot stem : forall cur ext,
  last_segment cur (stem +:+ String "." ext) = last_segment "" ext.
Proof.
  induction stem as [|c stem IH]; intros cur ext.
  - reflexivity.
  - rewrite append_cons. cbn [last_segment]. destruct (Ascii.eqb c "."); apply IH.
Qed.

(** X12. The file type upload_document records is the text after the last dot
    of the filename in lower case, and the whole filename in lower case when
    it has no dot; so a file uploaded under a name whose suffix is one of
    the text formats, in whatever case, passes the allow-list test of
    get_document_content. *)
Theorem file_extension_suffix stem ext :
  dotless ext = true ->
  file_extension (stem +:+ "." +:+ ext) = toLowerCase ext /\
  file_extension ext = toLowerCase ext /\
  (includes textFormats (Some (toLowerCase ext)) = true ->
   includes textFormats (toLowerCase <$> Some (file_extension (stem +:+ "." +:+ ext))) = true).
Proof.
  intros Hext.
  assert (H1 : file_extension (stem +:+ "." +:+ ext) = toLowerCase ext).
  { unfold file_extension. change ("." +:+ ext) with (String "." ext).
    by rewrite last_segment_dot, last_segment_dotless. }
  split; [exact H1|]. split.
  - unfold file_extension. by rewrite last_segment_dotless.
  - rewrite H1. cbn [fmap option_fmap option_map]. by rewrite toLowerCase_idempotent.
Qed.

Lemma file_extension_suffix_witness :
  file_extension "Runbook.v2.MD" = "md" /\
  file_extension "MD" = "md" /\
  (includes textFormats (Some "md") = true ->
   includes textFormats (toLowerCase <$> Some (file_extension "Runbook.v2.MD")) = true).
Proof.
  apply (file_extension_suffix "Runbook.v2" "MD"). reflexivity.
Defined.

(** ** Listing stored documents *)

Lemma select_single_missing name columns filters w :
  outages w = [] ->
  rows_of name filters w = [] ->
  exists e, select_single name columns filters w = (Returned (Reply None (Some e)), w).
Proof.
  intros Ho Hx. unfold select_single. rewrite request_reliable by done. rewrite Hx.
  cbn. eauto.
Qed.

(** X13. With a reliable store, list_all_documents given a slug that is
    neither platform nor dev and that no company has returns, changes
    nothing, and answers with documents of every company: all the stored
    documents, or those of the category when one is given, each once and
    newest first. *)
Theorem list_all_documents_unknown_slug slug category w :
  outages w = [] ->
  slug <> "" -> slug <> "platform" -> slug <> "dev" ->
  rows_of "companies" (by_slug (Some slug)) w = [] ->
  exists docs,
    list_all_documents (Some slug) category w
    = (Returned (JArr (of_row <$> (with_company w <$> docs))), w) /\
    docs ≡ₚ (if truthy category
             then rows_of "documents" [Eq "category" (JStr (String_of category))] w
             else table "documents" (tables w)) /\
    Sorted (fun a b => json_leb (column "created_at" b) (column "created_at" a) = true) docs.
Proof.
  intros Ho Hne Hp Hd Hc. unfold list_all_documents.
  assert (truthy (Some slug) = true) as ->.
  { cbn. by apply negb_true_iff, String.eqb_neq. }
  rewrite !bool_decide_eq_false_2 by congruence. cbn [orb].
  unfold bind at 1. unfold bind at 1.
  destruct (select_single_missing "companies" (Some ["id"]) (by_slug (Some slug)) w Ho Hc)
    as [e ->].
  cbn [data ret app]. unfold bind at 1. rewrite request_reliable by done.
  cbn [fst snd error data rethrow bind ret listing].
  eexists. split; [reflexivity|]. split; [|apply order_Sorted_descending].
  rewrite order_perm. destruct (truthy category); [reflexivity|].
  unfold rows_of. cbn [selected forallb]. clear. induction (table _ _) as [|d l IH]; [done|].
  cbn. by rewrite IH.
Qed.

Lemma list_all_documents_unknown_slug_witness :
  exists docs,
    list_all_documents (Some "acme") None library_world
    = (Returned (JArr (of_row <$> (with_company library_world <$> docs))), library_world) /\
    docs ≡ₚ [runbook; installer].
Proof.
  destruct (list_all_documents_unknown_slug "acme" None library_world)
    as (docs & Hcall & Hdocs & _);
    [reflexivity|discriminate|discriminate|discriminate|reflexivity|].
  exists docs. split; [exact Hcall|exact Hdocs].
Defined.

(** ** The tool route *)

Lemma Object_prototype_undefined (table : gmap string handler) name :
  Object_prototype table name = Undefined
  <-> (name ∉ inherited_methods) /\ name <> "__proto__".
Proof.
  unfold Object_prototype, inherited_methods.
  repeat match goal with
         | |- context [String.eqb name ?s] =>
             destruct (String.eqb_spec name s) as [->|?]; cbn [orb];
             [split; [discriminate|intros [Hin Hp];
                                   first [ by exfalso; apply Hp
                                         | exfalso; apply Hin;
                                           repeat first [apply list_elem_of_here
                                                        |apply list_elem_of_further] ]]|]
         end.
  split; [|done]. intros _. split; [|done].
  intros Hin. repeat (apply elem_of_cons in Hin as [->|Hin]; [done|]).
  by apply elem_of_nil in Hin.
Qed.

(** X14. POST /tools/:name answers 404 exactly when the name is neither an
    entry of the handler table nor a member inherited from
    Object.prototype. *)
Theorem tools_route_not_found (table : gmap string handler) name params w :
  code (fst (tools_route table name params w)) = 404
  <-> table !! name = None /\ (name ∉ inherited_methods) /\ name <> "__proto__".
Proof.
  unfold tools_route, lookup_property.
  destruct (table !! name) as [h|] eqn:Hh.
  - split; [|by intros [[=] _]]. unfold bind, ret. by destruct (h params w) as [[v|e] w'].
  - rewrite <- (Object_prototype_undefined table name).
    destruct (Object_prototype table name) as [f| |].
    + split; [|by intros [_ [=]]]. by destruct (f params w) as [[v|e] w'].
    + split; [done|by intros [_ [=]]].
    + done.
Qed.

(** ** Dev tasks: a task added, then deleted *)

Lemma insert_single_reliable name new w :
  outages w = [] ->
  check_constraints name (stamp name w 0 new) = true ->
  (forall keys after r, unique_in name keys after r = true) ->
  insert_single name new w
  = (Returned (Reply (Some (stamp name w 0 new)) None),
     set_next_id (next_id w + 1)
       (set_tables (<[name := (table name (tables w) ++ [stamp name w 0 new])%list]> (tables w))
          w)).
Proof.
  intros Ho Hc Hu. unfold insert_single. rewrite request_reliable by done.
  unfold insert_rows. cbn [imap forallb length]. rewrite Hc, Hu. reflexivity.
Qed.

Lemma cascade_dev_tasks gone db : cascade "dev_tasks" gone db = db.
Proof. reflexivity. Qed.

Lemma pretty_N_distinct (k n : N) : (k < n)%N -> (pretty k =? pretty n) = false.
Proof. intros H. apply String.eqb_neq. intros Heq%(inj pretty). lia. Qed.

Lemma add_dev_task_reliable title description assigned_to priority steps due_date w :
  outages w = [] ->
  exists task,
    task !! "id" = Some (JStr (pretty (next_id w))) /\
    add_dev_task title description assigned_to priority steps due_date w
    = (Returned (object [("success", Some (JBool true)); ("task", Some (of_row task))]),
       set_next_id (next_id w + 1)
         (set_tables (<["dev_tasks" := (table "dev_tasks" (tables w) ++ [task])%list]>
                        (tables w)) w)).
Proof.
  intros Ho. unfold add_dev_task. unfold bind.
  rewrite insert_single_reliable by (done || apply unique_in_dev_tasks).
  eexists. split; [|reflexivity].
  unfold stamp. rewrite lookup_insert_eq. do 3 f_equal. lia.
Qed.

Lemma delete_dev_task_reliable id w :
  outages w = [] ->
  delete_dev_task (Some id) w
  = (Returned (JObj [("success", JBool true); ("deleted", JStr id)]),
     set_tables (<["dev_tasks" :=
                     List.filter (fun r => negb (selected [Eq "id" (JStr id)] r))
                       (table "dev_tasks" (tables w))]> (tables w)) w).
Proof.
  intros Ho. unfold delete_dev_task, delete_from, bind. rewrite request_reliable by done.
  reflexivity.
Qed.

(** X15. With a reliable store whose dev tasks carry identifiers the store
    has issued, add_dev_task appends one task and returns it with its id,
    and delete_dev_task of that id then reports the id deleted and leaves
    the dev tasks as they were before the task was added. *)
Theorem add_then_delete_dev_task title description assigned_to priority steps due_date w :
  outages w = [] ->
  (forall t, t ∈ table "dev_tasks" (tables w) ->
     exists k, t !! "id" = Some (JStr (pretty k)) /\ (k < next_id w)%N) ->
  let added := add_dev_task title description assigned_to priority steps due_date w in
  exists task id,
    fst added = Returned (object [("success", Some (JBool true)); ("task", Some (of_row task))]) /\
    task !! "id" = Some (JStr id) /\
    table "dev_tasks" (tables (snd added)) = (table "dev_tasks" (tables w) ++ [task])%list /\
    fst (delete_dev_task (Some id) (snd added))
    = Returned (JObj [("success", JBool true); ("deleted", JStr id)]) /\
    table "dev_tasks" (tables (snd (delete_dev_task (Some id) (snd added))))
    = table "dev_tasks" (tables w).
Proof.
  intros Ho Hids added. subst added.
  destruct (add_dev_task_reliable title description assigned_to priority steps due_date w Ho)
    as (task & Hid & ->).
  exists task, (pretty (next_id w)). cbn [fst snd].
  rewrite delete_dev_task_reliable by done.
  cbn [fst snd tables set_tables set_next_id]. rewrite !table_insert_eq.
  repeat (split; [done|]).
  rewrite List.filter_app. cbn [List.filter]. rewrite selected_one.
  assert (matches task (Eq "id" (JStr (pretty (next_id w)))) = true) as ->.
  { unfold matches. rewrite Hid. cbn. apply String.eqb_refl. }
  cbn [negb]. rewrite app_nil_r. apply filter_all.
  intros x Hx. destruct (Hids x Hx) as (k & Hk & Hlt). rewrite selected_one.
  unfold matches. rewrite Hk. cbn [json_eqb]. by rewrite pretty_N_distinct.
Qed.

Lemma add_then_delete_dev_task_witness :
  exists task id,
    fst (add_dev_task (Some "Wire the webhook") None (Some "Chris") None None None sample_world)
    = Returned (object [("success", Some (JBool true)); ("task", Some (of_row task))]) /\
    task !! "id" = Some (JStr id) /\
    table "dev_tasks"
      (tables (snd (add_dev_task (Some "Wire the webhook") None (Some "Chris") None None None
                      sample_world)))
    = [handbook; task] /\
    fst (delete_dev_task (Some id)
           (snd (add_dev_task (Some "Wire the webhook") None (Some "Chris") None None None
                   sample_world)))
    = Returned (JObj [("success", JBool true); ("deleted", JStr id)]) /\
    table "dev_tasks"
      (tables (snd (delete_dev_task (Some id)
                      (snd (add_dev_task (Some "Wire the webhook") None (Some "Chris") None
                              None None sample_world)))))
    = [handbook].
Proof.
  apply (add_then_delete_dev_task (Some "Wire the webhook") None (Some "Chris") None None None
           sample_world).
  - reflexivity.
  - intros t Ht. apply list_elem_of_singleton in Ht as ->. exists 3%N. split; reflexivity.
Defined.

(** ** Uploads *)

Lemma insert_single_data name new w r w1 d :
  insert_single name new w = (Returned r, w1) ->
  data r = Some d ->
  d = stamp name w 0 new /\
  table name (tables w1) = (table name (tables w) ++ [d])%list.
Proof.
  unfold insert_single, request. intros H Hd.
  assert (Hgen : forall w0, tables w0 = tables w -> next_id w0 = next_id w -> now w0 = now w ->
            (let (r, w') := insert_rows name [new] w0 in
             match error (single r) with
             | None => (single r, w')
             | Some _ => (single r, w0)
             end) = (r, w1) ->
            d = stamp name w 0 new /\
            table name (tables w1) = (table name (tables w) ++ [d])%list).
  { intros w0 Ht Hn Hnow. unfold insert_rows. cbn [imap length].
    assert (stamp name w0 0 new = stamp name w 0 new) as ->.
    { unfold stamp. by rewrite Hn, Hnow. }
    destruct (_ && _); cbn [single error data].
    - intros [= <- <-]. cbn in Hd. injection Hd as <-. split; [done|].
      cbn [tables set_tables set_next_id]. by rewrite table_insert_eq, Ht.
    - intros [= <- <-]. discriminate. }
  destruct (outages w) as [|[e|] rest].
  - match type of H with
    | (let (_, _) := ?p in _) = _ => destruct p as [r0 w'] eqn:E
    end.
    injection H as <- <-. by apply (Hgen w).
  - injection H as <- <-. discriminate.
  - match type of H with
    | (let (_, _) := ?p in _) = _ => destruct p as [r0 w'] eqn:E
    end.
    injection H as <- <-. by apply (Hgen (set_outages rest w)).
Qed.

(** X16. For a slug other than platform and dev that no company has,
    upload_document fails with the not-found error naming the slug after the
    lookup alone, whatever the file storage would answer: nothing is
    uploaded and nothing is registered. *)
Theorem upload_document_resolves_first
    storage_upload getPublicUrl slug filename content_base64 content_type category
    description w :
  slug <> Some "platform" -> slug <> Some "dev" ->
  rows_of "companies" (by_slug slug) w = [] ->
  upload_document storage_upload getPublicUrl slug filename content_base64 content_type
    category description w
  = (Thrown ("Company not found: " +:+ String_of slug), set_outages (tail (outages w)) w).
Proof.
  intros Hp Hd Hc. unfold upload_document.
  rewrite !bool_decide_eq_false_2 by done. cbn [negb andb].
  destruct (select_single_none "companies" (Some ["id"]) (by_slug slug) w Hc) as [e He].
  unfold bind. by rewrite He.
Qed.

Lemma upload_document_resolves_first_witness :
  upload_document accepting_storage public_url (Some "acme") (Some "notes.md")
    (Some "IyBOb3Rlcw==") (Some "text/markdown") None None library_world
  = (Thrown "Company not found: acme", library_world).
Proof.
  apply (upload_document_resolves_first accepting_storage public_url (Some "acme")
           (Some "notes.md") (Some "IyBOb3Rlcw==") (Some "text/markdown") None None
           library_world); [discriminate|discriminate|reflexivity].
Defined.

(** X17. When upload_document returns, the last row of the documents table is
    the document it returns: it carries the filename, the lower-case
    extension as file type, the path slug/filename in the bucket and the
    public address of that path as url and file_url, and no company when
    the slug is platform or dev. *)
Theorem upload_document_registers
    storage_upload getPublicUrl slug filename content_base64 content_type category
    description w v :
  fst (upload_document storage_upload getPublicUrl slug (Some filename) content_base64
         content_type category description w) = Returned v ->
  exists doc,
    v = object [ ("success", Some (JBool true)); ("document", Some (of_row doc));
                 ("url", doc !! "url") ] /\
    last (table "documents"
            (tables (snd (upload_document storage_upload getPublicUrl slug (Some filename)
                            content_base64 content_type category description w))))
    = Some doc /\
    doc !! "name" = Some (JStr filename) /\
    doc !! "file_type" = Some (JStr (file_extension filename)) /\
    doc !! "bucket_path" = Some (JStr (String_of slug +:+ "/" +:+ filename)) /\
    doc !! "url" = Some (JStr (getPublicUrl (String_of slug +:+ "/" +:+ filename))) /\
    doc !! "file_url" = doc !! "url" /\
    (slug = Some "platform" \/ slug = Some "dev" -> doc !! "company_id" = Some JNull).
Proof.
  destruct (upload_document _ _ _ _ _ _ _ _ w) as [out w'] eqn:E. cbn [fst snd].
  intros ->. revert E.
  unfold upload_document. unfold bind at 1.
  match goal with
  | |- context [if ?b then ?m else ?m'] =>
      assert (Hid : exists company_id w1,
                (if b then m else m') w = (company_id, w1) /\
                forall i, company_id = Returned i ->
                  slug = Some "platform" \/ slug = Some "dev" -> i = Some JNull);
      [|destruct Hid as (company_id & w1 & -> & Hid)]
  end.
  { destruct (bool_decide (slug = Some "platform")) eqn:Hp;
      [|destruct (bool_decide (slug = Some "dev")) eqn:Hd]; cbn [negb andb].
    - do 2 eexists. split; [reflexivity|]. by intros i [= <-].
    - do 2 eexists. split; [reflexivity|]. by intros i [= <-].
    - apply bool_decide_eq_false in Hp, Hd.
      match goal with |- context [bind ?m ?k w] => destruct (bind m k w) as [c w1] end.
      do 2 eexists. split; [reflexivity|]. intros i _ [?|?]; done. }
  destruct company_id as [company_id|e]; [|discriminate].
  destruct content_base64 as [content|]; [|discriminate].
  unfold bind at 1.
  destruct (storage_upload _ content content_type w1) as [[[e|]|e] w2]; try discriminate.
  unfold bind at 1.
  match goal with
  | |- context [insert_single "documents" ?new w2] =>
      set (record := new); destruct (insert_single "documents" record w2) as [[r|e] w3] eqn:Hi
  end; [|discriminate].
  unfold bind at 1. unfold rethrow. destruct (error r) as [e|] eqn:He; [discriminate|].
  cbn [ret]. destruct (data r) as [doc|] eqn:Hdoc.
  - cbn [fst snd fmap option_fmap option_map]. intros [= <- <-].
    destruct (insert_single_data _ _ _ _ _ _ Hi Hdoc) as [-> Ht].
    assert (Hcol : forall key, key <> "id" -> key <> "company_id" -> key <> "notes" ->
              stamp "documents" w2 0 record !! key
              = match ({[ "name" := JStr filename;
                          "type" := JStr (if truthy category then String_of category
                                          else "general");
                          "url" := JStr (getPublicUrl (String_of slug +:+ "/" +:+ filename));
                          "file_url" := JStr (getPublicUrl (String_of slug +:+ "/" +:+ filename));
                          "bucket_path" := JStr (String_of slug +:+ "/" +:+ filename);
                          "file_type" := JStr (file_extension filename);
                          "category" := JStr (if truthy category then String_of category
                                              else "general") ]} : row) !! key with
                | Some x => Some x
                | None => column_defaults "documents" (now w2) !! key
                end).
    { intros key H1 H2 H3. unfold stamp. rewrite lookup_insert_ne by done.
      rewrite lookup_union. subst record. rewrite !with_field_other by done.
      by destruct (_ !! key), (_ !! key). }
    exists (stamp "documents" w2 0 record).
    rewrite !Hcol by done. rewrite Ht, last_snoc.
    repeat (split; [reflexivity|]).
    intros Hs. unfold stamp. rewrite lookup_insert_ne by done.
    apply lookup_union_Some_l. subst record. rewrite (Hid _ eq_refl Hs). apply lookup_insert_eq.
  - destruct r as [d e]. cbn in He, Hdoc. subst.
    unfold insert_single, request in Hi.
    exfalso. clear -Hi.
    assert (Hgen : forall w0 r w',
              (let (r, w') := insert_rows "documents" [record] w0 in
               match error (single r) with
               | None => (single r, w')
               | Some _ => (single r, w0)
               end) = (r, w') -> r <> Reply None None).
    { intros w0 r w'. unfold insert_rows. cbn [imap]. destruct (_ && _); cbn; by intros [= <- <-]. }
    destruct (outages w2) as [|[e|] rest].
    + match type of Hi with
      | (let (_, _) := ?p in _) = _ => destruct p as [r0 w'] eqn:E
      end.
      injection Hi as -> ->. by apply Hgen in E.
    + discriminate.
    + match type of Hi with
      | (let (_, _) := ?p in _) = _ => destruct p as [r0 w'] eqn:E
      end.
      injection Hi as -> ->. by apply Hgen in E.
Qed.

Lemma upload_document_registers_witness :
  exists doc,
    last (table "documents"
            (tables (snd (upload_document accepting_storage public_url (Some "dtiq")
                            (Some "Notes.MD") (Some "IyBOb3Rlcw==") (Some "text/markdown")
                            None None library_world))))
    = Some doc /\
    doc !! "name" = Some (JStr "Notes.MD") /\
    doc !! "file_type" = Some (JStr "md") /\
    doc !! "bucket_path" = Some (JStr "dtiq/Notes.MD") /\
    doc !! "url" = Some (JStr "https://files.example.com/dtiq/Notes.MD").
Proof.
  assert (Hreturned : exists v,
            fst (upload_document accepting_storage public_url (Some "dtiq")
                   (Some "Notes.MD") (Some "IyBOb3Rlcw==") (Some "text/markdown")
                   None None library_world) = Returned v).
  { assert (H : match fst (upload_document accepting_storage public_url (Some "dtiq")
                             (Some "Notes.MD") (Some "IyBOb3Rlcw==") (Some "text/markdown")
                             None None library_world) with
                | Returned _ => true
                | Thrown _ => false
                end = true) by (vm_compute; reflexivity).
    destruct (fst _); [eauto | discriminate]. }
  destruct Hreturned as [v Hv].
  destruct (upload_document_registers accepting_storage public_url (Some "dtiq") "Notes.MD"
              (Some "IyBOb3Rlcw==") (Some "text/markdown") None None library_world v Hv)
    as (doc & _ & Hlast & Hname & Htype & Hpath & Hurl & _).
  exists doc. repeat apply conj; assumption.
Defined.

(** ** A deployment added, then looked up by its slug *)

Lemma pretty_N_go_nonempty x : forall s, s <> "" -> pretty_N_go x s <> "".
Proof.
  induction (N.lt_wf_0 x) as [x _ IH]; intros s Hs.
  destruct (decide (0 < x)%N).
  - rewrite pretty_N_go_step by done. apply IH; [apply N.div_lt; lia | done].
  - assert (x = 0%N) as -> by lia. by rewrite pretty_N_go_0.
Qed.

Lemma pretty_N_nonempty (x : N) : pretty x <> "".
Proof.
  unfold pretty, pretty_N. destruct (decide (x = 0%N)); [done|].
  rewrite pretty_N_go_step by lia. by apply pretty_N_go_nonempty.
Qed.

Lemma select_reliable name columns filters arrange w :
  outages w = [] ->
  select name columns filters arrange w
  = (Returned (Reply (Some (project columns <$> arrange (rows_of name filters w))) None), w).
Proof. intros Ho. unfold select. by rewrite request_reliable. Qed.

Lemma get_deployment_reliable slug deployment_id d w :
  outages w = [] ->
  truthy deployment_id = true \/ truthy slug = true ->
  rows_of "deployments"
    (if truthy deployment_id then [Eq "id" (JStr (String_of deployment_id))] else by_slug slug) w
  = [d] ->
  get_deployment slug deployment_id w = (Returned (deployment_view d w), w).
Proof.
  intros Ho Harg Hd. unfold get_deployment.
  assert (Hf : (if truthy deployment_id then ret [Eq "id" (JStr (String_of deployment_id))]
                else if truthy slug then ret (by_slug slug)
                else throw "Must provide slug or deployment_id")
               = ret (if truthy deployment_id then [Eq "id" (JStr (String_of deployment_id))]
                      else by_slug slug)).
  { destruct (truthy deployment_id); [done|]. destruct (truthy slug); [done|].
    by destruct Harg. }
  rewrite Hf. erewrite bind_returned by reflexivity.
  erewrite bind_returned by (by apply (select_single_reliable _ _ _ d)).
  cbn [rethrow error]. erewrite bind_returned by reflexivity. cbn [data project].
  erewrite bind_returned by (by apply select_reliable).
  cbn [rethrow error]. erewrite bind_returned by reflexivity.
  cbn [data default project]. rewrite list_fmap_id. reflexivity.
Qed.

Lemma filter_matches f (l : list row) :
  List.filter (fun x => matches x f) l = List.filter (selected [f]) l.
Proof. apply List.filter_ext. intros x. by rewrite selected_one. Qed.

Lemma unique_in_components keys after r :
  unique_in "deployment_components" keys after r = true.
Proof. reflexivity. Qed.

(** With a reliable store and the slug free, add_deployment inserts the
    deployment under the derived slug, then its components, and ends as the
    look-up of the new deployment by its id does. *)
Lemma add_deployment_creates
    name description github_url frontend_url mcp_server_url database_type
    database_provider w :
  outages w = [] ->
  rows_of "deployments" [Eq "slug" (JStr (derive_slug name))] w = [] ->
  exists d w3,
    outages w3 = [] /\
    table "deployments" (tables w3) = (table "deployments" (tables w) ++ [d])%list /\
    d !! "id" = Some (JStr (pretty (next_id w))) /\
    d !! "slug" = Some (JStr (derive_slug name)) /\
    d !! "name" = Some (JStr name) /\
    add_deployment (Some name) description github_url frontend_url mcp_server_url
      database_type database_provider w
    = get_deployment None (Some (pretty (next_id w))) w3.
Proof.
  intros Ho Hfree.
  unfold add_deployment. unfold bind at 1.
  destruct (select_single_missing "deployments" (Some ["id"])
              [Eq "slug" (JStr (derive_slug name))] w Ho Hfree) as [e ->].
  cbn [data].
  match goal with
  | |- context [insert_single "deployments" ?new] => set (new_deployment := new)
  end.
  set (d := stamp "deployments" w 0 new_deployment).
  assert (Hid : d !! "id" = Some (JStr (pretty (next_id w)))).
  { subst d. unfold stamp. rewrite lookup_insert_eq. do 3 f_equal. lia. }
  assert (Hn : d !! "name" = Some (JStr name)).
  { subst d new_deployment. unfold stamp. rewrite lookup_insert_ne by done.
    apply lookup_union_Some_l. rewrite with_field_other by done.
    apply lookup_insert_eq. }
  assert (Hs : d !! "slug" = Some (JStr (derive_slug name))).
  { subst d new_deployment. unfold stamp. rewrite lookup_insert_ne by done.
    apply lookup_union_Some_l. rewrite with_field_other by done.
    rewrite lookup_insert_ne by done. apply lookup_insert_eq. }
  assert (Hi : insert_single "deployments" new_deployment w
               = (Returned (Reply (Some d) None),
                  set_next_id (next_id w + 1)
                    (set_tables (<["deployments" :=
                                     (table "deployments" (tables w) ++ [d])%list]> (tables w))
                       w))).
  { unfold insert_single. rewrite request_reliable by done.
    unfold insert_rows. cbn [imap forallb length]. fold d.
    change (check_constraints "deployments" d) with true.
    rewrite unique_in_deployments, Hs.
    assert (List.filter (fun x => matches x (Eq "slug" (JStr (derive_slug name))))
              (table "deployments" (tables w) ++ [d]) = [d]) as ->.
    { rewrite List.filter_app, filter_matches. fold (rows_of "deployments"
        [Eq "slug" (JStr (derive_slug name))] w). rewrite Hfree.
      cbn [List.filter app]. unfold matches. rewrite Hs. cbn [json_eqb].
      by rewrite String.eqb_refl. }
    cbn. rewrite orb_true_r. reflexivity. }
  erewrite bind_returned by exact Hi. cbn [rethrow error].
  erewrite bind_returned by reflexivity. cbn [data].
  match goal with
  | |- context [insert "deployment_components" ?rows] => set (components := rows)
  end.
  erewrite bind_returned; cycle 1.
  { apply insert_reliable; [done|reflexivity|apply unique_in_components]. }
  cbn [rethrow error]. erewrite bind_returned by reflexivity.
  assert (field_string "id" d = Some (pretty (next_id w))) as ->.
  { unfold field_string. by rewrite Hid. }
  do 2 eexists. split; [|split; [|split; [exact Hid|split; [exact Hs|split; [exact Hn|reflexivity]]]]].
  - exact Ho.
  - cbn [tables set_tables set_next_id]. rewrite table_insert_ne by done.
    by rewrite table_insert_eq.
Qed.

(** X18. With a reliable store whose deployments carry identifiers the store
    has issued, for a name whose slug is not empty and not taken,
    add_deployment returns, and get_deployment by the derived slug then
    returns the same result and changes nothing. *)
Theorem add_then_get_deployment
    name description github_url frontend_url mcp_server_url database_type
    database_provider w :
  outages w = [] ->
  (forall d, d ∈ table "deployments" (tables w) ->
     exists k, d !! "id" = Some (JStr (pretty k)) /\ (k < next_id w)%N) ->
  derive_slug name <> "" ->
  rows_of "deployments" [Eq "slug" (JStr (derive_slug name))] w = [] ->
  let added := add_deployment (Some name) description github_url frontend_url
                 mcp_server_url database_type database_provider w in
  exists v,
    fst added = Returned v /\
    get_deployment (Some (derive_slug name)) None (snd added) = (Returned v, snd added).
Proof.
  intros Ho Hids Hslug Hfree added.
  destruct (add_deployment_creates name description github_url frontend_url mcp_server_url
              database_type database_provider w Ho Hfree)
    as (d & w3 & Ho3 & Ht & Hid & Hs & _ & Heq).
  fold added in Heq.
  assert (Hby_id : rows_of "deployments" [Eq "id" (JStr (pretty (next_id w)))] w3 = [d]).
  { unfold rows_of. rewrite Ht, List.filter_app. cbn [List.filter]. rewrite selected_one.
    unfold matches. rewrite Hid. cbn [json_eqb]. rewrite String.eqb_refl.
    rewrite filter_none; [done|]. intros x Hx. destruct (Hids x Hx) as (k & Hk & Hlt).
    rewrite selected_one. unfold matches. rewrite Hk. cbn [json_eqb].
    by apply pretty_N_distinct. }
  assert (Hby_slug : rows_of "deployments" (by_slug (Some (derive_slug name))) w3 = [d]).
  { unfold rows_of, by_slug. cbn [String_of]. rewrite Ht, List.filter_app.
    fold (rows_of "deployments" [Eq "slug" (JStr (derive_slug name))] w). rewrite Hfree.
    cbn [List.filter app]. rewrite selected_one. unfold matches. rewrite Hs. cbn [json_eqb].
    by rewrite String.eqb_refl. }
  assert (Hget : added = (Returned (deployment_view d w3), w3)).
  { rewrite Heq. apply get_deployment_reliable; [done| |].
    - left. cbn. apply negb_true_iff, String.eqb_neq, pretty_N_nonempty.
    - cbn [truthy String_of]. 
      assert (negb (pretty (next_id w) =? "") = true) as ->; [|done].
      apply negb_true_iff, String.eqb_neq, pretty_N_nonempty. }
  exists (deployment_view d w3). rewrite Hget. cbn [fst snd]. split; [done|].
  apply get_deployment_reliable; [done| |done].
  right. cbn. by apply negb_true_iff, String.eqb_neq.
Qed.

Lemma add_then_get_deployment_witness :
  exists v,
    fst (add_tracker fresh_world) = Returned v /\
    get_deployment (Some "tracker") None (snd (add_tracker fresh_world))
    = (Returned v, snd (add_tracker fresh_world)).
Proof.
  apply (add_then_get_deployment "Tracker" None (Some "https://github.example.com/tracker")
           None None None None fresh_world).
  - reflexivity.
  - intros d Hd. by apply elem_of_nil in Hd.
  - discriminate.
  - reflexivity.
Defined.



(** ** Requirements matched by a part of their item *)

Lemma like_percent_cons q c s : like ("%"%char :: q) (c :: s) = like q (c :: s) || like ("%"%char :: q) s.
Proof. reflexivity. Qed.

Lemma like_percent_nil q : like ("%"%char :: q) [] = like q [].
Proof. cbn. by rewrite orb_false_r. Qed.

Lemma like_percent q s :
  like ("%"%char :: q) s = true <-> exists a b, s = (a ++ b)%list /\ like q b = true.
Proof.
  induction s as [|c s IH].
  - rewrite like_percent_nil. split.
    + intros H. by exists [], [].
    + intros (a & b & Hs & Hb). symmetry in Hs. apply app_eq_nil in Hs as [-> ->]. done.
  - rewrite like_percent_cons, orb_true_iff, IH. split.
    + intros [H|(a & b & -> & Hb)].
      * by exists [], (c :: s).
      * by exists (c :: a), b.
    + intros (a & b & Hs & Hb). destruct a as [|c' a].
      * left. cbn in Hs. by rewrite Hs.
      * right. injection Hs as -> ->. by exists a, b.
Qed.

Lemma like_any s : like ["%"%char] s = true.
Proof. apply like_percent. exists s, []. by rewrite app_nil_r. Qed.

Lemma like_plain p q s :
  forallb (fun c => negb (Ascii.eqb c "%" || Ascii.eqb c "_")) p = true ->
  like (p ++ q)%list s = true <-> exists b, s = (p ++ b)%list /\ like q b = true.
Proof.
  revert s. induction p as [|c p IH]; intros s; cbn [forallb app].
  - intros _. split; [intros H; by exists s|by intros (b & -> & H)].
  - intros [Hc Hp]%andb_prop. apply negb_true_iff, orb_false_elim in Hc as [H1 H2].
    cbn [like]. rewrite H1, H2. destruct s as [|c' s].
    + split; [done|]. by intros (b & [=] & _).
    + rewrite andb_true_iff, (IH s Hp). split.
      * intros [->%Ascii.eqb_eq (b & -> & Hb)]. by exists b.
      * intros (b & [= -> ->] & Hb). split; [apply Ascii.eqb_refl|by exists b].
Qed.

Lemma list_ascii_append a b :
  list_ascii_of_string (a +:+ b) = (list_ascii_of_string a ++ list_ascii_of_string b)%list.
Proof. induction a as [|c a IH]; [done|]. rewrite append_cons. cbn. by rewrite IH. Qed.

Lemma string_of_list_ascii_app a b :
  string_of_list_ascii (a ++ b) = string_of_list_ascii a +:+ string_of_list_ascii b.
Proof. induction a as [|c a IH]; [done|]. cbn. by rewrite append_cons, IH. Qed.

Lemma plain_toLowerCase text :
  plain text = true ->
  forallb (fun c => negb (Ascii.eqb c "%" || Ascii.eqb c "_"))
    (list_ascii_of_string (toLowerCase text)) = true.
Proof.
  unfold plain. induction text as [|c text IH]; [done|]. cbn [list_ascii_of_string toLowerCase forallb].
  intros [Hc Ht]%andb_prop. rewrite IH by done. rewrite andb_true_r.
  apply negb_true_iff in Hc. apply orb_false_elim in Hc as [Hc _].
  apply orb_false_elim in Hc as [Hc _].
  unfold lower_char. destruct (is_upper c) eqn:E; [|by apply negb_true_iff].
  unfold is_upper in E. apply andb_prop in E as [E1%Nat.leb_le E2%Nat.leb_le].
  apply negb_true_iff, orb_false_intro; apply Ascii.eqb_neq; intros Heq;
    apply (f_equal nat_of_ascii) in Heq; rewrite nat_ascii_embedding in Heq by lia;
    [change (nat_of_ascii "%") with 37%nat in Heq
    |change (nat_of_ascii "_") with 95%nat in Heq]; lia.
Qed.

Lemma ilike_contains text s :
  plain text = true ->
  ilike ("%" +:+ text +:+ "%") s = true
  <-> exists a b, toLowerCase s = a +:+ toLowerCase text +:+ b.
Proof.
  intros Hplain. unfold ilike.
  rewrite !toLowerCase_append. change (toLowerCase "%") with "%".
  rewrite !list_ascii_append. change (list_ascii_of_string "%") with ["%"%char].
  cbn [app]. rewrite like_percent. split.
  - intros (a & b & Hs & Hb). apply like_plain in Hb as (b' & -> & _);
      [|by apply plain_toLowerCase].
    exists (string_of_list_ascii a), (string_of_list_ascii b').
    rewrite <- (string_of_list_ascii_of_string (toLowerCase s)), Hs.
    rewrite !string_of_list_ascii_app. by rewrite string_of_list_ascii_of_string.
  - intros (a & b & Hs). exists (list_ascii_of_string a), (list_ascii_of_string (toLowerCase text +:+ b)).
    split; [by rewrite Hs, !list_ascii_append|].
    rewrite list_ascii_append. apply like_plain; [by apply plain_toLowerCase|].
    eexists. split; [reflexivity|apply like_any].
Qed.

Lemma matches_mentions text (r : row) :
  plain text = true ->
  matches r (ILike "item" ("%" +:+ text +:+ "%")) = true <-> mentions text r.
Proof.
  intros Hplain. unfold matches, mentions. destruct (r !! "item") as [[| | |s| |]|].
  all: try (split; [discriminate|by intros (? & ? & ? & [=] & _)]).
  rewrite ilike_contains by done. split.
  - intros (a & b & H). by exists s, a, b.
  - intros (s' & a & b & [= <-] & H). by exists a, b.
Qed.

Lemma update_reliable name patch filters w :
  outages w = [] ->
  forallb (check_constraints name) ((fun x => patch ∪ x) <$> rows_of name filters w) = true ->
  (forall keys after r, unique_in name keys after r = true) ->
  update name patch filters w
  = (Returned (Reply (Some ((fun x => patch ∪ x) <$> rows_of name filters w)) None),
     set_tables (<[name := (fun r => if selected filters r then patch ∪ r else r)
                             <$> table name (tables w)]> (tables w)) w).
Proof.
  intros Ho Hc Hu. unfold update. rewrite request_reliable by done. unfold update_rows.
  rewrite Hc. cbn [andb].
  rewrite (proj2 (forallb_forall _ _)) by (intros; apply Hu). reflexivity.
Qed.

Lemma unique_in_requirements keys after r : unique_in "requirements" keys after r = true.
Proof. reflexivity. Qed.

(** X19. With a reliable store, for the one company that has the slug, a text
    without wildcard characters and a status the schema allows,
    update_requirement gives the status to every requirement of the company
    whose item contains the text, letter case apart, not only to the one it
    returns, and leaves every other requirement as it was. *)
Theorem update_requirement_updates_every_match slug item status c w :
  outages w = [] ->
  rows_of "companies" (by_slug slug) w = [c] ->
  plain item = true ->
  status ∈ ["needed"; "requested"; "received"] ->
  let after := table "requirements"
                 (tables (snd (update_requirement slug (Some item) (Some status) w))) in
  forall i r, table "requirements" (tables w) !! i = Some r ->
    exists r', after !! i = Some r' /\
      (matches r (Eq "company_id" (column "id" c)) = true -> mentions item r ->
       r' !! "status" = Some (JStr status) /\ r' !! "item" = r !! "item" /\
       r' !! "id" = r !! "id") /\
      (~ (matches r (Eq "company_id" (column "id" c)) = true /\ mentions item r) -> r' = r).
Proof.
  intros Ho Hc Hplain Hstatus after i r Hr. subst after.
  set (patch := with_field "status" (str (Some status)) {[ "updated_at" := JStr (now w) ]}).
  set (filters := [ Eq "company_id" (column "id" c);
                    ILike "item" ("%" +:+ item +:+ "%") ]).
  assert (Hsel : forall x, selected filters x = true
                           <-> matches x (Eq "company_id" (column "id" c)) = true /\ mentions item x).
  { intros x. subst filters. unfold selected. cbn [forallb].
    rewrite andb_true_r, andb_true_iff. by rewrite matches_mentions. }
  assert (Heq : update_requirement slug (Some item) (Some status) w
                = (Returned (object [("success", Some (JBool true));
                                     ("requirement",
                                      of_row <$> head ((fun x => patch ∪ x)
                                                         <$> rows_of "requirements" filters w))]),
                   set_tables (<["requirements" :=
                                   (fun r => if selected filters r then patch ∪ r else r)
                                     <$> table "requirements" (tables w)]> (tables w)) w)).
  { unfold update_requirement.
    erewrite bind_returned by (by apply (select_single_reliable _ _ _ c)).
    cbn [data]. rewrite column_project by reflexivity.
    erewrite bind_returned by reflexivity. cbn [String_of]. fold patch filters.
    erewrite bind_returned; cycle 1.
    { apply update_reliable; [done| |apply unique_in_requirements].
      apply forallb_forall. intros x Hx%list_elem_of_In.
      apply list_elem_of_fmap in Hx as (y & -> & Hy). unfold rows_of in Hy.
      apply list_elem_of_In, filter_In in Hy as [_ Hy]. apply Hsel in Hy as [_ (s & _ & _ & Hs & _)].
      change (check_constraints "requirements" (patch ∪ y))
        with (not_null ((patch ∪ y) !! "item") &&
              one_of ["needed"; "requested"; "received"] ((patch ∪ y) !! "status")).
      rewrite !lookup_patched. subst patch. cbn [with_field str fmap option_fmap option_map].
      rewrite lookup_insert_ne by done. rewrite lookup_insert_eq.
      change (({["updated_at" := JStr (now w)]} : row) !! "item") with (@None json).
      rewrite Hs. cbn [not_null one_of andb].
      apply existsb_exists. exists status. split; [by apply list_elem_of_In|apply String.eqb_refl]. }
    cbn [rethrow error]. erewrite bind_returned by reflexivity. cbn [data first].
    reflexivity. }
  rewrite Heq. cbn [snd tables set_tables]. rewrite table_insert_eq, list_lookup_fmap, Hr.
  cbn [fmap option_fmap option_map]. eexists. split; [reflexivity|]. split.
  - intros H1 H2. rewrite (proj2 (Hsel r)) by done. rewrite !lookup_patched.
    subst patch. cbn [with_field str fmap option_fmap option_map].
    rewrite lookup_insert_eq. rewrite !lookup_insert_ne by done. done.
  - intros Hn. destruct (selected filters r) eqn:E; [|done]. by apply Hsel in E.
Qed.

Lemma update_requirement_updates_every_match_witness :
  exists r',
    table "requirements"
      (tables (snd (update_requirement (Some "dtiq") (Some "CALL") (Some "received")
                      needs_world))) !! 0%nat = Some r' /\
    (matches call_files (Eq "company_id" (column "id" dtiq)) = true ->
     mentions "CALL" call_files ->
     r' !! "status" = Some (JStr "received") /\ r' !! "item" = call_files !! "item" /\
     r' !! "id" = call_files !! "id") /\
    (~ (matches call_files (Eq "company_id" (column "id" dtiq)) = true /\
        mentions "CALL" call_files) -> r' = call_files).
Proof.
  apply (update_requirement_updates_every_match (Some "dtiq") "CALL" "received" dtiq
           needs_world).
  - reflexivity.
  - reflexivity.
  - reflexivity.
  - apply list_elem_of_further, list_elem_of_further, list_elem_of_here.
  - reflexivity.
Defined.

(** ** Listing deployments *)

(** X20. list_deployments, when it returns, answers with every deployment when
    the status is absent or empty and with those of the given status
    otherwise, each of them once, newest first. *)
Theorem list_deployments_filtered status w v :
  fst (list_deployments status w) = Returned v ->
  exists rows,
    v = JArr (of_row <$> rows) /\
    (truthy status = false -> rows ≡ₚ table "deployments" (tables w)) /\
    (truthy status = true ->
     rows ≡ₚ List.filter (fun d => matches d (Eq "status" (JStr (String_of status))))
               (table "deployments" (tables w))) /\
    Sorted (fun a b => json_leb (column "created_at" b) (column "created_at" a) = true) rows.
Proof.
  unfold list_deployments. unfold bind at 1.
  match goal with
  | |- context [select "deployments" None ?f ?a w] =>
      destruct (select_cases "deployments" None f a w) as (r & w1 & Hsel & _ & _ & Hr)
  end.
  rewrite Hsel. destruct Hr as [[e ->]| ->]; [discriminate|].
  cbn. intros [= <-]. eexists. split; [reflexivity|].
  rewrite list_fmap_id. split; [|split].
  - intros ->. rewrite order_perm. unfold rows_of. by rewrite filter_all.
  - intros ->. rewrite order_perm. unfold rows_of. by rewrite <- filter_matches.
  - apply order_Sorted_descending.
Qed.

Lemma list_deployments_filtered_witness :
  exists rows,
    JArr [of_row tracker] = JArr (of_row <$> rows) /\
    (truthy (Some "active") = false -> rows ≡ₚ table "deployments" (tables deployed_world)) /\
    (truthy (Some "active") = true ->
     rows ≡ₚ List.filter (fun d => matches d (Eq "status" (JStr "active")))
               (table "deployments" (tables deployed_world))) /\
    Sorted (fun a b => json_leb (column "created_at" b) (column "created_at" a) = true) rows.
Proof.
  apply (list_deployments_filtered (Some "active") deployed_world (JArr [of_row tracker])).
  reflexivity.
Defined.

(** ** Rows created under a company *)

Lemma insert_data name new w r w1 :
  insert name new w = (Returned r, w1) ->
  error r = None ->
  table name (tables w1) = (table name (tables w) ++ imap (stamp name w) new)%list.
Proof.
  unfold insert, request. intros H He.
  assert (Hgen : forall w0, tables w0 = tables w -> next_id w0 = next_id w -> now w0 = now w ->
            insert_rows name new w0 = (r, w1) ->
            table name (tables w1) = (table name (tables w) ++ imap (stamp name w) new)%list).
  { intros w0 Ht Hn Hnow. unfold insert_rows.
    assert (imap (stamp name w0) new = imap (stamp name w) new) as ->.
    { apply imap_ext. intros i x _. unfold stamp. by rewrite Hn, Hnow. }
    destruct (_ && _).
    - intros [= <- <-]. cbn [tables set_tables set_next_id]. by rewrite table_insert_eq, Ht.
    - intros [= <- <-]. discriminate. }
  destruct (outages w) as [|[e|] rest].
  - destruct (insert_rows name new w) as [r0 w'] eqn:E. injection H as <- <-.
    by apply (Hgen w).
  - injection H as <- <-. discriminate.
  - destruct (insert_rows name new (set_outages rest w)) as [r0 w'] eqn:E.
    injection H as <- <-. by apply (Hgen (set_outages rest w)).
Qed.

Lemma stamp_company_id name w i (r : row) v :
  r !! "company_id" = Some v -> stamp name w i r !! "company_id" = Some v.
Proof.
  intros H. unfold stamp. rewrite lookup_insert_ne by done. by apply lookup_union_Some_l.
Qed.

Ltac created_under_company unfold_handler :=
  let out := fresh "out" in
  let w' := fresh "w'" in
  let E := fresh "E" in
  let Hs := fresh "Hs" in
  let Hc := fresh "Hc" in
  let Hi := fresh "Hi" in
  let He := fresh "He" in
  unfold creates_under_company; intros slug w v; cbv beta;
  match goal with
  | |- fst ?x = _ -> _ => destruct x as [out w'] eqn:E
  end;
  cbn [fst snd]; intros ->; revert E; unfold_handler;
  unfold bind at 1;
  destruct (select_single "companies" (Some ["id"]) (by_slug slug) w) as [[c0|?] w1] eqn:Hs;
    [|discriminate];
  destruct (data c0) as [company|] eqn:Hc; [|discriminate];
  destruct (select_single_found _ _ _ _ _ _ _ Hs Hc) as (c & Hrows & -> & Ht);
  rewrite column_project by reflexivity;
  unfold bind at 1;
  match goal with
  | |- context [insert ?name [?new] w1] =>
      destruct (insert name [new] w1) as [[r|?] w2] eqn:Hi; [|discriminate];
      unfold bind at 1, rethrow; destruct (error r) eqn:He; [discriminate|];
      cbn [ret]; unfold bind at 1;
      pose proof (insert_data _ _ _ _ _ Hi He) as Htable;
      destruct (first (data r) w2) as [[?|?] ?] eqn:Hf; [|discriminate];
      destruct (data r); [|discriminate]; cbn in Hf; injection Hf as <- <-;
      intros [= <- <-];
      exists c, (stamp name w1 0 new); split; [exact Hrows|]; split;
      [rewrite Htable, Ht; reflexivity
      |apply stamp_company_id; rewrite ?with_field_other by done; apply lookup_insert_eq]
  end.

(** X21. add_note, add_requirement, add_document and add_contact create their
    row under the company they resolved: when one of them returns, exactly
    one company has the slug, one row was appended to the handler's table,
    and its company_id is the id of that company. *)
Theorem rows_created_under_company :
  (forall content type,
     creates_under_company "activity" (fun slug => add_note slug content type)) /\
  (forall item status,
     creates_under_company "requirements" (fun slug => add_requirement slug item status)) /\
  (forall name type url notes,
     creates_under_company "documents" (fun slug => add_document slug name type url notes)) /\
  (forall name role email phone,
     creates_under_company "contacts" (fun slug => add_contact slug name role email phone)).
Proof.
  repeat apply conj; intros.
  - created_under_company ltac:(unfold add_note).
  - created_under_company ltac:(unfold add_requirement).
  - created_under_company ltac:(unfold add_document).
  - created_under_company ltac:(unfold add_contact).
Qed.

Lemma rows_created_under_company_witness :
  exists c created,
    rows_of "companies" (by_slug (Some "dtiq")) sample_world = [c] /\
    table "activity" (tables (snd (add_note (Some "dtiq") (Some "Called Sarah") None
                                     sample_world)))
    = [intro_call; created] /\
    created !! "company_id" = Some (column "id" c).
Proof.
  assert (Hreturned : exists v,
            fst (add_note (Some "dtiq") (Some "Called Sarah") None sample_world) = Returned v).
  { assert (H : match fst (add_note (Some "dtiq") (Some "Called Sarah") None sample_world) with
                | Returned _ => true
                | Thrown _ => false
                end = true) by (vm_compute; reflexivity).
    destruct (fst _); [eauto | discriminate]. }
  destruct Hreturned as [v Hv].
  exact (proj1 rows_created_under_company (Some "Called Sarah") None (Some "dtiq")
           sample_world v Hv).
Defined.

(** ** A health check without components *)

(** X22. When the store answers and no component references the deployment
    id, as for an id no deployment has, check_deployment_health does not
    fail: it returns the id with an empty health_check, fetches nothing and
    changes no table. *)
Theorem check_deployment_health_without_components deployment_id w :
  answers w ->
  rows_of "deployment_components" [Eq "deployment_id" (JStr (String_of deployment_id))] w = [] ->
  fst (check_deployment_health deployment_id w)
  = Returned (object [ ("deployment_id", str deployment_id);
                       ("health_check", Some (JObj [])) ]) /\
  fetched (snd (check_deployment_health deployment_id w)) = fetched w /\
  tables (snd (check_deployment_health deployment_id w)) = tables w.
Proof.
  intros Ha Hrows. unfold check_deployment_health, bind, select, request.
  unfold answers in Ha. unfold rows_of in *.
  destruct (outages w) as [|[e|] rest]; [|contradiction|]; cbn; rewrite Hrows; cbn; done.
Qed.

Lemma check_deployment_health_without_components_witness :
  fst (check_deployment_health (Some "99") deployed_world)
  = Returned (JObj [("deployment_id", JStr "99"); ("health_check", JObj [])]) /\
  fetched (snd (check_deployment_health (Some "99") deployed_world)) = [] /\
  tables (snd (check_deployment_health (Some "99") deployed_world)) = tables deployed_world.
Proof.
  apply (check_deployment_health_without_components (Some "99") deployed_world).
  - exact I.
  - reflexivity.
Defined.

(** ** Documents that cannot be read *)

(** X23. When the store answers: for an id no document has,
    get_document_content throws the error of the single-row lookup, before
    its own not-found test and without fetching; and for a stored document
    of a text format whose file cannot be fetched, it does not throw but
    returns the document with content null and the error, the message of
    the network failure or 'Failed to fetch: <status>' for a response that
    is no success. *)
Theorem get_document_content_reports_failures document_id w :
  answers w ->
  let after := get_document_content document_id w in
  (rows_of "documents" [Eq "id" (JStr (String_of document_id))] w = [] ->
   fst after = Thrown "JSON object requested, multiple (or no) rows returned" /\
   fetched (snd after) = fetched w) /\
  (forall d,
     rows_of "documents" [Eq "id" (JStr (String_of document_id))] w = [d] ->
     let doc := with_company w d in
     let url := text_of (field_string "file_url" doc) in
     includes textFormats (toLowerCase <$> field_string "file_type" doc) = true ->
     (forall message,
        net w url = Unreachable message ->
        fst after
        = Returned (object [ ("document", Some (of_row doc)); ("content", Some JNull);
                             ("error", Some (JStr message)) ])) /\
     (forall status elapsed body,
        net w url = Responded status elapsed body ->
        (200 <=? status)%Z && (status <=? 299)%Z = false ->
        fst after
        = Returned (object [ ("document", Some (of_row doc)); ("content", Some JNull);
                             ("error", Some (JStr ("Failed to fetch: " +:+ pretty status))) ]))).
Proof.
  intros Ha after. split.
  - intros Hrows. subst after. unfold get_document_content.
    match goal with
    | |- context [bind (request ?p) ?k] =>
        assert (Hr : exists w1,
                  request p w
                  = (Returned (Reply None
                                 (Some "JSON object requested, multiple (or no) rows returned")),
                     w1) /\ fetched w1 = fetched w)
    end.
    { unfold request, answers in *.
      destruct (outages w) as [|[e|] rest]; [|contradiction|];
        rewrite ?rows_of_set_outages, Hrows; eexists; split; reflexivity. }
    destruct Hr as (w1 & Hr & Hf).
    erewrite bind_returned by exact Hr. cbn [rethrow error].
    erewrite bind_thrown by reflexivity. by split.
  - intros d Hd doc url Hext.
    destruct (get_document_content_found document_id d w Ha Hd) as [Hres _].
    fold after in Hres. rewrite Hres. unfold document_answer. fold doc url. rewrite Hext.
    split.
    + by intros message ->.
    + by intros status elapsed body -> ->.
Qed.

Lemma get_document_content_reports_failures_witness :
  fst (get_document_content (Some "99") offline_library)
  = Thrown "JSON object requested, multiple (or no) rows returned" /\
  fst (get_document_content (Some "20") offline_library)
  = Returned (object [ ("document", Some (of_row (with_company offline_library runbook)));
                       ("content", Some JNull); ("error", Some (JStr "fetch failed")) ]).
Proof.
  destruct (get_document_content_reports_failures (Some "99") offline_library I)
    as [Hmissing _].
  destruct (get_document_content_reports_failures (Some "20") offline_library I)
    as [_ Hfound].
  split.
  - exact (proj1 (Hmissing eq_refl)).
  - exact (proj1 (Hfound runbook eq_refl eq_refl) "fetch failed" eq_refl).
Defined.

